(** * The local device-agent client, [lib/utils/device/api.ts]

    A shallow embedding of the [DeviceAPI] class: the endpoint table, the
    single-shot dispatcher [doRequest], the shared helper [sendRequest]
    that wraps it in the retry controller, and the public operations.

    JavaScript promises are state-passing computations over a [World]
    that holds the device agent (as an oracle answering the n-th request),
    the requests sent so far, the waits performed and the log lines. *)

From Stdlib Require Import String Ascii List ZArith Lia Bool DecimalString.
Import ListNotations.
Open Scope string_scope.
Set Warnings "-register-all".

(** ** JavaScript values

    Response bodies are typed [any]: what [sdk.request.send] hands back is
    either the raw text or a parsed JSON document.  An object is the
    list of its fields in enumeration order, each name once; a lookup
    takes the first field of that name.  Numbers in payloads are passed
    through untouched by this layer; they are kept as integers. *)

Inductive JsValue : Type :=
| JUndefined
| JNull
| JBool (b : bool)
| JNumber (n : Z)
| JString (s : string)
| JArray (items : list JsValue)
| JObject (fields : list (string * JsValue)).

(** [typeof v === 'string'] *)
Definition typeof_string (v : JsValue) : bool :=
  match v with
  | JString _ => true
  | _ => false
  end.

(** [v !== 'lit'] against a string literal: strict inequality holds
    unless [v] is that very string. *)
Definition strict_neq_string (v : JsValue) (lit : string) : bool :=
  match v with
  | JString s => negb (String.eqb s lit)
  | _ => true
  end.

(** [v == null] (loose): true for [null] and [undefined] only. *)
Definition is_nullish (v : JsValue) : bool :=
  match v with
  | JUndefined | JNull => true
  | _ => false
  end.

(** Own-field lookup in an object; a missing field reads [undefined]. *)
Fixpoint lookup_field (k : string) (fields : list (string * JsValue)) : JsValue :=
  match fields with
  | [] => JUndefined
  | (k', v) :: rest => if String.eqb k k' then v else lookup_field k rest
  end.

(** ** Errors *)

(** Modelled from the spec: the error classes of [./errors], whose
    source is missing.  They are the Typed Error of section 3,
    tagged BadRequest, ServiceUnavailable or Generic and carrying the
    message taken from the response body.  With them go the two kinds of
    failure that reach this file from outside: a rejection of
    [sdk.request.send], and the [TypeError] that JavaScript raises when
    a property is read from [null] or [undefined]. *)
Inductive Thrown : Type :=
| BadRequestDeviceAPIError (message : JsValue)
| ServiceUnavailableAPIError (message : JsValue)
| DeviceAPIError (message : JsValue)
| RequestError (message : string)
| TypeError (base : JsValue) (property : string).

Inductive Settled (T : Type) : Type :=
| Resolved (value : T)
| Rejected (reason : Thrown).
Arguments Resolved {T} value.
Arguments Rejected {T} reason.

(** [v.k]: reading a property.  The names read in this file ([message],
    [state], [info], [status], [containerId], [version]) are not defined
    on the prototypes of strings, numbers, booleans or arrays, so those
    read [undefined]; reading from [null] or [undefined] throws. *)
Definition member (v : JsValue) (k : string) : Settled JsValue :=
  match v with
  | JUndefined | JNull => Rejected (TypeError v k)
  | JObject fields => Resolved (lookup_field k fields)
  | _ => Resolved JUndefined
  end.

(** ** Requests, responses and the world *)

Record RequestOptions : Type := {
  method : string;
  url : option string;
  json : bool;
  body : option JsValue;
  qs : list (string * string)
}.

Record Response : Type := {
  statusCode : Z;
  responseBody : JsValue
}.

(** What one call of [sdk.request.send] comes back with. *)
Inductive SendOutcome : Type :=
| Replied (response : Response)
| SendFailed (message : string).

(** A readable stream, as handed out by [sdk.request.stream]. *)
Inductive Readable : Type :=
| readable (chunks : list string).

(** Modelled from the spec: a [Logger] of [../logger]; all that is
    asked of it here is [logDebug]. *)
Inductive Logger : Type :=
| mkLogger.

Record World : Type := {
  (** the answer to the n-th call of [sdk.request.send] *)
  agent : nat -> RequestOptions -> SendOutcome;
  (** the answer to the n-th call of [sdk.request.stream] *)
  streamAgent : nat -> string -> Settled Readable;
  (** calls of [sdk.request.send] so far, latest first *)
  exchanges : list (RequestOptions * SendOutcome);
  (** calls of [sdk.request.stream] so far, latest first *)
  streamCalls : list string;
  (** waits between attempts so far, in milliseconds, latest first *)
  sleeps : list Z;
  (** [logger.logDebug] lines, latest first *)
  debugLog : list string;
  (** retry notices (label, attempt number, cause), latest first *)
  retryLog : list (string * nat * Thrown)
}.

Definition record_exchange (x : RequestOptions * SendOutcome) (w : World) : World :=
  {| agent := agent w; streamAgent := streamAgent w;
     exchanges := x :: exchanges w; streamCalls := streamCalls w;
     sleeps := sleeps w; debugLog := debugLog w; retryLog := retryLog w |}.

Definition record_stream (u : string) (w : World) : World :=
  {| agent := agent w; streamAgent := streamAgent w;
     exchanges := exchanges w; streamCalls := u :: streamCalls w;
     sleeps := sleeps w; debugLog := debugLog w; retryLog := retryLog w |}.

Definition record_sleep (ms : Z) (w : World) : World :=
  {| agent := agent w; streamAgent := streamAgent w;
     exchanges := exchanges w; streamCalls := streamCalls w;
     sleeps := ms :: sleeps w; debugLog := debugLog w; retryLog := retryLog w |}.

Definition record_debug (line : string) (w : World) : World :=
  {| agent := agent w; streamAgent := streamAgent w;
     exchanges := exchanges w; streamCalls := streamCalls w;
     sleeps := sleeps w; debugLog := line :: debugLog w; retryLog := retryLog w |}.

Definition record_retry (note : string * nat * Thrown) (w : World) : World :=
  {| agent := agent w; streamAgent := streamAgent w;
     exchanges := exchanges w; streamCalls := streamCalls w;
     sleeps := sleeps w; debugLog := debugLog w; retryLog := note :: retryLog w |}.

(** ** Promises *)

Definition Promise (T : Type) : Type := World -> Settled T * World.

Definition resolve {T} (v : T) : Promise T := fun w => (Resolved v, w).
Definition throw {T} (e : Thrown) : Promise T := fun w => (Rejected e, w).

(** [await p] followed by the rest of an async function, and [p.then(k)]. *)
Definition bind {A B} (p : Promise A) (k : A -> Promise B) : Promise B :=
  fun w =>
    match p w with
    | (Resolved v, w') => k v w'
    | (Rejected e, w') => (Rejected e, w')
    end.

(** A synchronous step that returns or throws. *)
Definition settle {T} (s : Settled T) : Promise T := fun w => (s, w).

Declare Scope promise_scope.
Delimit Scope promise_scope with promise.
Notation "x <- p ;; k" := (bind p (fun x => k))
  (at level 100, p at next level, right associativity) : promise_scope.
Open Scope promise_scope.

(** [sdk.request.send(opts)] *)
Definition request_send (opts : RequestOptions) : Promise Response :=
  fun w =>
    let answer := agent w (length (exchanges w)) opts in
    let w' := record_exchange (opts, answer) w in
    match answer with
    | Replied r => (Resolved r, w')
    | SendFailed m => (Rejected (RequestError m), w')
    end.

(** [sdk.request.stream({ url })] *)
Definition request_stream (u : string) : Promise Readable :=
  fun w => (streamAgent w (length (streamCalls w)) u, record_stream u w).

(** Modelled from the spec: [logger.logDebug(line)] of [../logger], a
    debug-level trace line. *)
Definition logDebug (line : string) : Promise unit :=
  fun w => (Resolved tt, record_debug line w).

(** Modelled from the spec: the wait between two attempts of the retry
    controller. *)
Definition delay (ms : Z) : Promise unit :=
  fun w => (Resolved tt, record_sleep ms w).

(** ** lodash's [_.omit(object, key)]

    A shallow copy of the enumerable fields of [object], in enumeration
    order, without [key].  A string or an array is copied index by index;
    [null], [undefined], numbers and booleans have no enumerable field. *)

Definition index_key (i : nat) : string :=
  NilZero.string_of_uint (Nat.to_uint i).

Fixpoint indexed_from (i : nat) (items : list JsValue) : list (string * JsValue) :=
  match items with
  | [] => []
  | x :: rest => (index_key i, x) :: indexed_from (S i) rest
  end.

Fixpoint chars_of (s : string) : list JsValue :=
  match s with
  | EmptyString => []
  | String c rest => JString (String c EmptyString) :: chars_of rest
  end.

Definition enumerable_fields (v : JsValue) : list (string * JsValue) :=
  match v with
  | JObject fields => fields
  | JArray items => indexed_from 0 items
  | JString s => indexed_from 0 (chars_of s)
  | _ => []
  end.

Definition omit (object : JsValue) (key : string) : JsValue :=
  JObject (filter (fun kv => negb (String.eqb (fst kv) key))
                  (enumerable_fields object)).

(** ** The endpoint table *)

Inductive Action : Type :=
| setTargetStateAction
| getTargetStateAction
| getDeviceInformationAction
| logsAction
| pingAction
| versionAction
| statusAction
| containerIdAction.

Definition deviceEndpoints (action : Action) : string :=
  match action with
  | setTargetStateAction => "v2/local/target-state"
  | getTargetStateAction => "v2/local/target-state"
  | getDeviceInformationAction => "v2/local/device-info"
  | logsAction => "v2/local/logs"
  | pingAction => "ping"
  | versionAction => "v2/version"
  | statusAction => "v2/state/status"
  | containerIdAction => "v2/containerId"
  end.

Record DeviceAPI : Type := {
  logger : Logger;
  deviceAddress : string
}.

Definition string_of_Z (n : Z) : string :=
  NilZero.string_of_int (Z.to_int n).

Definition defaultPort : Z := 48484.

(** [new DeviceAPI(logger, addr, port)] *)
Definition constructor (logger : Logger) (addr : string) (port : Z) : DeviceAPI :=
  {| logger := logger;
     deviceAddress := "http://" ++ addr ++ ":" ++ string_of_Z port ++ "/" |}.

Definition getUrlForAction (this : DeviceAPI) (action : Action) : string :=
  deviceAddress this ++ deviceEndpoints action.

(** ** The dispatcher

    The closure [doRequest] of [sendRequest]: one round trip, then the
    status code decides.  [bodyError] is computed before the status is
    looked at.  In the [default] branch the error object is constructed
    and dropped, and the function falls off its end. *)

Definition doRequest (opts : RequestOptions) : Promise JsValue :=
  response <- request_send opts ;;
  bodyError <- settle (if typeof_string (responseBody response)
                       then Resolved (responseBody response)
                       else member (responseBody response) "message") ;;
  match statusCode response with
  | 200%Z => resolve (responseBody response)
  | 400%Z => throw (BadRequestDeviceAPIError bodyError)
  | 503%Z => throw (ServiceUnavailableAPIError bodyError)
  | _ => let _ := DeviceAPIError bodyError in resolve JUndefined
  end.

(** ** The retry controller

    [retry] is imported from [../helpers], which is not part of the
    sources this development was written from, and neither is
    [./errors]; both are modelled from the specification. *)

(** Modelled from the spec: which failures the retry controller of
    [../helpers] gives up on.  "An attempt that fails with BadRequest is
    NOT retried"; one "that fails with ServiceUnavailable or
    Generic/Transport IS retried". *)
Definition isBadRequest (e : Thrown) : bool :=
  match e with
  | BadRequestDeviceAPIError _ => true
  | _ => false
  end.

Record RetryOptions (T : Type) : Type := {
  func : Promise T;
  initialDelayMs : Z;
  maxAttempts : nat;
  label : string
}.
Arguments func {T} _.
Arguments initialDelayMs {T} _.
Arguments maxAttempts {T} _.
Arguments label {T} _.

(** What a run of the controller leaves behind: the settled result and
    the outcome of every attempt in the order made (the "Retry Attempt
    State" of the spec; its length is the attempt count). *)
Record RetryRun (T : Type) : Type := {
  settled : Settled T;
  attempts : list (Settled T)
}.
Arguments settled {T} _.
Arguments attempts {T} _.

Section Client.

(** The spec leaves the growth of the delay between attempts to the
    implementer ("fixed vs. exponential"); it is a parameter here. *)
Variable nextDelayMs : Z -> Z.

(** Modelled from the spec: the loop of the retry controller [retry] of
    [../helpers] (section 4.3).  The operation is invoked; a success is
    returned at once; a BadRequest failure is surfaced at once; any other
    failure is retried after a logged wait while attempts remain, and
    returned as it is once they are used up.  The first wait is
    [initialDelayMs].  A result is produced in every case, so the
    operation runs at least once (a bound of 0 behaves as a bound of 1).
    Cancellation is left out: the call in
    [sendRequest] passes no handle through which a wait could be
    cancelled. *)
Fixpoint retry_loop {T} (func : Promise T) (label : string)
         (retriesLeft attempt : nat) (delayMs : Z) (w : World)
  : RetryRun T * World :=
  match func w with
  | (Resolved v, w1) =>
      ({| settled := Resolved v; attempts := [Resolved v] |}, w1)
  | (Rejected e, w1) =>
      if isBadRequest e then
        ({| settled := Rejected e; attempts := [Rejected e] |}, w1)
      else
        match retriesLeft with
        | O => ({| settled := Rejected e; attempts := [Rejected e] |}, w1)
        | S k =>
            let w2 := record_retry (label, attempt, e) w1 in
            let w3 := snd (delay delayMs w2) in
            let (run, w4) :=
              retry_loop func label k (S attempt) (nextDelayMs delayMs) w3 in
            ({| settled := settled run;
                attempts := Rejected e :: attempts run |}, w4)
        end
  end.

(** Modelled from the spec: [retry({ func, initialDelayMs, maxAttempts,
    label })] of [../helpers], with its attempt record. *)
Definition retry_run {T} (options : RetryOptions T) (w : World)
  : RetryRun T * World :=
  retry_loop (func options) (label options)
             (maxAttempts options - 1) 1 (initialDelayMs options) w.

(** Modelled from the spec: [retry] of [../helpers] as the caller sees
    it, a promise of the operation's value. *)
Definition retry {T} (options : RetryOptions T) : Promise T :=
  fun w => let (run, w') := retry_run options w in (settled run, w').

(** ** [sendRequest] *)

(** The template literal's rendering of [opts.url]. *)
Definition url_text (opts : RequestOptions) : string :=
  match url opts with
  | Some u => u
  | None => "undefined"
  end.

Definition requestRetryOptions (opts : RequestOptions) : RetryOptions JsValue :=
  {| func := doRequest opts;
     initialDelayMs := 2000;
     maxAttempts := 6;
     label := "Supervisor API (" ++ method opts ++ " " ++ url_text opts ++ ")" |}.

Definition sendRequest (opts : RequestOptions) (logger : option Logger)
  : Promise JsValue :=
  _ <- match logger, url opts with
       | Some _, Some u => logDebug ("Sending request to " ++ u)
       | _, _ => resolve tt
       end ;;
  retry (requestRetryOptions opts).

(** ** The public operations

    The declared result types are erased at run time: each operation
    resolves with whatever its last expression evaluates to. *)

Definition setTargetState (this : DeviceAPI) (state : JsValue) : Promise JsValue :=
  let url := getUrlForAction this setTargetStateAction in
  sendRequest {| method := "POST"; url := Some url; json := true;
                 body := Some state; qs := [] |}
              (Some (logger this)).

Definition getTargetState (this : DeviceAPI) : Promise JsValue :=
  let url := getUrlForAction this getTargetStateAction in
  body <- sendRequest {| method := "GET"; url := Some url; json := true;
                         body := None; qs := [] |}
                      (Some (logger this)) ;;
  settle (member body "state").

Definition getDeviceInformation (this : DeviceAPI) : Promise JsValue :=
  let url := getUrlForAction this getDeviceInformationAction in
  body <- sendRequest {| method := "GET"; url := Some url; json := true;
                         body := None; qs := [] |}
                      (Some (logger this)) ;;
  settle (member body "info").

Definition getContainerId (this : DeviceAPI) (serviceName : string)
  : Promise JsValue :=
  let url := getUrlForAction this containerIdAction in
  body <- sendRequest {| method := "GET"; url := Some url; json := true;
                         body := None;
                         qs := [("serviceName", serviceName)] |}
                      (Some (logger this)) ;;
  status <- settle (member body "status") ;;
  if strict_neq_string status "success" then
    throw (DeviceAPIError
             (JString "Non-successful response from supervisor containerId endpoint"))
  else settle (member body "containerId").

Definition ping (this : DeviceAPI) : Promise JsValue :=
  let url := getUrlForAction this pingAction in
  sendRequest {| method := "GET"; url := Some url; json := false;
                 body := None; qs := [] |}
              (Some (logger this)).

Definition getVersion (this : DeviceAPI) : Promise JsValue :=
  let url := getUrlForAction this versionAction in
  body <- sendRequest {| method := "GET"; url := Some url; json := true;
                         body := None; qs := [] |}
                      None ;;
  status <- settle (member body "status") ;;
  if strict_neq_string status "success" then
    throw (DeviceAPIError
             (JString "Non-successful response from supervisor version endpoint"))
  else settle (member body "version").

Definition getStatus (this : DeviceAPI) : Promise JsValue :=
  let url := getUrlForAction this statusAction in
  body <- sendRequest {| method := "GET"; url := Some url; json := true;
                         body := None; qs := [] |}
                      None ;;
  status <- settle (member body "status") ;;
  if strict_neq_string status "success" then
    throw (DeviceAPIError
             (JString "Non-successful response from supervisor status endpoint"))
  else resolve (omit body "status").

Definition getLogStream (this : DeviceAPI) : Promise Readable :=
  let url := getUrlForAction this logsAction in
  request_stream url.

End Client.

(** ** Worlds to run the client in *)

(** A fresh world around a given agent: nothing sent, nothing logged. *)
Definition freshWorld (a : nat -> RequestOptions -> SendOutcome) : World :=
  {| agent := a;
     streamAgent := fun _ _ => Resolved (readable []);
     exchanges := []; streamCalls := []; sleeps := [];
     debugLog := []; retryLog := [] |}.

(** An agent that gives the same answer to every request. *)
Definition always (answer : SendOutcome) : nat -> RequestOptions -> SendOutcome :=
  fun _ _ => answer.

(** An agent that works through a list of answers, then repeats [rest]. *)
Definition scripted (answers : list SendOutcome) (rest : SendOutcome)
  : nat -> RequestOptions -> SendOutcome :=
  fun n _ => nth n answers rest.

Definition reply (code : Z) (b : JsValue) : SendOutcome :=
  Replied {| statusCode := code; responseBody := b |}.

Definition doubling (ms : Z) : Z := (2 * ms)%Z.

Definition localDevice : DeviceAPI := constructor mkLogger "192.168.1.7" defaultPort.

(** ** Reading the dispatcher off one answer *)

(** What [doRequest] settles with, as a function of what
    [sdk.request.send] came back with. *)
Definition dispatch (answer : SendOutcome) : Settled JsValue :=
  match answer with
  | SendFailed m => Rejected (RequestError m)
  | Replied r =>
      match (if typeof_string (responseBody r)
             then Resolved (responseBody r)
             else member (responseBody r) "message") with
      | Rejected e => Rejected e
      | Resolved bodyError =>
          match statusCode r with
          | 200%Z => Resolved (responseBody r)
          | 400%Z => Rejected (BadRequestDeviceAPIError bodyError)
          | 503%Z => Rejected (ServiceUnavailableAPIError bodyError)
          | _ => Resolved JUndefined
          end
      end
  end.

(** A failure the retry controller tries again after. *)
Definition retried {T} (s : Settled T) : Prop :=
  exists e, s = Rejected e /\ isBadRequest e = false.

(** A failure of the kinds named transient: HTTP 503 or a failed
    round trip. *)
Definition transient {T} (s : Settled T) : bool :=
  match s with
  | Rejected (ServiceUnavailableAPIError _) => true
  | Rejected (RequestError _) => true
  | _ => false
  end.

(** An outcome that ends the controller's loop whatever is left. *)
Definition final {T} (s : Settled T) : Prop :=
  match s with
  | Resolved _ => True
  | Rejected e => isBadRequest e = true
  end.

(** The non-streaming public operations with their arguments. *)
Inductive Operation : Type :=
| OpSetTargetState (state : JsValue)
| OpGetTargetState
| OpGetDeviceInformation
| OpGetContainerId (serviceName : string)
| OpPing
| OpGetVersion
| OpGetStatus.

Definition invoke (nextDelayMs : Z -> Z) (this : DeviceAPI) (op : Operation)
  : Promise JsValue :=
  match op with
  | OpSetTargetState state => setTargetState nextDelayMs this state
  | OpGetTargetState => getTargetState nextDelayMs this
  | OpGetDeviceInformation => getDeviceInformation nextDelayMs this
  | OpGetContainerId serviceName => getContainerId nextDelayMs this serviceName
  | OpPing => ping nextDelayMs this
  | OpGetVersion => getVersion nextDelayMs this
  | OpGetStatus => getStatus nextDelayMs this
  end.

(** The request each operation hands to [sendRequest]. *)
Definition requestOf (this : DeviceAPI) (op : Operation) : RequestOptions :=
  match op with
  | OpSetTargetState state =>
      {| method := "POST"; url := Some (getUrlForAction this setTargetStateAction);
         json := true; body := Some state; qs := [] |}
  | OpGetTargetState =>
      {| method := "GET"; url := Some (getUrlForAction this getTargetStateAction);
         json := true; body := None; qs := [] |}
  | OpGetDeviceInformation =>
      {| method := "GET"; url := Some (getUrlForAction this getDeviceInformationAction);
         json := true; body := None; qs := [] |}
  | OpGetContainerId serviceName =>
      {| method := "GET"; url := Some (getUrlForAction this containerIdAction);
         json := true; body := None; qs := [("serviceName", serviceName)] |}
  | OpPing =>
      {| method := "GET"; url := Some (getUrlForAction this pingAction);
         json := false; body := None; qs := [] |}
  | OpGetVersion =>
      {| method := "GET"; url := Some (getUrlForAction this versionAction);
         json := true; body := None; qs := [] |}
  | OpGetStatus =>
      {| method := "GET"; url := Some (getUrlForAction this statusAction);
         json := true; body := None; qs := [] |}
  end.

(** [n] waits, latest first, starting from [ms]. *)
Fixpoint waits (nextDelayMs : Z -> Z) (n : nat) (ms : Z) (earlier : list Z) : list Z :=
  match n with
  | O => earlier
  | S k => waits nextDelayMs k (nextDelayMs ms) (ms :: earlier)
  end.

(** The logger each operation hands to [sendRequest]: [getVersion] and
    [getStatus] pass none. *)
Definition loggerOf (this : DeviceAPI) (op : Operation) : option Logger :=
  match op with
  | OpGetVersion | OpGetStatus => None
  | _ => Some (logger this)
  end.

(** The exchange made last in [w] was answered with HTTP 200 and a body
    whose [status] field reads [st]. *)
Definition lastReply200 (w : World) (r : Response) (st : JsValue) : Prop :=
  (exists o rest, exchanges w = (o, Replied r) :: rest)
  /\ statusCode r = 200%Z
  /\ member (responseBody r) "status" = Resolved st.

(** What each operation makes of the value [sendRequest] resolved with:
    the handler chained after it, or the rest of the async function. *)
Definition handler (op : Operation) (body : JsValue) : Settled JsValue :=
  match op with
  | OpSetTargetState _ | OpPing => Resolved body
  | OpGetTargetState => member body "state"
  | OpGetDeviceInformation => member body "info"
  | OpGetContainerId _ =>
      match member body "status" with
      | Rejected e => Rejected e
      | Resolved status =>
          if strict_neq_string status "success" then
            Rejected (DeviceAPIError
              (JString "Non-successful response from supervisor containerId endpoint"))
          else member body "containerId"
      end
  | OpGetVersion =>
      match member body "status" with
      | Rejected e => Rejected e
      | Resolved status =>
          if strict_neq_string status "success" then
            Rejected (DeviceAPIError
              (JString "Non-successful response from supervisor version endpoint"))
          else member body "version"
      end
  | OpGetStatus =>
      match member body "status" with
      | Rejected e => Rejected e
      | Resolved status =>
          if strict_neq_string status "success" then
            Rejected (DeviceAPIError
              (JString "Non-successful response from supervisor status endpoint"))
          else Resolved (omit body "status")
      end
  end.

(** The field an operation reads first off the value it was given, if
    it reads one. *)
Definition firstRead (op : Operation) : option string :=
  match op with
  | OpSetTargetState _ | OpPing => None
  | OpGetTargetState => Some "state"
  | OpGetDeviceInformation => Some "info"
  | OpGetContainerId _ | OpGetVersion | OpGetStatus => Some "status"
  end.

(** The answers the agent of [w] gives to requests number [n], [n+1], ...
    [n+m-1] when each of them is [opts]. *)
Definition answersFrom (w : World) (opts : RequestOptions) (n m : nat)
  : list (RequestOptions * SendOutcome) :=
  map (fun i => (opts, agent w i opts)) (seq n m).

(** * The cloud commands

    Each command's [run] is taken from the point where the arguments
    and flags are parsed.  The SDK is an oracle: a call either is
    fulfilled or is rejected with some JavaScript value. *)

(** What a command can end up throwing: a value passed on as it was
    caught, an [ExpectedError] (the class of [../../errors], kept as a
    tag around the message it is constructed with), or one of the
    TypeErrors JavaScript raises on its own: a property read off [null]
    or [undefined], a call of what is no function, a loop over what
    cannot be iterated. *)
Inductive Raised : Type :=
| ThrownValue (e : JsValue)
| ThrownExpectedError (message : string)
| ThrownTypeError (base : JsValue) (property : string)
| ThrownNotAFunction (callee : string)
| ThrownNotIterable.

Inductive Outcome (T : Type) : Type :=
| Fulfilled (value : T)
| Failed (reason : Raised).
Arguments Fulfilled {T} value.
Arguments Failed {T} reason.

(** [String.prototype.toLowerCase], on the letters A to Z; every other
    byte of the text stays as it is.  (The only other characters that
    JavaScript lowers to an ASCII letter are U+212A, to [k], and U+0130,
    to [i] followed by a combining dot; neither can complete the word
    [online].) *)
Definition lower_letter (c : ascii) : ascii :=
  let n := nat_of_ascii c in
  if Nat.leb 65 n && Nat.leb n 90 then ascii_of_nat (n + 32) else c.

Fixpoint toLowerCase (s : string) : string :=
  match s with
  | EmptyString => EmptyString
  | String c rest => String (lower_letter c) (toLowerCase rest)
  end.

(** [s.includes(needle)] *)
Fixpoint includes (s needle : string) : bool :=
  String.prefix needle s
  || match s with
     | EmptyString => false
     | String _ rest => includes rest needle
     end.

Module DeviceIdentifyCmd.

(** [run()], given what [balena.models.device.identify] does with a
    uuid: [None] when it is fulfilled, [Some e] when it is rejected with
    [e].  In the [catch], [e.message?.toLowerCase().includes('online')]
    reads [message] off [e], stops at a [null] or [undefined] message,
    and calls [toLowerCase] on anything else. *)
Definition run (identify : string -> option JsValue) (uuid : string)
  : Outcome unit :=
  match identify uuid with
  | None => Fulfilled tt
  | Some e =>
      match member e "message" with
      | Rejected _ => Failed (ThrownTypeError e "message")
      | Resolved JUndefined | Resolved JNull => Failed (ThrownValue e)
      | Resolved (JString text) =>
          if includes (toLowerCase text) "online"
          then Failed (ThrownExpectedError ("Device " ++ uuid ++ " is not online"))
          else Failed (ThrownValue e)
      | Resolved _ => Failed (ThrownNotAFunction "toLowerCase")
      end
  end.

End DeviceIdentifyCmd.

(** What the SDK, or a helper that calls it, answers: a value, or a
    rejection with the moment it happened, which decides between
    rejections of calls that run side by side under [Promise.all]. *)
Inductive Answer (T : Type) : Type :=
| Ok (value : T)
| Rejects (at_time : nat) (e : JsValue).
Arguments Ok {T} value.
Arguments Rejects {T} at_time e.

Definition isOk {T : Type} (a : Answer T) : Prop :=
  match a with
  | Ok _ => True
  | Rejects _ _ => False
  end.

(** The text a template literal makes of a value. *)
Fixpoint js_toString (v : JsValue) : string :=
  match v with
  | JUndefined => "undefined"
  | JNull => "null"
  | JBool true => "true"
  | JBool false => "false"
  | JNumber n => string_of_Z n
  | JString s => s
  | JArray items =>
      (fix join (l : list JsValue) : string :=
         match l with
         | [] => ""
         | x :: rest =>
             match x with
             | JUndefined | JNull => ""
             | _ => js_toString x
             end
             ++ match rest with
                | [] => ""
                | _ :: _ => "," ++ join rest
                end
         end) items
  | JObject _ => "[object Object]"
  end.

(** A string in a condition: [undefined] and the empty string are
    falsy. *)
Definition truthy (s : option string) : bool :=
  match s with
  | Some (String _ _) => true
  | _ => false
  end.

(** [a || b] on optional strings. *)
Definition or_else (a b : option string) : option string :=
  if truthy a then a else b.

(** [s.split(sep)] for a one-character separator. *)
Fixpoint split (sep : ascii) (s : string) : list string :=
  match s with
  | EmptyString => [EmptyString]
  | String c rest =>
      if Ascii.eqb c sep then EmptyString :: split sep rest
      else match split sep rest with
           | [] => [String c EmptyString]
           | piece :: pieces => String c piece :: pieces
           end
  end.

(** [Array.from(new Set(l))]: the first occurrence of each text, in
    order. *)
Fixpoint uniq (seen l : list string) : list string :=
  match l with
  | [] => []
  | x :: rest =>
      if existsb (String.eqb x) seen then uniq seen rest
      else x :: uniq (x :: seen) rest
  end.

Definition newline : string := String (ascii_of_nat 10) EmptyString.

Module DeviceMoveCmd.

(** A device id as [tryAsInteger] leaves it: [string | number]. *)
Inductive DeviceId : Type :=
| IdText (s : string)
| IdNumber (n : Z).

(** [`${uuid}`] *)
Definition idText (uuid : DeviceId) : string :=
  match uuid with
  | IdText s => s
  | IdNumber n => string_of_Z n
  end.

Record FlagsDef : Type := {
  application : option string;
  app : option string;
  fleet : option string
}.

(** What the command leaves behind, latest first. *)
Record Shell : Type := {
  stderrLines : list string;
  infoLines : list string;
  exitCode : option Z;
  moveCalls : list (DeviceId * Z);
  lookupCalls : list string;
  selections : nat
}.

Definition emptyShell : Shell :=
  {| stderrLines := []; infoLines := []; exitCode := None;
     moveCalls := []; lookupCalls := []; selections := 0 |}.

Section Run.

(** The expanded [is_of__cpu_architecture] of a device type, and the
    architecture slug read off it. *)
Variables Nav ArchSlug : Type.

Record DeviceType : Type := {
  deviceTypeSlug : string;
  is_of__cpu_architecture : Nav
}.

Record Application : Type := {
  id : Z;
  slug : string;
  app_name : string;
  is_for__device_type : list DeviceType
}.

(** [ExtendedDevice]: [belongs_to__application] may be missing, and
    [application_name] is set by [run]. *)
Record Device : Type := {
  belongs_to__application : option (list Application);
  is_of__device_type : list DeviceType;
  application_name : option string
}.

(** The helpers of [../../utils] and the SDK calls, as given. *)
Variable tryAsInteger : string -> DeviceId.
Variable getExpandedProp : Nav -> string -> ArchSlug.
Variable isArchitectureCompatibleWith : ArchSlug -> ArchSlug -> bool.
(** [warnify(appToFleetFlagMsg)] *)
Variable deprecationWarning : string.
(** [process.stderr.isTTY] *)
Variable isTTY : bool.
(** [balena.models.device.get], by position in the list of ids *)
Variable device_get : nat -> DeviceId -> Answer Device.
(** [balena.models.device.move], by the number of moves made before *)
Variable device_move : nat -> DeviceId -> Z -> option JsValue.
Variable getApplication : string -> Answer Application.
Variable deviceType_getAll : list string -> Answer (list DeviceType).
Variable deviceType_getAllSupported : Answer (list DeviceType).
Variable selectApplication : (Application -> Outcome bool) -> Answer Application.

(** [Promise.all] over answers already there: all the values, or the
    rejection that came first. *)
Fixpoint earliest (best : option (nat * JsValue)) {T} (answers : list (Answer T))
  : option (nat * JsValue) :=
  match answers with
  | [] => best
  | Ok _ :: rest => earliest best rest
  | Rejects t e :: rest =>
      match best with
      | Some (t0, _) => if Nat.leb t0 t then earliest best rest
                        else earliest (Some (t, e)) rest
      | None => earliest (Some (t, e)) rest
      end
  end.

Fixpoint values {T} (answers : list (Answer T)) : list T :=
  match answers with
  | [] => []
  | Ok v :: rest => v :: values rest
  | Rejects _ _ :: rest => values rest
  end.

Definition promiseAll {T} (answers : list (Answer T)) : Outcome (list T) :=
  match earliest None answers with
  | Some (_, e) => Failed (ThrownValue e)
  | None => Fulfilled (values answers)
  end.

Fixpoint getEach (position : nat) (deviceIds : list DeviceId)
  : list (Answer Device) :=
  match deviceIds with
  | [] => []
  | uuid :: rest => device_get position uuid :: getEach (S position) rest
  end.

(** The body of the first [for] loop: the name of the first fleet the
    device belongs to, or [N/a]. *)
Definition withApplicationName (device : Device) : Device :=
  {| belongs_to__application := belongs_to__application device;
     is_of__device_type := is_of__device_type device;
     application_name :=
       Some match belongs_to__application device with
            | Some (first :: _) => app_name first
            | _ => "N/a"
            end |}.

(** [device.is_of__device_type[0].slug] *)
Definition firstDeviceTypeSlug (types : list DeviceType) : Outcome string :=
  match types with
  | [] => Failed (ThrownTypeError JUndefined "slug")
  | first :: _ => Fulfilled (deviceTypeSlug first)
  end.

Fixpoint mapSlugs (devices : list Device) : Outcome (list string) :=
  match devices with
  | [] => Fulfilled []
  | device :: rest =>
      match firstDeviceTypeSlug (is_of__device_type device) with
      | Failed e => Failed e
      | Fulfilled s =>
          match mapSlugs rest with
          | Failed e => Failed e
          | Fulfilled l => Fulfilled (s :: l)
          end
      end
  end.

(** [device.application_name !== app.app_name] *)
Definition name_differs (name : option string) (other : string) : bool :=
  match name with
  | Some n => negb (String.eqb n other)
  | None => true
  end.

Definition compatibleWithAll (deviceDeviceTypes : list DeviceType)
           (dt : DeviceType) : bool :=
  let dtArch := getExpandedProp (is_of__cpu_architecture dt) "slug" in
  forallb (fun deviceDeviceType =>
             isArchitectureCompatibleWith
               (getExpandedProp (is_of__cpu_architecture deviceDeviceType) "slug")
               dtArch)
          deviceDeviceTypes.

(** The filter handed to [patterns.selectApplication].  The slug of the
    fleet's device type is read once per compatible device type, so not
    at all when there is none. *)
Definition offered (compatibleDeviceTypes : list DeviceType)
           (devices : list Device) (app : Application) : Outcome bool :=
  match compatibleDeviceTypes with
  | [] => Fulfilled false
  | _ :: _ =>
      match firstDeviceTypeSlug (is_for__device_type app) with
      | Failed e => Failed e
      | Fulfilled appSlug =>
          Fulfilled
            (existsb (fun dt => String.eqb (deviceTypeSlug dt) appSlug)
                     compatibleDeviceTypes
             && existsb (fun device =>
                           name_differs (application_name device) (app_name app))
                        devices)
      end
  end.

Definition countSelection (sh : Shell) : Shell :=
  {| stderrLines := stderrLines sh; infoLines := infoLines sh;
     exitCode := exitCode sh; moveCalls := moveCalls sh;
     lookupCalls := lookupCalls sh; selections := S (selections sh) |}.

Definition recordLookup (name : string) (sh : Shell) : Shell :=
  {| stderrLines := stderrLines sh; infoLines := infoLines sh;
     exitCode := exitCode sh; moveCalls := moveCalls sh;
     lookupCalls := name :: lookupCalls sh; selections := selections sh |}.

Definition recordMove (call : DeviceId * Z) (sh : Shell) : Shell :=
  {| stderrLines := stderrLines sh; infoLines := infoLines sh;
     exitCode := exitCode sh; moveCalls := call :: moveCalls sh;
     lookupCalls := lookupCalls sh; selections := selections sh |}.

(** [console.info(line)] *)
Definition info (line : string) (sh : Shell) : Shell :=
  {| stderrLines := stderrLines sh; infoLines := line :: infoLines sh;
     exitCode := exitCode sh; moveCalls := moveCalls sh;
     lookupCalls := lookupCalls sh; selections := selections sh |}.

(** [console.error(line)] *)
Definition error (line : string) (sh : Shell) : Shell :=
  {| stderrLines := line :: stderrLines sh; infoLines := infoLines sh;
     exitCode := exitCode sh; moveCalls := moveCalls sh;
     lookupCalls := lookupCalls sh; selections := selections sh |}.

(** [process.exitCode = code] *)
Definition setExitCode (code : Z) (sh : Shell) : Shell :=
  {| stderrLines := stderrLines sh; infoLines := infoLines sh;
     exitCode := Some code; moveCalls := moveCalls sh;
     lookupCalls := lookupCalls sh; selections := selections sh |}.

Definition interactivelySelectApplication (devices : list Device) (sh : Shell)
  : Outcome Application * Shell :=
  match mapSlugs devices with
  | Failed e => (Failed e, sh)
  | Fulfilled slugs =>
      match deviceType_getAll (uniq [] slugs), deviceType_getAllSupported with
      | Rejects _ e, Ok _ => (Failed (ThrownValue e), sh)
      | Ok _, Rejects _ e => (Failed (ThrownValue e), sh)
      | Rejects t1 e1, Rejects t2 e2 =>
          (Failed (ThrownValue (if Nat.leb t1 t2 then e1 else e2)), sh)
      | Ok deviceDeviceTypes, Ok deviceTypes =>
          let compatibleDeviceTypes :=
            filter (compatibleWithAll deviceDeviceTypes) deviceTypes in
          let sh' := countSelection sh in
          match selectApplication (offered compatibleDeviceTypes devices) with
          | Ok application => (Fulfilled application, sh')
          | Rejects _ err =>
              match deviceDeviceTypes with
              | _ :: _ =>
                  match member err "message" with
                  | Rejected _ => (Failed (ThrownTypeError err "message"), sh')
                  | Resolved message =>
                      (Failed (ThrownExpectedError
                                 (js_toString message ++ newline
                                  ++ "Do all devices have a compatible architecture?")),
                       sh')
                  end
              | [] => (Failed (ThrownValue err), sh')
              end
          end
      end
  end.

(** The last [for] loop of [run]. *)
Fixpoint moveEach (application : Application) (deviceIds : list DeviceId)
         (sh : Shell) : Outcome unit * Shell :=
  match deviceIds with
  | [] => (Fulfilled tt, sh)
  | uuid :: rest =>
      let sh1 := recordMove (uuid, id application) sh in
      match device_move (length (moveCalls sh)) uuid (id application) with
      | None =>
          moveEach application rest
            (info ("Device " ++ idText uuid ++ " was moved to fleet "
                   ++ slug application) sh1)
      | Some err =>
          match member err "message" with
          | Rejected _ => (Failed (ThrownTypeError err "message"), sh1)
          | Resolved message =>
              moveEach application rest
                (setExitCode 1
                   (info (js_toString message ++ ", uuid: " ++ idText uuid) sh1))
          end
      end
  end.

(** The ids [run] works on: [params.uuid.split(',').map(tryAsInteger)]. *)
Definition deviceIdsOf (uuid : string) : list DeviceId :=
  map tryAsInteger (split "," uuid).

(** [options.application] after [||=]. *)
Definition destination (options : FlagsDef) : option string :=
  or_else (application options) (or_else (app options) (fleet options)).

Definition run (uuid : string) (options : FlagsDef) (sh : Shell)
  : Outcome unit * Shell :=
  let sh1 :=
    if (truthy (application options) || truthy (app options)) && isTTY
    then error deprecationWarning sh else sh in
  let deviceIds := deviceIdsOf uuid in
  match promiseAll (getEach 0 deviceIds) with
  | Failed e => (Failed e, sh1)
  | Fulfilled fetched =>
      let devices := map withApplicationName fetched in
      let (chosen, sh2) :=
        match destination options with
        | Some (String _ _ as name) =>
            match getApplication name with
            | Ok application => (Fulfilled application, recordLookup name sh1)
            | Rejects _ e => (Failed (ThrownValue e), recordLookup name sh1)
            end
        | _ => interactivelySelectApplication devices sh1
        end in
      match chosen with
      | Failed e => (Failed e, sh2)
      | Fulfilled application => moveEach application deviceIds sh2
      end
  end.

End Run.

End DeviceMoveCmd.


(** ** [fleet] *)

(** [v.k] in a command: the value, or the TypeError of reading off
    [null] or [undefined]. *)
Definition read (v : JsValue) (k : string) : Outcome JsValue :=
  match member v k with
  | Resolved x => Fulfilled x
  | Rejected _ => Failed (ThrownTypeError v k)
  end.

(** [v[0]] *)
Definition element0 (v : JsValue) : Outcome JsValue :=
  match v with
  | JUndefined | JNull => Failed (ThrownTypeError v "0")
  | JArray items => Fulfilled (nth 0 items JUndefined)
  | JObject fields => Fulfilled (lookup_field "0" fields)
  | JString (String c _) => Fulfilled (JString (String c EmptyString))
  | _ => Fulfilled JUndefined
  end.

(** A named field written in an object literal after a spread: in place
    when the spread brought the name, at the end otherwise. *)
Fixpoint setField (k : string) (v : JsValue) (fields : list (string * JsValue))
  : list (string * JsValue) :=
  match fields with
  | [] => [(k, v)]
  | (k', v') :: rest =>
      if String.eqb k k' then (k, v) :: rest
      else (k', v') :: setField k v rest
  end.

Module FleetCmd.

(** What the command leaves behind, latest first: the pages opened and
    the calls of [outputData] with the object and the field names. *)
Record Trace : Type := {
  opened : list string;
  outputs : list (JsValue * list string)
}.

Definition emptyTrace : Trace := {| opened := []; outputs := [] |}.

Section Run.

(** [getApplication] of [../../utils/sdk], the SDK's [getDashboardUrl],
    the [open] package and the inherited [outputData], as given; the
    last two answer [None] when fulfilled. *)
Variable getApplication : string -> Answer JsValue.
Variable getDashboardUrl : JsValue -> string.
Variable open : string -> option JsValue.
Variable outputData : JsValue -> list string -> option JsValue.

Definition run (fleet : string) (view : bool) (tr : Trace)
  : Outcome unit * Trace :=
  match getApplication fleet with
  | Rejects _ e => (Failed (ThrownValue e), tr)
  | Ok application =>
      if view then
        match read application "id" with
        | Failed e => (Failed e, tr)
        | Fulfilled id =>
            let dashboardUrl := getDashboardUrl id in
            let tr' := {| opened := dashboardUrl :: opened tr;
                          outputs := outputs tr |} in
            match open dashboardUrl with
            | Some e => (Failed (ThrownValue e), tr')
            | None => (Fulfilled tt, tr')
            end
        end
      else
        match read application "is_for__device_type" with
        | Failed e => (Failed e, tr)
        | Fulfilled types =>
        match element0 types with
        | Failed e => (Failed e, tr)
        | Fulfilled firstType =>
        match read firstType "slug" with
        | Failed e => (Failed e, tr)
        | Fulfilled device_type =>
        match read application "should_be_running__release" with
        | Failed e => (Failed e, tr)
        | Fulfilled releases =>
        match element0 releases with
        | Failed e => (Failed e, tr)
        | Fulfilled release =>
        match (if is_nullish release then Fulfilled JUndefined
               else read release "commit") with
        | Failed e => (Failed e, tr)
        | Fulfilled commit =>
            let outputApplication :=
              JObject (setField "commit" commit
                         (setField "device_type" device_type
                            (enumerable_fields application))) in
            let fields := ["app_name"; "id"; "device_type"; "slug"; "commit"] in
            let tr' := {| opened := opened tr;
                          outputs := (outputApplication, fields) :: outputs tr |} in
            match outputData outputApplication fields with
            | Some e => (Failed (ThrownValue e), tr')
            | None => (Fulfilled tt, tr')
            end
        end end end end end end
  end.

End Run.

End FleetCmd.

(** ** [instance init] *)

(** [v.length] *)
Definition lengthOf (v : JsValue) : Outcome JsValue :=
  match v with
  | JUndefined | JNull => Failed (ThrownTypeError v "length")
  | JArray items => Fulfilled (JNumber (Z.of_nat (length items)))
  | JString s => Fulfilled (JNumber (Z.of_nat (String.length s)))
  | JObject fields => Fulfilled (lookup_field "length" fields)
  | _ => Fulfilled JUndefined
  end.

(** What [for (const x of v)] runs over. *)
Definition iterate (v : JsValue) : Outcome (list JsValue) :=
  match v with
  | JArray items => Fulfilled items
  | JString s => Fulfilled (chars_of s)
  | _ => Failed ThrownNotIterable
  end.

(** [v === 'lit'] *)
Definition strict_eq_string (v : JsValue) (lit : string) : bool :=
  negb (strict_neq_string v lit).

(** [v === n] *)
Definition strict_eq_number (v : JsValue) (n : Z) : bool :=
  match v with
  | JNumber m => Z.eqb m n
  | _ => false
  end.

(** A value in a condition. *)
Definition js_truthy (v : JsValue) : bool :=
  match v with
  | JUndefined | JNull | JBool false | JNumber 0 | JString EmptyString => false
  | _ => true
  end.

Module InstanceInitCmd.

Record FlagsDef : Type := {
  apiKey : option string;
  region : option string;
  size : option string;
  imageName : option string
}.

(** A call of [fetch]: the URL, the method, the [authorization]
    header, the [content-type] header when one is set, and the object
    whose JSON text is the body when there is one. *)
Record Request : Type := {
  url : string;
  method : string;
  authorization : string;
  contentType : option string;
  body : option JsValue
}.

(** What a call of [fetch] followed by [res.json()] comes to. *)
Inductive Fetched : Type :=
| FetchRejected (e : JsValue)
| JsonRejected (e : JsValue)
| Json (responseBody : JsValue).

(** What [console.log] was given. *)
Inductive Printed : Type :=
| Line (text : string)
| Value (v : JsValue).

(** One thing the command did: a line for [console.log] or
    [console.error], a [fetch], or a timer awaited. *)
Inductive Event : Type :=
| Said (p : Printed)
| Complained (line : string)
| Asked (r : Request)
| Waited (ms : Z).

(** What the command leaves behind, latest first: the requests, the
    output, the error output and the timers, each on its own, and all
    of them together in the order they happened in the [journal]. *)
Record Host : Type := {
  requests : list Request;
  printed : list Printed;
  errors : list string;
  slept : list Z;
  journal : list Event
}.

Definition emptyHost : Host :=
  {| requests := []; printed := []; errors := []; slept := [];
     journal := [] |}.

Definition log (p : Printed) (h : Host) : Host :=
  {| requests := requests h; printed := p :: printed h;
     errors := errors h; slept := slept h;
     journal := Said p :: journal h |}.

Definition logError (line : string) (h : Host) : Host :=
  {| requests := requests h; printed := printed h;
     errors := line :: errors h; slept := slept h;
     journal := Complained line :: journal h |}.

Definition sent (r : Request) (h : Host) : Host :=
  {| requests := r :: requests h; printed := printed h;
     errors := errors h; slept := slept h;
     journal := Asked r :: journal h |}.

(** [await new Promise((r) => setTimeout(() => r(null), ms))] *)
Definition sleep (ms : Z) (h : Host) : Host :=
  {| requests := requests h; printed := printed h;
     errors := errors h; slept := ms :: slept h;
     journal := Waited ms :: journal h |}.

(** How a run ends: it returns, it throws, or a loop of it is still
    going round when the rounds allowed are used up. *)
Inductive Ended (T : Type) : Type :=
| Done (value : T)
| Threw (reason : Raised)
| StillLooping.
Arguments Done {T} value.
Arguments Threw {T} reason.
Arguments StillLooping {T}.

Definition imagesUrl : string := "https://api.digitalocean.com/v2/images".

Section Run.

(** The file system, the network, the name generator and
    [JSON.stringify], as given: whether the config file exists, what
    reading and parsing it gives, and what the n-th [fetch] comes to. *)
Variable existsSync : string -> bool.
Variable readConfig : string -> Outcome JsValue.
Variable fetchJson : nat -> Request -> Fetched.
Variable randomName : string.
Variable stringify : JsValue -> string.

Variable options : FlagsDef.

(** [`Bearer ${options.apiKey}`] *)
Definition bearer : string :=
  "Bearer " ++ match apiKey options with
               | Some key => key
               | None => "undefined"
               end.

Definition get (u : string) : Request :=
  {| url := u; method := "GET"; authorization := bearer;
     contentType := None; body := None |}.

Definition post (u : string) (payload : JsValue) : Request :=
  {| url := u; method := "POST"; authorization := bearer;
     contentType := Some "application/json"; body := Some payload |}.

(** [options.x || fallback] *)
Definition flagOr (flag : option string) (fallback : string) : string :=
  match flag with
  | Some (String _ _ as value) => value
  | _ => fallback
  end.

Definition pageUrl (page : nat) : string :=
  imagesUrl ++ "?per_page=200&page=" ++ index_key page.

(** The [for ... of] over one page of images: the [id] of the first
    image of the wanted name, if there is one. *)
Fixpoint firstNamed (wanted : string) (images : list JsValue)
  : Outcome (option JsValue) :=
  match images with
  | [] => Fulfilled None
  | image :: rest =>
      match read image "name" with
      | Failed e => Failed e
      | Fulfilled name =>
          if strict_eq_string name wanted then
            match read image "id" with
            | Failed e => Failed e
            | Fulfilled id => Fulfilled (Some id)
            end
          else firstNamed wanted rest
      end
  end.

(** The first [do ... while]: one page of the image list after the
    other, for as long as a page holds 200 images. *)
Fixpoint listImages (rounds page : nat) (wanted : string)
         (skipUpload : bool) (imageID : JsValue) (h : Host)
  : Ended (bool * JsValue) * Host :=
  match rounds with
  | O => (StillLooping, h)
  | S rounds' =>
      let request := get (pageUrl page) in
      let h1 := sent request h in
      match fetchJson (length (requests h)) request with
      | FetchRejected e | JsonRejected e => (Threw (ThrownValue e), h1)
      | Json responseBody =>
          match read responseBody "images" with
          | Failed e => (Threw e, h1)
          | Fulfilled images =>
          match lengthOf images with
          | Failed e => (Threw e, h1)
          | Fulfilled count =>
              let h2 := log (Value count) h1 in
              match iterate images with
              | Failed e => (Threw e, h2)
              | Fulfilled items =>
              match firstNamed wanted items with
              | Failed e =>
                  (Threw e, h2)
              | Fulfilled found =>
                  let '(skipUpload', imageID', h3) :=
                    match found with
                    | Some id =>
                        (true, id,
                         log (Line "Image already exists, skipping upload.") h2)
                    | None => (skipUpload, imageID, h2)
                    end in
                  if strict_eq_number count 200
                  then listImages rounds' (S page) wanted skipUpload' imageID' h3
                  else (Done (skipUpload', imageID'), h3)
              end end
          end end
      end
  end.

(** The second [do ... while]: asking for the image until its status is
    [available]. *)
Fixpoint awaitImage (rounds : nat) (imageID : JsValue) (h : Host)
  : Ended unit * Host :=
  match rounds with
  | O => (StillLooping, h)
  | S rounds' =>
      let h1 := sleep 2000 (log (Line "Waiting for image to be ready...") h) in
      let request := get (imagesUrl ++ "/" ++ js_toString imageID) in
      let h2 := sent request h1 in
      match fetchJson (length (requests h1)) request with
      | FetchRejected e | JsonRejected e => (Threw (ThrownValue e), h2)
      | Json responseBody =>
          match read responseBody "image" with
          | Failed e => (Threw e, h2)
          | Fulfilled image =>
              match read image "status" with
              | Failed e => (Threw e, h2)
              | Fulfilled status =>
                  if strict_neq_string status "available"
                  then awaitImage rounds' imageID h2
                  else (Done tt, h2)
              end
          end
      end
  end.

(** The third [do ... while]: asking at the [create] link until the
    action is [completed]. *)
Fixpoint awaitDroplet (rounds : nat) (createURL : JsValue) (h : Host)
  : Ended unit * Host :=
  match rounds with
  | O => (StillLooping, h)
  | S rounds' =>
      let h1 := sleep 2000 (log (Line "Wait for droplet to be created...") h) in
      match read createURL "href" with
      | Failed e => (Threw e, h1)
      | Fulfilled href =>
          let request := get (js_toString href) in
          let h2 := sent request h1 in
          match fetchJson (length (requests h1)) request with
          | FetchRejected e | JsonRejected e => (Threw (ThrownValue e), h2)
          | Json responseBody =>
              match read responseBody "action" with
              | Failed e => (Threw e, h2)
              | Fulfilled action =>
                  match read action "status" with
                  | Failed e => (Threw e, h2)
                  | Fulfilled status =>
                      if strict_neq_string status "completed"
                      then awaitDroplet rounds' createURL h2
                      else (Done tt, h2)
                  end
              end
          end
      end
  end.

(** [actions.filter((action) => action.rel === 'create')] *)
Fixpoint createActions (actions : list JsValue) : Outcome (list JsValue) :=
  match actions with
  | [] => Fulfilled []
  | action :: rest =>
      match read action "rel" with
      | Failed e => Failed e
      | Fulfilled rel =>
          match createActions rest with
          | Failed e => Failed e
          | Fulfilled kept =>
              Fulfilled (if strict_eq_string rel "create"
                         then action :: kept else kept)
          end
      end
  end.

Definition filterCreate (actions : JsValue) : Outcome (list JsValue) :=
  match actions with
  | JUndefined | JNull => Failed (ThrownTypeError actions "filter")
  | JArray items => createActions items
  | _ => Failed (ThrownNotAFunction "filter")
  end.

(** The body of [if (!skipUpload)]: the image is created and waited
    for; the result is its id. *)
Definition uploadImage (rounds : nat) (wanted : string) (h : Host)
  : Ended JsValue * Host :=
  let h1 :=
    log (Line "Existing image with same name not found, creating digitalocean image...")
        h in
  let h2 :=
    if truthy (apiKey options) then h1
    else log (Line "Missing digitalocean api key, please provide with --apiKey <api_key>")
             h1 in
  let h3 := log (Line "Uploading image...") h2 in
  let request :=
    post imagesUrl
      (JObject
         [("name", JString wanted);
          ("url", JString "https://api.balena-cloud.com/download?fileType=.gz&appId=1833771&deviceType=qemux86-64");
          ("distribution", JString "Unknown");
          ("region", JString "nyc1");
          ("description", JString "balenaOS custom image");
          ("tags", JArray [JString "balenaOS"])]) in
  let h4 := sent request h3 in
  match fetchJson (length (requests h3)) request with
  | FetchRejected e => (Threw (ThrownValue e), h4)
  | JsonRejected e => (Threw (ThrownValue e), log (Line "Image sent.") h4)
  | Json responseBody =>
      let h5 := log (Line "Image sent.") h4 in
      match read responseBody "image" with
      | Failed e => (Threw e, h5)
      | Fulfilled image =>
          match read image "id" with
          | Failed e => (Threw e, h5)
          | Fulfilled imageID =>
              match awaitImage rounds imageID h5 with
              | (Done _, h6) => (Done imageID, log (Line "Image available.") h6)
              | (Threw e, h6) => (Threw e, h6)
              | (StillLooping, h6) => (StillLooping, h6)
              end
          end
      end
  end.

(** From [Getting ssh key info] to the end. *)
Definition createDroplet (rounds : nat) (configFile imageID : JsValue) (h : Host)
  : Ended unit * Host :=
  let h1 := log (Line "Getting ssh key info") h in
  let keysRequest := get "https://api.digitalocean.com/v2/account/keys" in
  let h2 := sent keysRequest h1 in
  match fetchJson (length (requests h1)) keysRequest with
  | FetchRejected e | JsonRejected e => (Threw (ThrownValue e), h2)
  | Json keysBody =>
  match read keysBody "ssh_keys" with
  | Failed e => (Threw e, h2)
  | Fulfilled ssh_keys =>
  match element0 ssh_keys with
  | Failed e => (Threw e, h2)
  | Fulfilled firstKey =>
  match read firstKey "id" with
  | Failed e => (Threw e, h2)
  | Fulfilled sshKeyID =>
      let h3 := log (Line "Creating droplet...") h2 in
      let request :=
        post "https://api.digitalocean.com/v2/droplets"
          (JObject
             [("name", JString randomName);
              ("region", JString (flagOr (region options) "nyc1"));
              ("size", JString (flagOr (size options) "s-2vcpu-4gb"));
              ("image", imageID);
              ("ssh_keys", JArray [sshKeyID]);
              ("user_data", JString (stringify configFile));
              ("tags", JArray [JString "balenaOS"])]) in
      let h4 := sent request h3 in
      match fetchJson (length (requests h3)) request with
      | FetchRejected e | JsonRejected e => (Threw (ThrownValue e), h4)
      | Json responseBody =>
      match read responseBody "links" with
      | Failed e => (Threw e, h4)
      | Fulfilled links =>
      match read links "actions" with
      | Failed e => (Threw e, h4)
      | Fulfilled actions =>
      match filterCreate actions with
      | Failed e => (Threw e, h4)
      | Fulfilled kept =>
          let createURL := nth 0 kept JUndefined in
          if js_truthy createURL then
            match awaitDroplet rounds createURL h4 with
            | (Done _, h5) =>
                (Done tt, log (Line "Done! the device should show soon!") h5)
            | other => other
            end
          else
            (Done tt,
             logError "Failed to get a create check url! You will probably want to cleanup the image and droplet in your dashboard."
                      h4)
      end end end end
  end end end end.

(** [run()], with each of its loops allowed [rounds] rounds. *)
Definition run (rounds : nat) (configFile : string) (h : Host)
  : Ended unit * Host :=
  let h1 := log (Line "Reading config file") h in
  if negb (existsSync configFile) then
    (Done tt, log (Line "Config file does not exist, exiting...") h1)
  else
    match readConfig configFile with
    | Failed e => (Threw e, h1)
    | Fulfilled config =>
        let h2 := log (Line "Checking if image already exists...") h1 in
        let wanted := flagOr (imageName options) "balenaOS-qemux86-64" in
        match listImages rounds 1 wanted false (JNumber 0) h2 with
        | (Threw e, h3) => (Threw e, h3)
        | (StillLooping, h3) => (StillLooping, h3)
        | (Done (true, imageID), h3) => createDroplet rounds config imageID h3
        | (Done (false, _), h3) =>
            match uploadImage rounds wanted h3 with
            | (Threw e, h4) => (Threw e, h4)
            | (StillLooping, h4) => (StillLooping, h4)
            | (Done imageID, h4) => createDroplet rounds config imageID h4
            end
        end
    end.

End Run.

End InstanceInitCmd.

(** What page [p] of the image list shows, when all of it can be read:
    the count that is printed and the id found under the wanted name.
    Page [first] is asked for by request number [n0], the next page by
    the next request. *)
Definition pageListing (fetchJson : nat -> InstanceInitCmd.Request -> InstanceInitCmd.Fetched)
           (options : InstanceInitCmd.FlagsDef) (wanted : string)
           (n0 first p : nat) : option (JsValue * option JsValue) :=
  match fetchJson (n0 + (p - first))
                  (InstanceInitCmd.get options (InstanceInitCmd.pageUrl p)) with
  | InstanceInitCmd.Json responseBody =>
      match read responseBody "images" with
      | Fulfilled images =>
          match lengthOf images, iterate images with
          | Fulfilled count, Fulfilled items =>
              match InstanceInitCmd.firstNamed wanted items with
              | Fulfilled found => Some (count, found)
              | Failed _ => None
              end
          | _, _ => None
          end
      | Failed _ => None
      end
  | _ => None
  end.

(** The URLs of the POST requests among [l], in the order of [l]. *)
Definition postsOf (l : list InstanceInitCmd.Request) : list string :=
  map InstanceInitCmd.url
      (filter (fun r => String.eqb (InstanceInitCmd.method r) "POST") l).

Definition dropletsUrl : string := "https://api.digitalocean.com/v2/droplets".

(** The requests a part of the run adds between [h] and [h']: all with
    the bearer header, and with the given POSTs among them, latest
    first. *)
Definition adds (options : InstanceInitCmd.FlagsDef)
           (h h' : InstanceInitCmd.Host) (posts : list string) : Prop :=
  exists new,
    (InstanceInitCmd.requests h' = new ++ InstanceInitCmd.requests h)%list
    /\ Forall (fun r => InstanceInitCmd.authorization r
                        = InstanceInitCmd.bearer options) new
    /\ postsOf new = posts.

(** The [status] shown by poll number [i], when it can be read: the
    answer to request number [n0 + i], a GET of [u], holds it under
    [field]. *)
Definition polledStatus (fetchJson : nat -> InstanceInitCmd.Request -> InstanceInitCmd.Fetched)
           (options : InstanceInitCmd.FlagsDef) (field u : string)
           (n0 i : nat) : option JsValue :=
  match fetchJson (n0 + i) (InstanceInitCmd.get options u) with
  | InstanceInitCmd.Json responseBody =>
      match read responseBody field with
      | Fulfilled holder =>
          match read holder "status" with
          | Fulfilled status => Some status
          | Failed _ => None
          end
      | Failed _ => None
      end
  | _ => None
  end.

(** What one round of the wait for the image adds to the journal,
    latest first: the request, before it the timer of 2000 ms, before
    that the line printed. *)
Definition pollRound (options : InstanceInitCmd.FlagsDef) (imageID : JsValue)
  : list InstanceInitCmd.Event :=
  [InstanceInitCmd.Asked
     (InstanceInitCmd.get options
        (InstanceInitCmd.imagesUrl ++ "/" ++ js_toString imageID));
   InstanceInitCmd.Waited 2000;
   InstanceInitCmd.Said (InstanceInitCmd.Line "Waiting for image to be ready...")].

(** ** A small cloud to run [device move] in *)

Module MoveDemo.

Definition fleet : DeviceMoveCmd.Application unit :=
  {| DeviceMoveCmd.id := 1833771;
     DeviceMoveCmd.slug := "myorg/mynewfleet";
     DeviceMoveCmd.app_name := "MyNewFleet";
     DeviceMoveCmd.is_for__device_type :=
       [{| DeviceMoveCmd.deviceTypeSlug := "raspberrypi4-64";
           DeviceMoveCmd.is_of__cpu_architecture := tt |}] |}.

Definition device : DeviceMoveCmd.Device unit :=
  {| DeviceMoveCmd.belongs_to__application := Some [fleet];
     DeviceMoveCmd.is_of__device_type :=
       [{| DeviceMoveCmd.deviceTypeSlug := "raspberrypi4-64";
           DeviceMoveCmd.is_of__cpu_architecture := tt |}];
     DeviceMoveCmd.application_name := None |}.

Definition notFound : JsValue :=
  JObject [("message", JString "Device not found: dc39e52")].

(** The first move is rejected, the later ones go through. *)
Definition firstMoveFails (n : nat) (uuid : DeviceMoveCmd.DeviceId) (appId : Z)
  : option JsValue :=
  match n with
  | O => Some notFound
  | S _ => None
  end.

(** The second device cannot be fetched. *)
Definition secondIsMissing (k : nat) (uuid : DeviceMoveCmd.DeviceId)
  : Answer (DeviceMoveCmd.Device unit) :=
  match k with
  | 1 => Rejects 5 notFound
  | _ => Ok device
  end.

Definition run (device_get : nat -> DeviceMoveCmd.DeviceId
                             -> Answer (DeviceMoveCmd.Device unit)) :=
  DeviceMoveCmd.run unit unit DeviceMoveCmd.IdText (fun _ _ => tt)
    (fun _ _ => true) "[Warn] use --fleet" true device_get firstMoveFails
    (fun _ => Ok fleet) (fun _ => Ok []) (Ok []) (fun _ => Rejects 0 JNull).

Definition onlyFleet (name : string) : DeviceMoveCmd.FlagsDef :=
  {| DeviceMoveCmd.application := None; DeviceMoveCmd.app := Some EmptyString;
     DeviceMoveCmd.fleet := Some name |}.

End MoveDemo.

(** ** A fleet to run [fleet] on *)

Module FleetDemo.

(** A fleet with a device type and no running release. *)
Definition idle : JsValue :=
  JObject [("id", JNumber 1833771); ("app_name", JString "MyFleet");
           ("slug", JString "myorg/myfleet");
           ("is_for__device_type",
            JArray [JObject [("slug", JString "raspberrypi4-64")]]);
           ("should_be_running__release", JArray [])].

Definition run (application : JsValue) :=
  FleetCmd.run (fun _ => Ok application)
    (fun id => "https://dashboard.balena-cloud.com/apps/" ++ js_toString id)
    (fun _ => None) (fun _ _ => None).

End FleetDemo.

(** ** A cloud to run [instance init] against *)

Module InitDemo.

Definition options : InstanceInitCmd.FlagsDef :=
  {| InstanceInitCmd.apiKey := Some "dop_v1_0123";
     InstanceInitCmd.region := None;
     InstanceInitCmd.size := None;
     InstanceInitCmd.imageName := None |}.

Definition image (name : string) (id : Z) : JsValue :=
  JObject [("id", JNumber id); ("name", JString name)].

Definition page (images : list JsValue) : InstanceInitCmd.Fetched :=
  InstanceInitCmd.Json (JObject [("images", JArray images)]).

(** A full first page with the wanted name on it, then a short page
    with the name again. *)
Definition twoPages (n : nat) (r : InstanceInitCmd.Request)
  : InstanceInitCmd.Fetched :=
  match n with
  | O => page (image "balenaOS-qemux86-64" 7 :: repeat (image "ubuntu" 1) 199)
  | S _ => page [image "debian" 8; image "balenaOS-qemux86-64" 9]
  end.

(** An image that is ready at the second poll. *)
Definition readyAtSecondPoll (n : nat) (r : InstanceInitCmd.Request)
  : InstanceInitCmd.Fetched :=
  match n with
  | O => InstanceInitCmd.Json
           (JObject [("image", JObject [("status", JString "pending")])])
  | S _ => InstanceInitCmd.Json
             (JObject [("image", JObject [("status", JString "available")])])
  end.

(** An account without the image: the list, the upload, two polls, the
    ssh keys, the droplet and its action. *)
Definition noImage (n : nat) (r : InstanceInitCmd.Request)
  : InstanceInitCmd.Fetched :=
  match n with
  | 0 => page [image "debian" 8]
  | 1 => InstanceInitCmd.Json
           (JObject [("image", JObject [("id", JNumber 5);
                                        ("status", JString "NEW")])])
  | 2 => InstanceInitCmd.Json
           (JObject [("image", JObject [("status", JString "pending")])])
  | 3 => InstanceInitCmd.Json
           (JObject [("image", JObject [("status", JString "available")])])
  | 4 => InstanceInitCmd.Json
           (JObject [("ssh_keys", JArray [JObject [("id", JNumber 3)]])])
  | 5 => InstanceInitCmd.Json
           (JObject
              [("links",
                JObject
                  [("actions",
                    JArray
                      [JObject
                         [("rel", JString "create");
                          ("href",
                           JString "https://api.digitalocean.com/v2/actions/36804636")]])])])
  | _ => InstanceInitCmd.Json
           (JObject [("action", JObject [("status", JString "completed")])])
  end.

Definition run (rounds : nat) :=
  InstanceInitCmd.run (fun _ => true) (fun _ => Fulfilled (JObject []))
    noImage "quiet-sun" (fun _ => "{}") options rounds "config.json"
    InstanceInitCmd.emptyHost.

End InitDemo.

(** * Properties *)

Open Scope list_scope.

(** ** First runs *)

Example localDevice_address :
  deviceAddress localDevice = "http://192.168.1.7:48484/"%string.
Proof. reflexivity. Qed.

Example logs_url :
  getUrlForAction localDevice logsAction
  = "http://192.168.1.7:48484/v2/local/logs"%string.
Proof. reflexivity. Qed.

Example omit_of_text :
  omit (JString "ok") "status"
  = JObject [("0"%string, JString "o"); ("1"%string, JString "k")].
Proof. reflexivity. Qed.

Example ping_answers_with_the_text :
  fst (ping doubling localDevice (freshWorld (always (reply 200 (JString "OK")))))
  = Resolved (JString "OK").
Proof. reflexivity. Qed.

Example getVersion_after_one_503 :
  let w := freshWorld (scripted [reply 503 (JString "starting")]
               (reply 200 (JObject [("status"%string, JString "success");
                                    ("version"%string, JString "16.1.0")]))) in
  fst (getVersion doubling localDevice w) = Resolved (JString "16.1.0")
  /\ sleeps (snd (getVersion doubling localDevice w)) = [2000%Z]
  /\ debugLog (snd (getVersion doubling localDevice w)) = [].
Proof. vm_compute. repeat split; reflexivity. Qed.

Example getDeviceInformation_on_undefined :
  fst (getDeviceInformation doubling localDevice
         (freshWorld (always (reply 500 (JString "oops")))))
  = Rejected (TypeError JUndefined "info").
Proof. reflexivity. Qed.

(** ** The retry controller on an arbitrary operation *)

Section RetryFacts.

Variable nextDelayMs : Z -> Z.
Context {T : Type}.

Lemma final_not_retried (s : Settled T) : final s -> retried s -> False.
Proof.
  intros Hf [e [-> He]]. simpl in Hf. congruence.
Qed.

Lemma transient_retried (s : Settled T) : transient s = true -> retried s.
Proof.
  destruct s as [v | e]; simpl; [discriminate |].
  destruct e; try discriminate; intros _; eexists; split; reflexivity.
Qed.

(** Every run is a row of retried failures followed by one last attempt,
    which is the result; the row is at most [retriesLeft] long, and
    shorter only when the last attempt was final. *)
Lemma retry_loop_shape (func : Promise T) (lbl : string) :
  forall (k att : nat) (d : Z) (w : World),
  exists pre lastOutcome,
    attempts (fst (retry_loop nextDelayMs func lbl k att d w)) = pre ++ [lastOutcome]
    /\ settled (fst (retry_loop nextDelayMs func lbl k att d w)) = lastOutcome
    /\ Forall retried pre
    /\ length pre <= k
    /\ (length pre < k -> final lastOutcome).
Proof.
  induction k as [| k IH]; intros att d w; simpl.
  - destruct (func w) as [[v | e] w1]; [| destruct (isBadRequest e) eqn:Hb];
      simpl; eexists [], _; simpl; repeat split; auto; lia.
  - destruct (func w) as [[v | e] w1].
    + exists [], (Resolved v). simpl. repeat split; auto; lia.
    + destruct (isBadRequest e) eqn:Hb.
      * exists [], (Rejected e). simpl. repeat split; auto; lia.
      * specialize (IH (S att) (nextDelayMs d)
                       (record_sleep d (record_retry (lbl, att, e) w1))).
        destruct (retry_loop nextDelayMs func lbl k (S att) (nextDelayMs d)
                    (record_sleep d (record_retry (lbl, att, e) w1)))
          as [run w4].
        destruct IH as (pre & lastOutcome & Ha & Hs & Hpre & Hlen & Hfin).
        simpl in *.
        exists (Rejected e :: pre), lastOutcome. simpl.
        repeat split.
        -- now rewrite Ha.
        -- exact Hs.
        -- constructor; [exists e; split; [reflexivity | exact Hb] | exact Hpre].
        -- lia.
        -- intros H. apply Hfin. lia.
Qed.

(** An attempt that ended the loop is the last one made. *)
Lemma final_attempt_is_last (options : RetryOptions T) (w : World)
      (i : nat) (s : Settled T) :
  nth_error (attempts (fst (retry_run nextDelayMs options w))) i = Some s ->
  final s ->
  S i = length (attempts (fst (retry_run nextDelayMs options w)))
  /\ settled (fst (retry_run nextDelayMs options w)) = s.
Proof.
  unfold retry_run. intros Hn Hf.
  destruct (retry_loop_shape (func options) (label options)
              (maxAttempts options - 1) 1 (initialDelayMs options) w)
    as (pre & lastOutcome & Ha & Hs & Hpre & _ & _).
  rewrite Ha in *. rewrite Hs.
  destruct (Nat.lt_ge_cases i (length pre)) as [Hlt | Hge].
  - exfalso. rewrite nth_error_app1 in Hn by exact Hlt.
    apply nth_error_In in Hn.
    rewrite Forall_forall in Hpre.
    exact (final_not_retried s Hf (Hpre s Hn)).
  - rewrite nth_error_app2 in Hn by exact Hge.
    destruct (i - length pre) as [| j] eqn:Hj; simpl in Hn.
    + inversion Hn; subst. rewrite length_app. simpl. split; [lia | reflexivity].
    + destruct j; discriminate.
Qed.

(** When no attempt was final, every attempt allowed was made, and the
    result is the last failure seen. *)
Lemma exhausted_run (options : RetryOptions T) (w : World) :
  Forall retried (attempts (fst (retry_run nextDelayMs options w))) ->
  length (attempts (fst (retry_run nextDelayMs options w)))
    = S (maxAttempts options - 1)
  /\ exists e,
      last (attempts (fst (retry_run nextDelayMs options w))) (Rejected e)
        = Rejected e
      /\ nth_error (attempts (fst (retry_run nextDelayMs options w)))
                   (maxAttempts options - 1) = Some (Rejected e)
      /\ settled (fst (retry_run nextDelayMs options w)) = Rejected e.
Proof.
  unfold retry_run. intros Hall.
  destruct (retry_loop_shape (func options) (label options)
              (maxAttempts options - 1) 1 (initialDelayMs options) w)
    as (pre & lastOutcome & Ha & Hs & Hpre & Hlen & Hfin).
  rewrite Ha in *. rewrite Hs. clear Ha Hs.
  apply Forall_app in Hall. destruct Hall as [_ Hlast].
  assert (Hr : retried lastOutcome) by (inversion Hlast; assumption).
  assert (Hk : length pre = maxAttempts options - 1).
  { destruct (Nat.eq_dec (length pre) (maxAttempts options - 1)) as [|Hne]; auto.
    exfalso. apply (final_not_retried lastOutcome); auto. apply Hfin. lia. }
  destruct Hr as [e [-> He]].
  split.
  - rewrite length_app. simpl. lia.
  - exists e. repeat split.
    + now rewrite last_last.
    + rewrite nth_error_app2 by lia. rewrite Hk, Nat.sub_diag. reflexivity.
Qed.

End RetryFacts.

(** ** The dispatcher, and the controller around it *)

Lemma doRequest_dispatch (opts : RequestOptions) (w : World) :
  doRequest opts w
  = (dispatch (agent w (length (exchanges w)) opts),
     record_exchange (opts, agent w (length (exchanges w)) opts) w).
Proof.
  unfold doRequest, bind, request_send, settle, dispatch, resolve, throw.
  destruct (agent w (length (exchanges w)) opts) as [r | m]; [| reflexivity].
  destruct (if typeof_string (responseBody r)
            then Resolved (responseBody r)
            else member (responseBody r) "message") as [bodyError | e];
    [| reflexivity].
  destruct (statusCode r) as [| p | p]; try reflexivity.
  repeat (destruct p as [p | p |]; try reflexivity).
Qed.

Section DispatchFacts.

Variable nextDelayMs : Z -> Z.

(** A run of the controller around [doRequest]: attempt number [i]
    sees the agent's answer to request number [i]; every attempt is one
    exchange, and every attempt but the last is followed by one wait. *)
Lemma retry_loop_doRequest (opts : RequestOptions) (lbl : string) :
  forall (k att : nat) (d : Z) (w : World),
  exists j,
    j <= k
    /\ attempts (fst (retry_loop nextDelayMs (doRequest opts) lbl k att d w))
       = map (fun x => dispatch (snd x))
             (answersFrom w opts (length (exchanges w)) (S j))
    /\ exchanges (snd (retry_loop nextDelayMs (doRequest opts) lbl k att d w))
       = rev (answersFrom w opts (length (exchanges w)) (S j)) ++ exchanges w
    /\ sleeps (snd (retry_loop nextDelayMs (doRequest opts) lbl k att d w))
       = waits nextDelayMs j d (sleeps w)
    /\ agent (snd (retry_loop nextDelayMs (doRequest opts) lbl k att d w))
       = agent w
    /\ streamCalls (snd (retry_loop nextDelayMs (doRequest opts) lbl k att d w))
       = streamCalls w
    /\ debugLog (snd (retry_loop nextDelayMs (doRequest opts) lbl k att d w))
       = debugLog w
    /\ length (retryLog (snd (retry_loop nextDelayMs (doRequest opts) lbl k att d w)))
       = j + length (retryLog w).
Proof.
  induction k as [| k IH]; intros att d w; simpl; rewrite doRequest_dispatch.
  - exists 0.
    destruct (dispatch (agent w (length (exchanges w)) opts)) as [v | e] eqn:Hd;
      [| destruct (isBadRequest e)]; simpl; rewrite ?Hd; repeat split; auto.
  - destruct (dispatch (agent w (length (exchanges w)) opts)) as [v | e] eqn:Hd;
      [| destruct (isBadRequest e) eqn:Hb].
    + exists 0. simpl. rewrite ?Hd. repeat split; auto. lia.
    + exists 0. simpl. rewrite ?Hd. repeat split; auto. lia.
    + set (w3 := record_sleep d
                   (record_retry (lbl, att, e)
                      (record_exchange
                         (opts, agent w (length (exchanges w)) opts) w))).
      destruct (IH (S att) (nextDelayMs d) w3)
        as (j & Hj & Ha & Hx & Hsl & Hag & Hst & Hdb & Hrl).
      destruct (retry_loop nextDelayMs (doRequest opts) lbl k (S att)
                  (nextDelayMs d) w3) as [run w4].
      simpl in *.
      exists (S j). unfold answersFrom in *. simpl in *.
      repeat split; auto.
      * lia.
      * rewrite Ha. reflexivity.
      * rewrite Hx. rewrite <- !app_assoc. reflexivity.
      * lia.
Qed.

(** The exchange made last is the one that decided the result. *)
Lemma retry_loop_last_exchange (opts : RequestOptions) (lbl : string)
      (k att : nat) (d : Z) (w : World) :
  exists a rest,
    exchanges (snd (retry_loop nextDelayMs (doRequest opts) lbl k att d w))
      = (opts, a) :: rest
    /\ settled (fst (retry_loop nextDelayMs (doRequest opts) lbl k att d w))
      = dispatch a.
Proof.
  destruct (retry_loop_doRequest opts lbl k att d w)
    as (j & _ & Ha & Hx & _).
  destruct (retry_loop_shape nextDelayMs (doRequest opts) lbl k att d w)
    as (pre & lastOutcome & Ha' & Hs & _).
  rewrite Hx, Hs. rewrite Ha in Ha'. clear Ha Hx Hs.
  unfold answersFrom in *. rewrite seq_S in *.
  rewrite !map_app in Ha'. simpl in Ha'.
  apply app_inj_tail in Ha'. destruct Ha' as [_ <-].
  rewrite map_app, rev_app_distr. simpl.
  eexists _, _. split; reflexivity.
Qed.

(** [sendRequest] is the controller around the dispatcher, after an
    optional debug line. *)
Lemma sendRequest_unfold (opts : RequestOptions) (lg : option Logger) (w : World) :
  exists w0,
    sendRequest nextDelayMs opts lg w
    = (settled (fst (retry_loop nextDelayMs (doRequest opts)
                       (label (requestRetryOptions opts)) 5 1 2000%Z w0)),
       snd (retry_loop nextDelayMs (doRequest opts)
              (label (requestRetryOptions opts)) 5 1 2000%Z w0))
    /\ agent w0 = agent w /\ exchanges w0 = exchanges w
    /\ sleeps w0 = sleeps w /\ streamCalls w0 = streamCalls w
    /\ retryLog w0 = retryLog w.
Proof.
  unfold sendRequest, bind, retry, retry_run, logDebug, resolve.
  destruct lg as [l |]; destruct (url opts) as [u |];
    [ exists (record_debug ("Sending request to " ++ u)%string w)
    | exists w | exists w | exists w ];
    cbn [func label maxAttempts initialDelayMs requestRetryOptions Nat.sub];
    match goal with
    | |- context [retry_loop ?a ?b ?c ?d ?e ?f ?g] =>
        destruct (retry_loop a b c d e f g)
    end; repeat split; reflexivity.
Qed.

(** Whatever [sendRequest] settles with was decided by its last
    exchange, which carried the request it was given. *)
Lemma sendRequest_last_exchange (opts : RequestOptions) (lg : option Logger)
      (w : World) :
  exists a rest,
    exchanges (snd (sendRequest nextDelayMs opts lg w)) = (opts, a) :: rest
    /\ fst (sendRequest nextDelayMs opts lg w) = dispatch a.
Proof.
  destruct (sendRequest_unfold opts lg w) as (w0 & -> & _).
  cbn [fst snd]. apply retry_loop_last_exchange.
Qed.

End DispatchFacts.

(** ** The dispatcher's classification *)

(** The message is there to be read for every body but [null] and
    [undefined]. *)
Lemma bodyError_defined (b : JsValue) :
  is_nullish b = false ->
  exists m,
    (if typeof_string b then Resolved b else member b "message") = Resolved m
    /\ (typeof_string b = true -> m = b)
    /\ (typeof_string b = false -> member b "message" = Resolved m).
Proof.
  destruct b; simpl; intros H; try discriminate;
    eexists; repeat split; intros; try reflexivity; discriminate.
Qed.

Lemma dispatch_200 (r : Response) :
  statusCode r = 200%Z -> is_nullish (responseBody r) = false ->
  dispatch (Replied r) = Resolved (responseBody r).
Proof.
  intros Hc Hb. simpl.
  destruct (bodyError_defined _ Hb) as (m & -> & _). now rewrite Hc.
Qed.

(** A status code without a [case] of its own resolves. *)
Lemma dispatch_default (r : Response) :
  statusCode r <> 200%Z -> statusCode r <> 400%Z -> statusCode r <> 503%Z ->
  is_nullish (responseBody r) = false ->
  dispatch (Replied r) = Resolved JUndefined.
Proof.
  intros H2 H4 H5 Hb. simpl.
  destruct (bodyError_defined _ Hb) as (m & -> & _).
  destruct (statusCode r) as [| p | p]; try reflexivity.
  repeat (destruct p as [p | p |]; try reflexivity); contradiction.
Qed.

(** Claim C1, at the input where the code departs from it.  The claim:
    the dispatcher succeeds if and only if the status code is 200, and a
    code outside 200, 400 and 503 yields a failure.  The code, on a
    404 reply with the text body [Not Found]: the dispatcher resolves
    with [undefined], and so does [sendRequest], after a single request
    and no wait. *)
Theorem dispatcher_404_resolves_with_undefined :
  let opts := requestOf localDevice OpGetTargetState in
  let w := freshWorld (always (reply 404 (JString "Not Found"))) in
  fst (doRequest opts w) = Resolved JUndefined
  /\ fst (sendRequest doubling opts (Some mkLogger) w) = Resolved JUndefined
  /\ length (exchanges (snd (sendRequest doubling opts (Some mkLogger) w))) = 1
  /\ sleeps (snd (sendRequest doubling opts (Some mkLogger) w)) = [].
Proof.
  vm_compute. repeat split; reflexivity.
Qed.

(** Claim C2, as amended.  For every reply whose body is neither [null]
    nor [undefined] there is one message, the body itself when it is a
    string and its [message] field otherwise, such that status 400 is
    thrown as a BadRequest error and status 503 as a ServiceUnavailable
    error, each carrying that message. *)
Theorem dispatcher_classifies_400_and_503
        (opts : RequestOptions) (w : World) (r : Response) :
  agent w (length (exchanges w)) opts = Replied r ->
  is_nullish (responseBody r) = false ->
  exists m,
    (typeof_string (responseBody r) = true -> m = responseBody r)
    /\ (typeof_string (responseBody r) = false ->
        member (responseBody r) "message" = Resolved m)
    /\ (statusCode r = 400%Z ->
        fst (doRequest opts w) = Rejected (BadRequestDeviceAPIError m))
    /\ (statusCode r = 503%Z ->
        fst (doRequest opts w) = Rejected (ServiceUnavailableAPIError m)).
Proof.
  intros Ha Hb. rewrite doRequest_dispatch, Ha. cbn [fst].
  destruct (bodyError_defined _ Hb) as (m & Hm & Hs & Ho).
  exists m. repeat split; auto; intros Hc; simpl; rewrite Hm, Hc; reflexivity.
Qed.

Lemma dispatcher_classifies_400_and_503_witness :
  fst (doRequest (requestOf localDevice (OpSetTargetState (JObject [])))
         (freshWorld (always (reply 400
            (JObject [("message", JString "Invalid target state")])))))
  = Rejected (BadRequestDeviceAPIError (JString "Invalid target state")).
Proof.
  destruct (dispatcher_classifies_400_and_503
              (requestOf localDevice (OpSetTargetState (JObject [])))
              (freshWorld (always (reply 400
                 (JObject [("message", JString "Invalid target state")]))))
              {| statusCode := 400;
                 responseBody := JObject [("message", JString "Invalid target state")] |}
              eq_refl eq_refl)
    as (m & _ & Hm & H400 & _).
  specialize (Hm eq_refl). simpl in Hm.
  injection Hm as <-.
  exact (H400 eq_refl).
Defined.

(** Claim C2 as stated fails on a 400 reply whose body is [null]: reading
    [message] off it throws a TypeError before the status is looked at,
    so no BadRequest error comes out. *)
Lemma dispatcher_400_null_body_counterexample :
  let opts := requestOf localDevice (OpSetTargetState (JObject [])) in
  let w := freshWorld (always (reply 400 JNull)) in
  agent w (length (exchanges w)) opts
    = Replied {| statusCode := 400; responseBody := JNull |}
  /\ fst (doRequest opts w) = Rejected (TypeError JNull "message")
  /\ ~ (exists m, fst (doRequest opts w) = Rejected (BadRequestDeviceAPIError m)).
Proof.
  cbv zeta. repeat split.
  intros [m Hm]. vm_compute in Hm. discriminate Hm.
Qed.

(** ** What the controller does with failures *)

Lemma retry_settled (nextDelayMs : Z -> Z) {T : Type}
      (options : RetryOptions T) (w : World) :
  fst (retry nextDelayMs options w)
  = settled (fst (retry_run nextDelayMs options w))
  /\ snd (retry nextDelayMs options w) = snd (retry_run nextDelayMs options w).
Proof.
  unfold retry. destruct (retry_run nextDelayMs options w). split; reflexivity.
Qed.

(** Claim C3.  Whatever the operation, the delay policy and the attempt
    bound, an attempt that fails with a BadRequest error is the last
    attempt made, and its error is what the caller gets. *)
Theorem badRequest_is_never_retried
        (nextDelayMs : Z -> Z) (T : Type) (options : RetryOptions T)
        (w : World) (i : nat) (e : Thrown) :
  nth_error (attempts (fst (retry_run nextDelayMs options w))) i
    = Some (Rejected e) ->
  isBadRequest e = true ->
  S i = length (attempts (fst (retry_run nextDelayMs options w)))
  /\ fst (retry nextDelayMs options w) = Rejected e.
Proof.
  intros Hn Hb.
  destruct (final_attempt_is_last nextDelayMs options w i (Rejected e) Hn Hb)
    as [Hlen Hs].
  split; [exact Hlen |].
  destruct (retry_settled nextDelayMs options w) as [-> _]. exact Hs.
Qed.

Lemma badRequest_is_never_retried_witness :
  let options :=
    requestRetryOptions (requestOf localDevice (OpSetTargetState (JObject []))) in
  let w := freshWorld (scripted [reply 503 (JString "busy")]
                                (reply 400 (JString "bad state"))) in
  2 = length (attempts (fst (retry_run doubling options w)))
  /\ fst (retry doubling options w)
     = Rejected (BadRequestDeviceAPIError (JString "bad state")).
Proof.
  exact (badRequest_is_never_retried doubling JsValue
           (requestRetryOptions
              (requestOf localDevice (OpSetTargetState (JObject []))))
           (freshWorld (scripted [reply 503 (JString "busy")]
                                 (reply 400 (JString "bad state"))))
           1 (BadRequestDeviceAPIError (JString "bad state"))
           eq_refl eq_refl).
Defined.

(** Claim C4.  With an attempt bound of at least one: when every attempt
    fails with a ServiceUnavailable error or a failed round trip, exactly
    [maxAttempts] attempts are made and the caller gets the error of the
    last of them as it is; an attempt that succeeds is the last attempt
    made and its value is the result.  The bound [sendRequest] passes
    is 6. *)
Theorem transient_failures_exhaust_maxAttempts
        (nextDelayMs : Z -> Z) (T : Type) (options : RetryOptions T)
        (w : World) :
  1 <= maxAttempts options ->
  (Forall (fun s => transient s = true)
          (attempts (fst (retry_run nextDelayMs options w))) ->
   length (attempts (fst (retry_run nextDelayMs options w)))
     = maxAttempts options
   /\ exists e,
       nth_error (attempts (fst (retry_run nextDelayMs options w)))
                 (maxAttempts options - 1) = Some (Rejected e)
       /\ fst (retry nextDelayMs options w) = Rejected e)
  /\ (forall i v,
       nth_error (attempts (fst (retry_run nextDelayMs options w))) i
         = Some (Resolved v) ->
       S i = length (attempts (fst (retry_run nextDelayMs options w)))
       /\ fst (retry nextDelayMs options w) = Resolved v)
  /\ (forall opts, maxAttempts (requestRetryOptions opts) = 6).
Proof.
  intros Hmax.
  destruct (retry_settled nextDelayMs options w) as [Hfst _].
  split; [intros Hall | split; [intros i v Hn; split | reflexivity]].
  - assert (Hret : Forall retried
                     (attempts (fst (retry_run nextDelayMs options w)))).
    { eapply Forall_impl; [| exact Hall]. intros s. apply transient_retried. }
    destruct (exhausted_run nextDelayMs options w Hret)
      as (Hlen & e & _ & Hn & Hs).
    split; [lia |].
    exists e. split; [exact Hn |]. rewrite Hfst. exact Hs.
  - apply (final_attempt_is_last nextDelayMs options w i (Resolved v)); simpl; auto.
  - rewrite Hfst.
    apply (final_attempt_is_last nextDelayMs options w i (Resolved v)); simpl; auto.
Qed.

Lemma transient_failures_exhaust_maxAttempts_witness :
  let options := requestRetryOptions (requestOf localDevice OpGetStatus) in
  let w := freshWorld (always (reply 503 (JString "busy"))) in
  length (attempts (fst (retry_run doubling options w))) = 6
  /\ exists e,
      nth_error (attempts (fst (retry_run doubling options w))) 5
        = Some (Rejected e)
      /\ fst (retry doubling options w) = Rejected e.
Proof.
  refine (proj1 (transient_failures_exhaust_maxAttempts doubling JsValue
                   (requestRetryOptions (requestOf localDevice OpGetStatus))
                   (freshWorld (always (reply 503 (JString "busy"))))
                   _) _).
  - repeat constructor.
  - vm_compute. repeat constructor.
Defined.

(** ** Reading results back to the reply that decided them *)

Lemma status_switch {A : Type} (c : Z) (on200 on400 on503 otherwise : A) :
  match c with
  | 200%Z => on200
  | 400%Z => on400
  | 503%Z => on503
  | _ => otherwise
  end
  = if (c =? 200)%Z then on200
    else if (c =? 400)%Z then on400
    else if (c =? 503)%Z then on503
    else otherwise.
Proof.
  destruct c as [| p | p]; try reflexivity.
  repeat (destruct p as [p | p |]; try reflexivity).
Qed.

(** A value the dispatcher resolved with is the body of a 200 reply, or
    [undefined] after a reply whose status has no [case]. *)
Lemma dispatch_resolved_inv (a : SendOutcome) (b : JsValue) :
  dispatch a = Resolved b ->
  exists r,
    a = Replied r
    /\ ((statusCode r = 200%Z /\ b = responseBody r)
        \/ (b = JUndefined /\ statusCode r <> 200%Z)).
Proof.
  destruct a as [r | m]; simpl; [| discriminate].
  destruct (if typeof_string (responseBody r)
            then Resolved (responseBody r)
            else member (responseBody r) "message") as [bodyError | e];
    [| discriminate].
  rewrite status_switch.
  destruct (Z.eqb_spec (statusCode r) 200) as [H2 | H2].
  - intros [= <-]. exists r. split; [reflexivity | left; split; auto].
  - destruct (statusCode r =? 400)%Z; [discriminate |].
    destruct (statusCode r =? 503)%Z; [discriminate |].
    intros [= <-]. exists r. split; [reflexivity | right; split; auto].
Qed.

Lemma member_resolved_not_nullish (b : JsValue) (k : string) (v : JsValue) :
  member b k = Resolved v -> is_nullish b = false.
Proof.
  destruct b; simpl; intros H; try reflexivity; discriminate.
Qed.

Lemma member_string_is_object (b : JsValue) (k s : string) :
  member b k = Resolved (JString s) ->
  exists fields, b = JObject fields /\ lookup_field k fields = JString s.
Proof.
  destruct b; simpl; intros H; try discriminate.
  injection H as H. eexists; split; [reflexivity | exact H].
Qed.

(** ** The public operations *)

Lemma bind_world_of_first {A B : Type} (p : Promise A) (k : A -> Promise B)
      (w : World) :
  (forall a w', snd (k a w') = w') ->
  snd (bind p k w) = snd (p w).
Proof.
  intros Hk. unfold bind. destruct (p w) as [[a | e] w']; [apply Hk | reflexivity].
Qed.

Section FacadeFacts.

Variable nextDelayMs : Z -> Z.
Variable this : DeviceAPI.

Lemma sendRequest_200 (opts : RequestOptions) (lg : option Logger) (w : World)
      (o : RequestOptions) (r : Response) (rest : list (RequestOptions * SendOutcome)) :
  exchanges (snd (sendRequest nextDelayMs opts lg w)) = (o, Replied r) :: rest ->
  statusCode r = 200%Z ->
  is_nullish (responseBody r) = false ->
  fst (sendRequest nextDelayMs opts lg w) = Resolved (responseBody r).
Proof.
  intros Hx Hc Hb.
  destruct (sendRequest_last_exchange nextDelayMs opts lg w)
    as (a & rest' & Hx' & ->).
  rewrite Hx' in Hx. injection Hx as _ -> _.
  now apply dispatch_200.
Qed.

(** What an operation leaves of the world is what its [sendRequest]
    left: the handlers chained after it only compute. *)
Lemma invoke_world (op : Operation) (w : World) :
  snd (invoke nextDelayMs this op w)
  = snd (sendRequest nextDelayMs (requestOf this op) (loggerOf this op) w).
Proof.
  destruct op; simpl; try reflexivity;
    unfold getTargetState, getDeviceInformation, getContainerId, getVersion,
      getStatus;
    apply bind_world_of_first; intros a w'; unfold bind, settle, throw, resolve;
    try reflexivity;
    destruct (member a "status") as [st | e]; try reflexivity;
    destruct (strict_neq_string st "success"); reflexivity.
Qed.

(** The three operations that look at [status], on a 200 reply whose
    [status] is not the string [success]. *)
Lemma status_check_throws (op : Operation) (endpoint : string) (w : World)
      (r : Response) (st : JsValue) :
  lastReply200 (snd (invoke nextDelayMs this op w)) r st ->
  strict_neq_string st "success" = true ->
  (forall w0,
      invoke nextDelayMs this op w0
      = bind (sendRequest nextDelayMs (requestOf this op) (loggerOf this op))
          (fun body =>
             bind (settle (member body "status"))
               (fun status =>
                  if strict_neq_string status "success"
                  then throw (DeviceAPIError (JString endpoint))
                  else match op with
                       | OpGetContainerId _ => settle (member body "containerId")
                       | OpGetVersion => settle (member body "version")
                       | _ => resolve (omit body "status")
                       end)) w0) ->
  fst (invoke nextDelayMs this op w) = Rejected (DeviceAPIError (JString endpoint)).
Proof.
  intros ((o & rest & Hx) & Hc & Hst) Hneq Hop.
  rewrite invoke_world in Hx.
  pose proof (sendRequest_200 _ _ _ _ _ _ Hx Hc
                (member_resolved_not_nullish _ _ _ Hst)) as Hs.
  rewrite Hop. unfold bind at 1.
  destruct (sendRequest nextDelayMs (requestOf this op) (loggerOf this op) w)
    as [s w'].
  simpl in Hs. subst s. unfold bind, settle, throw.
  rewrite Hst, Hneq. reflexivity.
Qed.

End FacadeFacts.

(** [status] can be read off a body exactly when the body is neither
    [null] nor [undefined]. *)
Lemma status_readable_iff (b : JsValue) :
  (exists st, member b "status" = Resolved st) <-> is_nullish b = false.
Proof.
  split.
  - intros [st Hst]. destruct b; simpl in *; try reflexivity; discriminate.
  - intros Hb. destruct b; simpl in *; try discriminate; eexists; reflexivity.
Qed.

(** Claim C5, for a body that is neither [null] nor [undefined].
    Whenever the reply that decided the call carried HTTP 200 and a
    body that [status] can be read off (every value but [null] and
    [undefined], see [status_readable_iff]), and what is read is not the
    string [success], each of [getContainerId], [getVersion] and
    [getStatus] fails with a DeviceAPIError naming its endpoint. *)
Theorem non_success_status_is_a_failure
        (nextDelayMs : Z -> Z) (this : DeviceAPI) (serviceName : string)
        (w : World) (r : Response) (st : JsValue) :
  strict_neq_string st "success" = true ->
  (lastReply200 (snd (getContainerId nextDelayMs this serviceName w)) r st ->
   fst (getContainerId nextDelayMs this serviceName w)
   = Rejected (DeviceAPIError
       (JString "Non-successful response from supervisor containerId endpoint")))
  /\ (lastReply200 (snd (getVersion nextDelayMs this w)) r st ->
      fst (getVersion nextDelayMs this w)
      = Rejected (DeviceAPIError
          (JString "Non-successful response from supervisor version endpoint")))
  /\ (lastReply200 (snd (getStatus nextDelayMs this w)) r st ->
      fst (getStatus nextDelayMs this w)
      = Rejected (DeviceAPIError
          (JString "Non-successful response from supervisor status endpoint"))).
Proof.
  intros Hneq. repeat split; intros Hlast.
  - apply (status_check_throws nextDelayMs this (OpGetContainerId serviceName)
             _ w r st Hlast Hneq).
    reflexivity.
  - apply (status_check_throws nextDelayMs this OpGetVersion _ w r st Hlast Hneq).
    reflexivity.
  - apply (status_check_throws nextDelayMs this OpGetStatus _ w r st Hlast Hneq).
    reflexivity.
Qed.

Lemma non_success_status_is_a_failure_witness :
  fst (getContainerId doubling localDevice "main"
         (freshWorld (always (reply 200 (JObject [("status", JString "failed")])))))
  = Rejected (DeviceAPIError
      (JString "Non-successful response from supervisor containerId endpoint")).
Proof.
  refine (proj1 (non_success_status_is_a_failure doubling localDevice "main"
                   (freshWorld (always (reply 200
                      (JObject [("status", JString "failed")]))))
                   {| statusCode := 200;
                      responseBody := JObject [("status", JString "failed")] |}
                   (JString "failed") eq_refl) _).
  split; [| split; reflexivity].
  eexists _, _. vm_compute. reflexivity.
Defined.

(** Claim C5 as stated fails on a 200 reply whose body is [null]: the
    body's [status] is not the string [success], yet none of the three
    operations fails with a DeviceAPIError.  The dispatcher reads
    [message] off the body before it looks at the status code, the
    TypeError of that read is what every attempt ends with, and after
    the sixth request it is what the caller gets. *)
Lemma status_check_null_body_counterexample :
  let w := freshWorld (always (reply 200 JNull)) in
  let r := {| statusCode := 200; responseBody := JNull |} in
  (forall n opts, agent w n opts = Replied r)
  /\ member (responseBody r) "status" <> Resolved (JString "success")
  /\ fst (getContainerId doubling localDevice "main" w)
     = Rejected (TypeError JNull "message")
  /\ fst (getVersion doubling localDevice w)
     = Rejected (TypeError JNull "message")
  /\ fst (getStatus doubling localDevice w)
     = Rejected (TypeError JNull "message")
  /\ exchanges (snd (getVersion doubling localDevice w))
     = repeat (requestOf localDevice OpGetVersion, Replied r) 6
  /\ ~ (exists m, fst (getContainerId doubling localDevice "main" w)
                  = Rejected (DeviceAPIError m))
  /\ ~ (exists m, fst (getVersion doubling localDevice w)
                  = Rejected (DeviceAPIError m))
  /\ ~ (exists m, fst (getStatus doubling localDevice w)
                  = Rejected (DeviceAPIError m)).
Proof.
  cbv zeta.
  split; [reflexivity |].
  split; [discriminate |].
  split; [vm_compute; reflexivity |].
  split; [vm_compute; reflexivity |].
  split; [vm_compute; reflexivity |].
  split; [vm_compute; reflexivity |].
  repeat split; intros [m Hm]; vm_compute in Hm; discriminate Hm.
Qed.

(** Claim C6, at the input where the code departs from it.  The claim:
    on success [setTargetState] discards the body and resolves with
    nothing.  The code sends the POST with the state as its body, and on
    a 200 reply with the text body [OK] resolves with that very text;
    after two 503 replies and then the 200 it does so on the third
    request, having waited twice. *)
Theorem setTargetState_resolves_with_the_body :
  let state := JObject [("apps", JObject [])] in
  let post := {| method := "POST";
                 url := Some "http://192.168.1.7:48484/v2/local/target-state";
                 json := true; body := Some state; qs := [] |} in
  let w := freshWorld (always (reply 200 (JString "OK"))) in
  let w' := freshWorld (scripted [reply 503 (JString "busy");
                                  reply 503 (JString "busy")]
                                 (reply 200 (JString "OK"))) in
  fst (setTargetState doubling localDevice state w) = Resolved (JString "OK")
  /\ exchanges (snd (setTargetState doubling localDevice state w))
     = [(post, reply 200 (JString "OK"))]
  /\ fst (setTargetState doubling localDevice state w') = Resolved (JString "OK")
  /\ length (exchanges (snd (setTargetState doubling localDevice state w'))) = 3
  /\ sleeps (snd (setTargetState doubling localDevice state w')) = [4000; 2000]%Z.
Proof.
  vm_compute. repeat split; reflexivity.
Qed.

(** Claim C7.  A value [getTargetState] resolves with is the [state]
    field of the body of the 200 reply that decided the call; against an
    agent answering 200 with [{state: {foo: 1}}] it is [{foo: 1}]. *)
Theorem getTargetState_returns_the_state_field
        (nextDelayMs : Z -> Z) (this : DeviceAPI) :
  (forall (w : World) (v : JsValue),
      fst (getTargetState nextDelayMs this w) = Resolved v ->
      exists o r rest,
        exchanges (snd (getTargetState nextDelayMs this w))
          = (o, Replied r) :: rest
        /\ statusCode r = 200%Z
        /\ member (responseBody r) "state" = Resolved v)
  /\ fst (getTargetState nextDelayMs this
            (freshWorld (always (reply 200
               (JObject [("state", JObject [("foo", JNumber 1)])])))))
     = Resolved (JObject [("foo", JNumber 1)]).
Proof.
  split; [| reflexivity].
  intros w v Hv.
  pose proof (invoke_world nextDelayMs this OpGetTargetState w) as Hw.
  cbn [invoke requestOf loggerOf] in Hw. rewrite Hw. clear Hw.
  unfold getTargetState, bind in Hv.
  destruct (sendRequest_last_exchange nextDelayMs
              {| method := "GET";
                 url := Some (getUrlForAction this getTargetStateAction);
                 json := true; body := None; qs := [] |}
              (Some (logger this)) w) as (a & rest & Hx & Hf).
  destruct (sendRequest nextDelayMs _ (Some (logger this)) w) as [[b | e] w'];
    [| discriminate].
  cbn [fst snd] in *. unfold settle in Hv. cbn [fst] in Hv.
  symmetry in Hf.
  destruct (dispatch_resolved_inv a b Hf) as (r & -> & [[Hc ->] | [-> _]]).
  - eexists _, r, rest. repeat split; [exact Hx | exact Hc | exact Hv].
  - discriminate Hv.
Qed.

Lemma getTargetState_returns_the_state_field_witness :
  exists o r rest,
    exchanges (snd (getTargetState doubling localDevice
                      (freshWorld (scripted [SendFailed "ECONNREFUSED"]
                         (reply 200 (JObject [("state", JString "idle")]))))))
      = (o, Replied r) :: rest
    /\ statusCode r = 200%Z
    /\ member (responseBody r) "state" = Resolved (JString "idle").
Proof.
  exact (proj1 (getTargetState_returns_the_state_field doubling localDevice)
           (freshWorld (scripted [SendFailed "ECONNREFUSED"]
              (reply 200 (JObject [("state", JString "idle")]))))
           (JString "idle") eq_refl).
Defined.

(** ** [_.omit] on an object *)

Lemma lookup_field_omit_other (k key : string) (fields : list (string * JsValue)) :
  k <> key ->
  lookup_field k (filter (fun kv => negb (String.eqb (fst kv) key)) fields)
  = lookup_field k fields.
Proof.
  intros Hk. induction fields as [| [k' v] rest IH]; simpl; [reflexivity |].
  destruct (String.eqb_spec k' key) as [-> | Hne]; simpl.
  - rewrite IH. destruct (String.eqb_spec k key); [contradiction | reflexivity].
  - rewrite IH. reflexivity.
Qed.

Lemma lookup_field_omit_same (key : string) (fields : list (string * JsValue)) :
  lookup_field key (filter (fun kv => negb (String.eqb (fst kv) key)) fields)
  = JUndefined.
Proof.
  induction fields as [| [k' v] rest IH]; simpl; [reflexivity |].
  destruct (String.eqb_spec k' key) as [-> | Hne]; simpl; [exact IH |].
  destruct (String.eqb_spec key k') as [-> | _]; [contradiction | exact IH].
Qed.

Lemma In_omit (key k : string) (v : JsValue) (fields : list (string * JsValue)) :
  In (k, v) (filter (fun kv => negb (String.eqb (fst kv) key)) fields)
  <-> In (k, v) fields /\ k <> key.
Proof.
  rewrite filter_In. simpl.
  destruct (String.eqb_spec k key) as [-> | Hne]; simpl; split;
    intros [Hin H]; split; auto; try discriminate; contradiction.
Qed.

(** Claim C8.  When the reply that decided the call carried HTTP 200 and
    a body whose [status] is the string [success], that body is an
    object and [getStatus] resolves with a copy of it that has the same
    fields in the same order except [status]: a field is in the copy
    exactly when it is in the body under another name, every other name
    reads the same in both, and [status] reads [undefined]. *)
Theorem getStatus_drops_only_the_status_field
        (nextDelayMs : Z -> Z) (this : DeviceAPI) (w : World) (r : Response) :
  lastReply200 (snd (getStatus nextDelayMs this w)) r (JString "success") ->
  exists fields snapshot,
    responseBody r = JObject fields
    /\ fst (getStatus nextDelayMs this w) = Resolved (JObject snapshot)
    /\ snapshot = filter (fun kv => negb (String.eqb (fst kv) "status")) fields
    /\ (forall k v, In (k, v) snapshot <-> In (k, v) fields /\ k <> "status")
    /\ (forall k, k <> "status" ->
                  member (JObject snapshot) k = member (responseBody r) k)
    /\ member (JObject snapshot) "status" = Resolved JUndefined.
Proof.
  intros ((o & rest & Hx) & Hc & Hst).
  destruct (member_string_is_object _ _ _ Hst) as (fields & Hb & Hl).
  pose proof (invoke_world nextDelayMs this OpGetStatus w) as Hw.
  cbn [invoke requestOf loggerOf] in Hw. rewrite Hw in Hx. clear Hw.
  pose proof (sendRequest_200 nextDelayMs _ _ _ _ _ _ Hx Hc
                (member_resolved_not_nullish _ _ _ Hst)) as Hs.
  exists fields, (filter (fun kv => negb (String.eqb (fst kv) "status")) fields).
  split; [exact Hb |]. split; [| split; [reflexivity | split; [| split]]].
  - unfold getStatus, bind at 1.
    destruct (sendRequest nextDelayMs _ None w) as [s w'].
    cbn [fst] in Hs. subst s. unfold bind, settle, resolve.
    rewrite Hst. cbn [strict_neq_string String.eqb Ascii.eqb Bool.eqb negb fst].
    rewrite Hb. reflexivity.
  - intros k v. apply In_omit.
  - intros k Hk. rewrite Hb. simpl. now rewrite lookup_field_omit_other.
  - simpl. now rewrite lookup_field_omit_same.
Qed.

Lemma getStatus_drops_only_the_status_field_witness :
  exists fields snapshot,
    JObject [("status", JString "success"); ("appState", JString "applied");
             ("overallDownloadProgress", JNull);
             ("containers", JArray []); ("images", JArray [])]
      = JObject fields
    /\ fst (getStatus doubling localDevice
              (freshWorld (always (reply 200
                 (JObject [("status", JString "success");
                           ("appState", JString "applied");
                           ("overallDownloadProgress", JNull);
                           ("containers", JArray []); ("images", JArray [])])))))
       = Resolved (JObject snapshot)
    /\ snapshot = filter (fun kv => negb (String.eqb (fst kv) "status")) fields
    /\ (forall k v, In (k, v) snapshot <-> In (k, v) fields /\ k <> "status")
    /\ (forall k, k <> "status" ->
          member (JObject snapshot) k
          = member (JObject [("status", JString "success");
                             ("appState", JString "applied");
                             ("overallDownloadProgress", JNull);
                             ("containers", JArray []); ("images", JArray [])]) k)
    /\ member (JObject snapshot) "status" = Resolved JUndefined.
Proof.
  refine (getStatus_drops_only_the_status_field doubling localDevice
            (freshWorld (always (reply 200
               (JObject [("status", JString "success");
                         ("appState", JString "applied");
                         ("overallDownloadProgress", JNull);
                         ("containers", JArray []); ("images", JArray [])]))))
            {| statusCode := 200;
               responseBody :=
                 JObject [("status", JString "success");
                          ("appState", JString "applied");
                          ("overallDownloadProgress", JNull);
                          ("containers", JArray []); ("images", JArray [])] |}
            _).
  split; [| split; reflexivity].
  eexists _, _. vm_compute. reflexivity.
Defined.

(** Claim C9.  [getLogStream] makes one call of [sdk.request.stream] on
    the logs endpoint and hands back what that call settles with, a
    failure included; it sends no request through the dispatcher, waits
    for nothing and leaves no retry notice. *)
Theorem getLogStream_is_one_unretried_stream_request
        (this : DeviceAPI) (w : World) :
  fst (getLogStream this w)
  = streamAgent w (length (streamCalls w))
                (deviceAddress this ++ "v2/local/logs")%string
  /\ streamCalls (snd (getLogStream this w))
     = (deviceAddress this ++ "v2/local/logs")%string :: streamCalls w
  /\ exchanges (snd (getLogStream this w)) = exchanges w
  /\ sleeps (snd (getLogStream this w)) = sleeps w
  /\ retryLog (snd (getLogStream this w)) = retryLog w.
Proof.
  repeat split; reflexivity.
Qed.

(** ** The retry settings of [sendRequest] *)

Section RetrySettings.

Variable nextDelayMs : Z -> Z.

(** Against an agent none of whose answers ends the loop, [sendRequest]
    uses up its attempts: six requests, and five waits that start at
    2000 ms. *)
Lemma sendRequest_exhausted (opts : RequestOptions) (lg : option Logger)
      (w : World) :
  (forall n, retried (dispatch (agent w n opts))) ->
  length (exchanges (snd (sendRequest nextDelayMs opts lg w)))
    = 6 + length (exchanges w)
  /\ sleeps (snd (sendRequest nextDelayMs opts lg w))
     = waits nextDelayMs 5 2000 (sleeps w).
Proof.
  intros Hall.
  destruct (sendRequest_unfold nextDelayMs opts lg w)
    as (w0 & -> & Hag & Hex & Hsl & _).
  cbn [snd].
  destruct (retry_loop_doRequest nextDelayMs opts
              (label (requestRetryOptions opts)) 5 1 2000 w0)
    as (j & Hj & Ha & Hx & Hs & _).
  destruct (retry_loop_shape nextDelayMs (doRequest opts)
              (label (requestRetryOptions opts)) 5 1 2000 w0)
    as (pre & lastOutcome & Ha' & _ & _ & Hlen & Hfin).
  assert (Hlast : retried lastOutcome).
  { assert (Hin : In lastOutcome
                     (map (fun x => dispatch (snd x))
                        (answersFrom w0 opts (length (exchanges w0)) (S j)))).
    { rewrite <- Ha, Ha'. apply in_or_app. right. left. reflexivity. }
    apply in_map_iff in Hin. destruct Hin as ([o a] & <- & Hin).
    unfold answersFrom in Hin. apply in_map_iff in Hin.
    destruct Hin as (n & [= <- <-] & _). cbn [snd]. rewrite Hag. apply Hall. }
  assert (Hj5 : j = 5).
  { assert (Hl : length (pre ++ [lastOutcome]) = S j).
    { rewrite <- Ha', Ha. unfold answersFrom.
      now rewrite !length_map, length_seq. }
    rewrite length_app in Hl. simpl in Hl.
    destruct (Nat.eq_dec (length pre) 5) as [H5 | H5]; [lia |].
    exfalso. apply (final_not_retried lastOutcome); [apply Hfin; lia | exact Hlast]. }
  subst j. rewrite Hx, Hs, Hex, Hsl. split; [| reflexivity].
  rewrite length_app, length_rev. unfold answersFrom.
  now rewrite length_map, length_seq.
Qed.

End RetrySettings.

(** Claim C10.  Every non-streaming operation, whatever its arguments,
    goes through [sendRequest] with the request it builds, and
    [sendRequest] runs the retry controller with an initial delay of
    2000 ms and a bound of 6 attempts, whatever the request.  So against
    an agent that only ever answers with transient failures each of them
    sends exactly six requests and waits five times, first for 2000 ms
    and then as the delay policy grows it. *)
Theorem retry_settings_are_fixed
        (nextDelayMs : Z -> Z) (this : DeviceAPI) (op : Operation) (w : World) :
  snd (invoke nextDelayMs this op w)
    = snd (sendRequest nextDelayMs (requestOf this op) (loggerOf this op) w)
  /\ (forall opts lg,
        sendRequest nextDelayMs opts lg
        = bind match lg, url opts with
               | Some _, Some u => logDebug ("Sending request to " ++ u)%string
               | _, _ => resolve tt
               end
               (fun _ =>
                  retry nextDelayMs
                    {| func := doRequest opts;
                       initialDelayMs := 2000;
                       maxAttempts := 6;
                       label := label (requestRetryOptions opts) |}))
  /\ ((forall n o, transient (dispatch (agent w n o)) = true) ->
      length (exchanges (snd (invoke nextDelayMs this op w)))
        = 6 + length (exchanges w)
      /\ sleeps (snd (invoke nextDelayMs this op w))
         = (nextDelayMs (nextDelayMs (nextDelayMs (nextDelayMs 2000)))
            :: nextDelayMs (nextDelayMs (nextDelayMs 2000))
            :: nextDelayMs (nextDelayMs 2000)
            :: nextDelayMs 2000
            :: 2000
            :: sleeps w)%Z).
Proof.
  split; [apply invoke_world | split; [reflexivity |]].
  intros Hall. rewrite invoke_world.
  apply (sendRequest_exhausted nextDelayMs).
  intros n. apply transient_retried, Hall.
Qed.

Lemma retry_settings_are_fixed_witness :
  length (exchanges (snd (invoke doubling localDevice (OpGetContainerId "main")
                            (freshWorld (always (SendFailed "ECONNREFUSED"))))))
    = 6
  /\ sleeps (snd (invoke doubling localDevice (OpGetContainerId "main")
                    (freshWorld (always (SendFailed "ECONNREFUSED")))))
     = [32000; 16000; 8000; 4000; 2000]%Z.
Proof.
  refine (proj2 (proj2 (retry_settings_are_fixed doubling localDevice
                          (OpGetContainerId "main")
                          (freshWorld (always (SendFailed "ECONNREFUSED")))))
            _).
  intros n o. reflexivity.
Defined.

(** ** Further runs *)

(** A first attempt that is final is the whole run. *)
Lemma retry_loop_stops_at_once (nextDelayMs : Z -> Z) {T : Type}
      (func : Promise T) (lbl : string) (k att : nat) (d : Z) (w : World) :
  final (fst (func w)) ->
  retry_loop nextDelayMs func lbl k att d w
  = ({| settled := fst (func w); attempts := [fst (func w)] |}, snd (func w)).
Proof.
  destruct k; simpl; destruct (func w) as [[v | e] w1]; simpl;
    intros Hf; try rewrite Hf; reflexivity.
Qed.

(** A 400 reply to the first request of [sendRequest] is the only
    request made: the BadRequest error comes back at once, with no
    wait. *)
Lemma sendRequest_400_is_sent_once
      (nextDelayMs : Z -> Z) (opts : RequestOptions) (lg : option Logger)
      (w : World) (r : Response) :
  agent w (length (exchanges w)) opts = Replied r ->
  statusCode r = 400%Z ->
  is_nullish (responseBody r) = false ->
  (exists m, fst (sendRequest nextDelayMs opts lg w)
             = Rejected (BadRequestDeviceAPIError m))
  /\ exchanges (snd (sendRequest nextDelayMs opts lg w))
     = (opts, Replied r) :: exchanges w
  /\ sleeps (snd (sendRequest nextDelayMs opts lg w)) = sleeps w.
Proof.
  intros Ha Hc Hb.
  destruct (sendRequest_unfold nextDelayMs opts lg w)
    as (w0 & -> & Hag & Hex & Hsl & _).
  cbn [fst snd].
  assert (Hd : exists m, dispatch (agent w0 (length (exchanges w0)) opts)
                         = Rejected (BadRequestDeviceAPIError m)).
  { rewrite Hag, Hex, Ha. simpl.
    destruct (bodyError_defined _ Hb) as (m & -> & _).
    rewrite Hc. now exists m. }
  destruct Hd as [m Hd].
  rewrite retry_loop_stops_at_once;
    rewrite doRequest_dispatch, Hd; cbn [fst snd settled]; [| reflexivity].
  split; [now exists m |].
  simpl. rewrite Hag, Hex, Hsl, Ha. split; reflexivity.
Qed.

(** * Further properties of the client *)

(** ** Every operation, read off the reply that decided it *)

Section Decided.

Variable nextDelayMs : Z -> Z.
Variable this : DeviceAPI.

Lemma invoke_handler (op : Operation) (w : World) :
  invoke nextDelayMs this op w
  = (match fst (sendRequest nextDelayMs (requestOf this op) (loggerOf this op) w) with
     | Resolved b => handler op b
     | Rejected e => Rejected e
     end,
     snd (sendRequest nextDelayMs (requestOf this op) (loggerOf this op) w)).
Proof.
  destruct op; cbn [invoke requestOf loggerOf handler];
    unfold setTargetState, getTargetState, getDeviceInformation, getContainerId,
      ping, getVersion, getStatus, bind, settle, throw, resolve;
    match goal with
    | |- context [sendRequest ?a ?b ?c ?d] =>
        destruct (sendRequest a b c d) as [[b0 | e0] w0]
    end; cbn [fst snd]; try reflexivity;
    try (destruct (member b0 "status") as [st | e1]; try reflexivity;
         destruct (strict_neq_string st "success"); reflexivity);
    match goal with
    | |- context [member ?b ?k] => destruct (member b k); reflexivity
    end.
Qed.

(** The last exchange of an operation carries the request the operation
    builds, and its answer decides the result. *)
Lemma invoke_decided (op : Operation) (w : World) :
  exists a rest,
    exchanges (snd (invoke nextDelayMs this op w)) = (requestOf this op, a) :: rest
    /\ fst (invoke nextDelayMs this op w)
       = match dispatch a with
         | Resolved b => handler op b
         | Rejected e => Rejected e
         end.
Proof.
  rewrite invoke_handler. cbn [fst snd].
  destruct (sendRequest_last_exchange nextDelayMs (requestOf this op)
              (loggerOf this op) w) as (a & rest & Hx & Hf).
  exists a, rest. rewrite Hf. split; [exact Hx | reflexivity].
Qed.

End Decided.

Lemma bodyError_resolved_not_nullish (b m : JsValue) :
  (if typeof_string b then Resolved b else member b "message") = Resolved m ->
  is_nullish b = false.
Proof.
  destruct b; simpl; intros H; try reflexivity; discriminate.
Qed.

Lemma bodyError_nullish (b : JsValue) :
  is_nullish b = true ->
  (if typeof_string b then Resolved b else member b "message")
  = Rejected (TypeError b "message").
Proof.
  destruct b; simpl; intros H; try discriminate; reflexivity.
Qed.

(** The dispatcher never raises the generic error. *)
Lemma dispatch_never_generic (a : SendOutcome) (m : JsValue) :
  dispatch a <> Rejected (DeviceAPIError m).
Proof.
  destruct a as [r | s]; simpl; [| discriminate].
  destruct (responseBody r); simpl; try discriminate;
    rewrite status_switch;
    repeat match goal with
           | |- context [if ?c then _ else _] => destruct c
           end; discriminate.
Qed.

(** When the dispatcher resolves, and with what. *)
Lemma dispatch_resolved_iff (a : SendOutcome) (v : JsValue) :
  dispatch a = Resolved v
  <-> exists r,
      a = Replied r
      /\ is_nullish (responseBody r) = false
      /\ ((statusCode r = 200%Z /\ v = responseBody r)
          \/ (statusCode r <> 200%Z /\ statusCode r <> 400%Z
              /\ statusCode r <> 503%Z /\ v = JUndefined)).
Proof.
  split.
  - destruct a as [r | s]; simpl; [| discriminate].
    destruct (if typeof_string (responseBody r)
              then Resolved (responseBody r)
              else member (responseBody r) "message") as [m | e] eqn:Hm;
      [| discriminate].
    apply bodyError_resolved_not_nullish in Hm.
    rewrite status_switch.
    destruct (Z.eqb_spec (statusCode r) 200) as [H2 | H2].
    + intros [= <-]. exists r. split; [reflexivity | split; [exact Hm |]].
      left. split; [exact H2 | reflexivity].
    + destruct (Z.eqb_spec (statusCode r) 400) as [H4 | H4]; [discriminate |].
      destruct (Z.eqb_spec (statusCode r) 503) as [H5 | H5]; [discriminate |].
      intros [= <-]. exists r. split; [reflexivity | split; [exact Hm |]].
      right. repeat split; assumption.
  - intros (r & -> & Hb & [[Hc ->] | (H2 & H4 & H5 & ->)]).
    + now apply dispatch_200.
    + now apply dispatch_default.
Qed.

(** ** The dispatcher on every reply *)

(** [doRequest] resolves exactly on a reply whose body can be read and
    whose status is neither 400 nor 503: with the body on 200, with
    [undefined] on any other status. *)
Theorem doRequest_resolves_iff (opts : RequestOptions) (w : World) (v : JsValue) :
  fst (doRequest opts w) = Resolved v
  <-> exists r,
      agent w (length (exchanges w)) opts = Replied r
      /\ is_nullish (responseBody r) = false
      /\ ((statusCode r = 200%Z /\ v = responseBody r)
          \/ (statusCode r <> 200%Z /\ statusCode r <> 400%Z
              /\ statusCode r <> 503%Z /\ v = JUndefined)).
Proof.
  rewrite doRequest_dispatch. cbn [fst]. apply dispatch_resolved_iff.
Qed.

(** A reply whose body is [null] or [undefined] makes [doRequest] fail
    with the TypeError of reading [message] off it, whatever the status
    code, 200 included. *)
Theorem doRequest_unreadable_body_throws
        (opts : RequestOptions) (w : World) (r : Response) :
  agent w (length (exchanges w)) opts = Replied r ->
  is_nullish (responseBody r) = true ->
  fst (doRequest opts w) = Rejected (TypeError (responseBody r) "message").
Proof.
  intros Ha Hb. rewrite doRequest_dispatch, Ha. cbn [fst dispatch].
  now rewrite (bodyError_nullish _ Hb).
Qed.

Lemma doRequest_unreadable_body_throws_witness :
  fst (doRequest (requestOf localDevice OpPing)
         (freshWorld (always (reply 200 JNull))))
  = Rejected (TypeError JNull "message").
Proof.
  exact (doRequest_unreadable_body_throws (requestOf localDevice OpPing)
           (freshWorld (always (reply 200 JNull)))
           {| statusCode := 200; responseBody := JNull |} eq_refl eq_refl).
Defined.

(** ** Where a generic error can come from *)

Lemma member_rejected_is_TypeError (b : JsValue) (k : string) (e : Thrown) :
  member b k = Rejected e -> e = TypeError b k.
Proof.
  destruct b; simpl; intros H; try discriminate; now injection H as <-.
Qed.

Lemma member_undefined (k : string) :
  member JUndefined k = Rejected (TypeError JUndefined k).
Proof. reflexivity. Qed.

(** An operation fails with a DeviceAPIError only when it is one of the
    three that look at [status] and the reply that decided the call
    carried HTTP 200 and a [status] other than the string [success]: no
    status code, transport failure or unreadable body ever surfaces as
    that error. *)
Theorem generic_error_only_from_status_check
        (nextDelayMs : Z -> Z) (this : DeviceAPI) (op : Operation)
        (w : World) (m : JsValue) :
  fst (invoke nextDelayMs this op w) = Rejected (DeviceAPIError m) ->
  firstRead op = Some "status"%string
  /\ exists r st,
      lastReply200 (snd (invoke nextDelayMs this op w)) r st
      /\ strict_neq_string st "success" = true.
Proof.
  intros Hf.
  destruct (invoke_decided nextDelayMs this op w) as (a & rest & Hx & Hd).
  rewrite Hd in Hf. clear Hd.
  destruct (dispatch a) as [b | e] eqn:Ha.
  2:{ injection Hf as ->. now apply dispatch_never_generic in Ha. }
  assert (Hst : firstRead op = Some "status"%string
                /\ exists st, member b "status" = Resolved st
                              /\ strict_neq_string st "success" = true).
  { destruct op; cbn [handler firstRead] in *; try discriminate;
      try (apply member_rejected_is_TypeError in Hf; discriminate);
      (split; [reflexivity |]);
      destruct (member b "status") as [st | e] eqn:Hm;
      try (apply member_rejected_is_TypeError in Hm; congruence);
      exists st; (split; [reflexivity |]);
      destruct (strict_neq_string st "success"); try reflexivity;
      try discriminate;
      apply member_rejected_is_TypeError in Hf; discriminate. }
  destruct Hst as [Hop (st & Hm & Hneq)].
  split; [exact Hop |].
  apply dispatch_resolved_iff in Ha.
  destruct Ha as (r & -> & Hb & [[Hc ->] | (_ & _ & _ & ->)]);
    [| discriminate Hm].
  exists r, st. split; [| exact Hneq].
  split; [eexists _, _; exact Hx | split; assumption].
Qed.

Lemma generic_error_only_from_status_check_witness :
  firstRead OpGetVersion = Some "status"%string
  /\ exists r st,
      lastReply200
        (snd (invoke doubling localDevice OpGetVersion
                (freshWorld (always (reply 200
                   (JObject [("status"%string, JString "failed")])))))) r st
      /\ strict_neq_string st "success" = true.
Proof.
  exact (generic_error_only_from_status_check doubling localDevice OpGetVersion
           (freshWorld (always (reply 200
              (JObject [("status"%string, JString "failed")]))))
           (JString "Non-successful response from supervisor version endpoint")
           eq_refl).
Defined.

(** ** What the operations resolve with *)

(** A value [getDeviceInformation] resolves with is the [info] field of
    the body of the 200 reply that decided the call, [undefined] when the
    body has no such field; a readable 200 body always makes it
    resolve. *)
Theorem getDeviceInformation_returns_the_info_field
        (nextDelayMs : Z -> Z) (this : DeviceAPI) (w : World) (v : JsValue) :
  fst (getDeviceInformation nextDelayMs this w) = Resolved v
  <-> exists r rest,
      exchanges (snd (getDeviceInformation nextDelayMs this w))
        = (requestOf this OpGetDeviceInformation, Replied r) :: rest
      /\ statusCode r = 200%Z
      /\ member (responseBody r) "info" = Resolved v.
Proof.
  destruct (invoke_decided nextDelayMs this OpGetDeviceInformation w)
    as (a & rest & Hx & Hd).
  cbn [invoke handler] in Hx, Hd. rewrite Hd, Hx. clear Hd. split.
  - destruct (dispatch a) as [b | e] eqn:Ha; [| discriminate].
    intros Hm. apply dispatch_resolved_iff in Ha.
    destruct Ha as (r & -> & Hb & [[Hc ->] | (_ & _ & _ & ->)]);
      [| discriminate Hm].
    exists r, rest. repeat split; assumption.
  - intros (r & rest' & [= -> _] & Hc & Hm).
    rewrite (dispatch_200 r Hc (member_resolved_not_nullish _ _ _ Hm)).
    exact Hm.
Qed.

(** [ping] and [setTargetState] settle as the dispatcher did on the last
    reply: they resolve exactly when its body can be read and its status
    is neither 400 nor 503, with the body on 200 and with [undefined]
    otherwise. *)
Theorem ping_and_setTargetState_resolve_iff
        (nextDelayMs : Z -> Z) (this : DeviceAPI) (op : Operation)
        (w : World) (v : JsValue) :
  firstRead op = None ->
  (fst (invoke nextDelayMs this op w) = Resolved v
   <-> exists r rest,
       exchanges (snd (invoke nextDelayMs this op w))
         = (requestOf this op, Replied r) :: rest
       /\ is_nullish (responseBody r) = false
       /\ ((statusCode r = 200%Z /\ v = responseBody r)
           \/ (statusCode r <> 200%Z /\ statusCode r <> 400%Z
               /\ statusCode r <> 503%Z /\ v = JUndefined))).
Proof.
  intros Hop.
  destruct (invoke_decided nextDelayMs this op w) as (a & rest & Hx & Hd).
  assert (Hf : fst (invoke nextDelayMs this op w) = dispatch a).
  { rewrite Hd. destruct op; try discriminate Hop;
      cbn [handler]; destruct (dispatch a); reflexivity. }
  rewrite Hf, Hx, dispatch_resolved_iff. split.
  - intros (r & -> & H). exists r, rest. split; [reflexivity | exact H].
  - intros (r & rest' & [= -> _] & H). exists r. split; [reflexivity | exact H].
Qed.

Lemma ping_and_setTargetState_resolve_iff_witness :
  fst (invoke doubling localDevice OpPing
         (freshWorld (always (reply 204 (JString "")))))
  = Resolved JUndefined.
Proof.
  apply (proj2 (ping_and_setTargetState_resolve_iff doubling localDevice OpPing
                  (freshWorld (always (reply 204 (JString ""))))
                  JUndefined eq_refl)).
  eexists _, _. split; [vm_compute; reflexivity |].
  split; [reflexivity |]. right.
  repeat split; discriminate.
Defined.

(** When the reply that decided the call carried HTTP 200 and the
    [status] [success], [getContainerId] resolves with the body's
    [containerId] and [getVersion] with its [version], [undefined] when
    the field is missing. *)
Theorem containerId_and_version_are_read_off_the_body
        (nextDelayMs : Z -> Z) (this : DeviceAPI) (serviceName : string)
        (w : World) (r : Response) :
  (lastReply200 (snd (getContainerId nextDelayMs this serviceName w)) r
                (JString "success") ->
   exists fields,
     responseBody r = JObject fields
     /\ fst (getContainerId nextDelayMs this serviceName w)
        = Resolved (lookup_field "containerId" fields))
  /\ (lastReply200 (snd (getVersion nextDelayMs this w)) r (JString "success") ->
      exists fields,
        responseBody r = JObject fields
        /\ fst (getVersion nextDelayMs this w)
           = Resolved (lookup_field "version" fields)).
Proof.
  split; intros ((o & rest & Hx) & Hc & Hst);
    destruct (member_string_is_object _ _ _ Hst) as (fields & Hb & Hl);
    [ destruct (invoke_decided nextDelayMs this (OpGetContainerId serviceName) w)
        as (a & rest' & Hx' & Hd)
    | destruct (invoke_decided nextDelayMs this OpGetVersion w)
        as (a & rest' & Hx' & Hd) ];
    cbn [invoke] in Hx', Hd; rewrite Hx' in Hx; injection Hx as _ -> _;
    rewrite (dispatch_200 r Hc (member_resolved_not_nullish _ _ _ Hst)) in Hd;
    cbn [handler] in Hd; rewrite Hst in Hd;
    cbn [strict_neq_string String.eqb Ascii.eqb Bool.eqb negb] in Hd;
    exists fields; (split; [exact Hb |]); rewrite Hd, Hb; reflexivity.
Qed.

Lemma containerId_and_version_are_read_off_the_body_witness :
  exists fields,
    JObject [("status"%string, JString "success");
             ("containerId"%string, JString "f3a9c1")] = JObject fields
    /\ fst (getContainerId doubling localDevice "main"
              (freshWorld (always (reply 200
                 (JObject [("status"%string, JString "success");
                           ("containerId"%string, JString "f3a9c1")])))))
       = Resolved (lookup_field "containerId" fields).
Proof.
  refine (proj1 (containerId_and_version_are_read_off_the_body doubling
                   localDevice "main"
                   (freshWorld (always (reply 200
                      (JObject [("status"%string, JString "success");
                                ("containerId"%string, JString "f3a9c1")]))))
                   {| statusCode := 200;
                      responseBody :=
                        JObject [("status"%string, JString "success");
                                 ("containerId"%string, JString "f3a9c1")] |})
            _).
  split; [| split; reflexivity].
  eexists _, _. vm_compute. reflexivity.
Defined.

(** After a reply whose status has no [case] of its own (neither 200,
    400 nor 503) and whose body can be read, an operation that reads a
    field off the result fails with the TypeError of reading that field
    off [undefined]. *)
Theorem unhandled_status_breaks_field_readers
        (nextDelayMs : Z -> Z) (this : DeviceAPI) (op : Operation) (w : World)
        (o : RequestOptions) (r : Response)
        (rest : list (RequestOptions * SendOutcome)) (field : string) :
  firstRead op = Some field ->
  exchanges (snd (invoke nextDelayMs this op w)) = (o, Replied r) :: rest ->
  statusCode r <> 200%Z -> statusCode r <> 400%Z -> statusCode r <> 503%Z ->
  is_nullish (responseBody r) = false ->
  fst (invoke nextDelayMs this op w) = Rejected (TypeError JUndefined field).
Proof.
  intros Hop Hx H2 H4 H5 Hb.
  destruct (invoke_decided nextDelayMs this op w) as (a & rest' & Hx' & Hd).
  rewrite Hx' in Hx. injection Hx as _ -> _.
  rewrite Hd, (dispatch_default r H2 H4 H5 Hb).
  destruct op; cbn [firstRead handler] in *; try discriminate;
    injection Hop as <-; reflexivity.
Qed.

Lemma unhandled_status_breaks_field_readers_witness :
  fst (invoke doubling localDevice OpGetStatus
         (freshWorld (always (reply 500 (JString "Internal Server Error")))))
  = Rejected (TypeError JUndefined "status").
Proof.
  refine (unhandled_status_breaks_field_readers doubling localDevice OpGetStatus
            (freshWorld (always (reply 500 (JString "Internal Server Error"))))
            _ {| statusCode := 500;
                 responseBody := JString "Internal Server Error" |}
            _ "status" eq_refl _ _ _ _ eq_refl).
  - vm_compute. reflexivity.
  - discriminate.
  - discriminate.
  - discriminate.
Defined.

(** ** What a call leaves behind *)

Lemma length_waits (nextDelayMs : Z -> Z) (n : nat) :
  forall (ms : Z) (earlier : list Z),
    length (waits nextDelayMs n ms earlier) = n + length earlier.
Proof.
  induction n as [| n IH]; intros ms earlier; simpl; [reflexivity |].
  rewrite IH. simpl. lia.
Qed.

(** The trace of one [sendRequest]: between one and six requests, all of
    them the request given, on top of what was there; a wait and a retry
    notice between any two; the debug line when there is a logger and a
    URL. *)
Lemma sendRequest_trace (nextDelayMs : Z -> Z) (opts : RequestOptions)
      (lg : option Logger) (w : World) :
  exists j,
    j <= 5
    /\ exchanges (snd (sendRequest nextDelayMs opts lg w))
       = rev (answersFrom w opts (length (exchanges w)) (S j)) ++ exchanges w
    /\ sleeps (snd (sendRequest nextDelayMs opts lg w))
       = waits nextDelayMs j 2000 (sleeps w)
    /\ length (retryLog (snd (sendRequest nextDelayMs opts lg w)))
       = j + length (retryLog w)
    /\ streamCalls (snd (sendRequest nextDelayMs opts lg w)) = streamCalls w
    /\ agent (snd (sendRequest nextDelayMs opts lg w)) = agent w
    /\ debugLog (snd (sendRequest nextDelayMs opts lg w))
       = match lg, url opts with
         | Some _, Some u => ("Sending request to " ++ u)%string :: debugLog w
         | _, _ => debugLog w
         end.
Proof.
  assert (Hgen : forall w0,
             agent w0 = agent w -> exchanges w0 = exchanges w ->
             sleeps w0 = sleeps w -> retryLog w0 = retryLog w ->
             streamCalls w0 = streamCalls w ->
             exists j,
               j <= 5
               /\ exchanges (snd (retry nextDelayMs (requestRetryOptions opts) w0))
                  = rev (answersFrom w opts (length (exchanges w)) (S j))
                    ++ exchanges w
               /\ sleeps (snd (retry nextDelayMs (requestRetryOptions opts) w0))
                  = waits nextDelayMs j 2000 (sleeps w)
               /\ length (retryLog (snd (retry nextDelayMs (requestRetryOptions opts) w0)))
                  = j + length (retryLog w)
               /\ streamCalls (snd (retry nextDelayMs (requestRetryOptions opts) w0))
                  = streamCalls w
               /\ agent (snd (retry nextDelayMs (requestRetryOptions opts) w0))
                  = agent w
               /\ debugLog (snd (retry nextDelayMs (requestRetryOptions opts) w0))
                  = debugLog w0).
  { intros w0 Hag Hex Hsl Hrl Hst.
    destruct (retry_settled nextDelayMs (requestRetryOptions opts) w0) as [_ ->].
    unfold retry_run.
    cbn [func label maxAttempts initialDelayMs requestRetryOptions Nat.sub].
    destruct (retry_loop_doRequest nextDelayMs opts
                (label (requestRetryOptions opts)) 5 1 2000 w0)
      as (j & Hj & _ & Hx & Hs & Ha & Hsc & Hd & Hr).
    exists j. unfold answersFrom in *.
    rewrite Hag, Hex in Hx. rewrite Hsl in Hs. rewrite Hrl in Hr.
    rewrite Hst in Hsc. rewrite Hag in Ha.
    repeat split; assumption. }
  unfold sendRequest, bind, logDebug, resolve.
  destruct lg as [l |]; destruct (url opts) as [u |];
    [ destruct (Hgen (record_debug ("Sending request to " ++ u)%string w))
        as (j & H); try reflexivity
    | destruct (Hgen w) as (j & H); try reflexivity
    | destruct (Hgen w) as (j & H); try reflexivity
    | destruct (Hgen w) as (j & H); try reflexivity ];
    exists j;
    match goal with
    | |- context [retry ?a ?b ?c] => destruct (retry a b c) as [s w']
    end; exact H.
Qed.

(** Every non-streaming operation sends between one and six requests,
    each of them the request the operation builds, on top of the
    exchanges already made; it waits once less often than it sends, and
    it opens no stream. *)
Theorem operations_send_one_to_six_requests
        (nextDelayMs : Z -> Z) (this : DeviceAPI) (op : Operation) (w : World) :
  exists sent,
    exchanges (snd (invoke nextDelayMs this op w)) = sent ++ exchanges w
    /\ 1 <= length sent <= 6
    /\ Forall (fun x => fst x = requestOf this op) sent
    /\ length (sleeps (snd (invoke nextDelayMs this op w))) + 1
       = length (sleeps w) + length sent
    /\ streamCalls (snd (invoke nextDelayMs this op w)) = streamCalls w.
Proof.
  rewrite invoke_handler. cbn [snd].
  destruct (sendRequest_trace nextDelayMs (requestOf this op) (loggerOf this op) w)
    as (j & Hj & Hx & Hs & _ & Hsc & _).
  exists (rev (answersFrom w (requestOf this op) (length (exchanges w)) (S j))).
  assert (Hlen : length (rev (answersFrom w (requestOf this op)
                                (length (exchanges w)) (S j))) = S j).
  { unfold answersFrom. now rewrite length_rev, length_map, length_seq. }
  rewrite Hlen, Hs, length_waits. repeat split; try assumption; try lia.
  apply Forall_rev. unfold answersFrom. apply Forall_forall.
  intros x Hin. apply in_map_iff in Hin. destruct Hin as (n & <- & _).
  reflexivity.
Qed.

(** [getVersion] and [getStatus] write no debug line; every other
    operation writes exactly one, naming the URL it is about to call,
    however many attempts follow. *)
Theorem one_debug_line_unless_no_logger
        (nextDelayMs : Z -> Z) (this : DeviceAPI) (op : Operation) (w : World) :
  debugLog (snd (invoke nextDelayMs this op w))
  = match op with
    | OpGetVersion | OpGetStatus => debugLog w
    | _ => ("Sending request to " ++ url_text (requestOf this op))%string
           :: debugLog w
    end.
Proof.
  rewrite invoke_handler. cbn [snd].
  destruct (sendRequest_trace nextDelayMs (requestOf this op) (loggerOf this op) w)
    as (j & _ & _ & _ & _ & _ & _ & Hd).
  rewrite Hd. destruct op; reflexivity.
Qed.

(** ** Telling the operations apart *)

Lemma append_cancel_l (p a b : string) :
  (p ++ a)%string = (p ++ b)%string -> a = b.
Proof.
  induction p as [| c p IH]; simpl; intros H; [exact H |].
  injection H as H. exact (IH H).
Qed.

(** Two operations on one device build the same request only when they
    are the same operation with the same argument: no two operations
    share method and URL, and the state and the service name travel in
    the request. *)
Theorem requests_identify_operations
        (this : DeviceAPI) (op1 op2 : Operation) :
  requestOf this op1 = requestOf this op2 -> op1 = op2.
Proof.
  destruct op1, op2; cbn [requestOf]; unfold getUrlForAction;
    cbn [deviceEndpoints]; intros H; try reflexivity;
    try (injection H as H; discriminate H);
    try (injection H as H; apply append_cancel_l in H; discriminate H);
    try (injection H as _ H; apply append_cancel_l in H; discriminate H);
    try (injection H as H1 H2; apply append_cancel_l in H1; discriminate H1).
  - injection H as H. now subst.
  - injection H as H. now subst.
Qed.

Lemma requests_identify_operations_witness :
  OpGetContainerId "main" = OpGetContainerId "main".
Proof.
  exact (requests_identify_operations localDevice
           (OpGetContainerId "main") (OpGetContainerId "main") eq_refl).
Defined.

(** * The cloud commands *)

(** ** Text *)

Lemma toLowerCase_app (a b : string) :
  toLowerCase (a ++ b) = (toLowerCase a ++ toLowerCase b)%string.
Proof.
  induction a as [| c a IH]; simpl; [reflexivity | now rewrite IH].
Qed.

Lemma prefix_iff (needle s : string) :
  String.prefix needle s = true <-> exists post, s = (needle ++ post)%string.
Proof.
  revert s. induction needle as [| c needle IH]; intros s; simpl.
  - split; [intros _; now exists s | intros _; destruct s; reflexivity].
  - destruct s as [| d s]; simpl.
    + split; [discriminate | intros [post H]; discriminate].
    + destruct (Ascii.ascii_dec c d) as [-> | Hne].
      * rewrite IH. split; intros [post H]; exists post.
        -- now rewrite H.
        -- now injection H.
      * split; [discriminate |].
        intros [post H]. injection H as H1 H2. congruence.
Qed.

(** [includes] finds the needle exactly when the text is the needle
    between two other texts. *)
Lemma includes_iff (s needle : string) :
  includes s needle = true
  <-> exists pre post, s = (pre ++ needle ++ post)%string.
Proof.
  induction s as [| c s IH].
  - cbn [includes]. rewrite orb_false_r, prefix_iff. split.
    + intros [post H]. now exists EmptyString, post.
    + intros (pre & post & H). destruct pre as [| d pre]; [| discriminate].
      now exists post.
  - cbn [includes]. rewrite orb_true_iff, prefix_iff, IH. split.
    + intros [[post H] | (pre & post & H)].
      * now exists EmptyString, post.
      * exists (String c pre), post. simpl. now rewrite H.
    + intros (pre & post & H). destruct pre as [| d pre].
      * left. now exists post.
      * right. injection H as _ H. now exists pre, post.
Qed.

(** ** [device identify] *)

(** [run] is fulfilled exactly when [identify] is: it swallows no
    failure and adds none of its own. *)
Theorem identify_run_fulfils_iff
        (identify : string -> option JsValue) (uuid : string) :
  DeviceIdentifyCmd.run identify uuid = Fulfilled tt <-> identify uuid = None.
Proof.
  unfold DeviceIdentifyCmd.run. split.
  - destruct (identify uuid) as [e |]; [| reflexivity].
    destruct (member e "message") as [[| | | | text | |] |]; try discriminate.
    destruct (includes (toLowerCase text) "online"); discriminate.
  - now intros ->.
Qed.

(** When [identify] is rejected with an error whose message has the
    word [online] in it, in whatever mix of upper and lower case, [run]
    throws the ExpectedError that names the uuid as not online, in place
    of the error it caught. *)
Theorem identify_offline_is_reported_for_any_case
        (identify : string -> option JsValue) (uuid : string)
        (e : JsValue) (pre word post : string) :
  identify uuid = Some e ->
  member e "message" = Resolved (JString (pre ++ word ++ post)) ->
  toLowerCase word = "online"%string ->
  DeviceIdentifyCmd.run identify uuid
  = Failed (ThrownExpectedError ("Device " ++ uuid ++ " is not online")).
Proof.
  intros Hi Hm Hw. unfold DeviceIdentifyCmd.run. rewrite Hi, Hm.
  assert (Hin : includes (toLowerCase (pre ++ word ++ post)) "online" = true).
  { apply includes_iff. exists (toLowerCase pre), (toLowerCase post).
    now rewrite !toLowerCase_app, Hw. }
  now rewrite Hin.
Qed.

Lemma identify_offline_is_reported_for_any_case_witness :
  DeviceIdentifyCmd.run
    (fun _ => Some (JObject [("message"%string,
                              JString "Request error: No ONLINE device(s) found")]))
    "23c73a1"
  = Failed (ThrownExpectedError "Device 23c73a1 is not online").
Proof.
  exact (identify_offline_is_reported_for_any_case
           (fun _ => Some (JObject [("message"%string,
                              JString "Request error: No ONLINE device(s) found")]))
           "23c73a1"
           (JObject [("message"%string,
                      JString "Request error: No ONLINE device(s) found")])
           "Request error: No " "ONLINE" " device(s) found"
           eq_refl eq_refl eq_refl).
Defined.

(** [run] passes a caught value on as it is exactly when that value has
    no message ([undefined] or [null]) or a text message that does not
    have [online] in it once lowered; the value thrown is then the very
    value [identify] was rejected with. *)
Theorem identify_rethrows_the_error_unchanged
        (identify : string -> option JsValue) (uuid : string) (e : JsValue) :
  DeviceIdentifyCmd.run identify uuid = Failed (ThrownValue e)
  <-> identify uuid = Some e
      /\ exists m,
          member e "message" = Resolved m
          /\ (is_nullish m = true
              \/ exists text,
                  m = JString text
                  /\ forall pre post,
                      toLowerCase text <> (pre ++ "online" ++ post)%string).
Proof.
  unfold DeviceIdentifyCmd.run. split.
  - destruct (identify uuid) as [e' |]; [| discriminate].
    destruct (member e' "message") as [m |] eqn:Hm; [| discriminate].
    destruct m as [| | | | text | |]; try discriminate.
    + intros [= ->]. split; [reflexivity |]. exists JUndefined. split; auto.
    + intros [= ->]. split; [reflexivity |]. exists JNull. split; auto.
    + destruct (includes (toLowerCase text) "online") eqn:Hin; [discriminate |].
      intros [= ->]. split; [reflexivity |]. exists (JString text).
      split; [exact Hm |]. right. exists text. split; [reflexivity |].
      intros pre post Heq.
      assert (Ht : includes (toLowerCase text) "online" = true)
        by (apply includes_iff; now exists pre, post).
      congruence.
  - intros (-> & m & -> & [Hn | (text & -> & Hno)]).
    + destruct m; try discriminate; reflexivity.
    + destruct (includes (toLowerCase text) "online") eqn:Hin; [| reflexivity].
      apply includes_iff in Hin. destruct Hin as (pre & post & Heq).
      now destruct (Hno pre post).
Qed.

(** ** [device move]: answers under [Promise.all] *)

Lemma earliest_spec {T : Type} (answers : list (Answer T)) :
  forall best : option (nat * JsValue),
    match DeviceMoveCmd.earliest best answers with
    | None => best = None /\ Forall isOk answers
    | Some (t, e) =>
        (best = Some (t, e) \/ In (Rejects t e) answers)
        /\ (forall t' e', In (Rejects t' e') answers -> t <= t')
        /\ (forall t0 e0, best = Some (t0, e0) -> t <= t0)
    end.
Proof.
  induction answers as [| a answers IH]; intros best; simpl.
  - destruct best as [[t e] |]; [| split; [reflexivity | constructor]].
    split; [now left |]. split; [intros ? ? [] |].
    intros t0 e0 [= -> _]. lia.
  - destruct a as [v | t1 e1].
    + specialize (IH best).
      destruct (DeviceMoveCmd.earliest best answers) as [[t e] |].
      * destruct IH as (Hin & Hmin & Hbest). split; [| split].
        -- destruct Hin as [Hb | Hin]; [now left | right; now right].
        -- intros t' e' [Hq | Hin']; [discriminate | eauto].
        -- exact Hbest.
      * destruct IH as [Hb Hall]. split; [exact Hb |].
        constructor; [exact I | exact Hall].
    + destruct best as [[t0 e0] |].
      * destruct (Nat.leb_spec t0 t1) as [Hle | Hlt].
        -- specialize (IH (Some (t0, e0))).
           destruct (DeviceMoveCmd.earliest (Some (t0, e0)) answers) as [[t e] |].
           ++ destruct IH as (Hin & Hmin & Hbest). split; [| split].
              ** destruct Hin as [Hb | Hin]; [now left | right; now right].
              ** intros t' e' [[= <- <-] | Hin'];
                   [specialize (Hbest t0 e0 eq_refl); lia | eauto].
              ** exact Hbest.
           ++ destruct IH as [Hb _]. discriminate.
        -- specialize (IH (Some (t1, e1))).
           destruct (DeviceMoveCmd.earliest (Some (t1, e1)) answers) as [[t e] |].
           ++ destruct IH as (Hin & Hmin & Hbest). split; [| split].
              ** right. destruct Hin as [[= <- <-] | Hin]; [now left | now right].
              ** intros t' e' [[= <- <-] | Hin'];
                   [exact (Hbest t1 e1 eq_refl) | eauto].
              ** intros t2 e2 [= <- <-]. specialize (Hbest t1 e1 eq_refl). lia.
           ++ destruct IH as [Hb _]. discriminate.
      * specialize (IH (Some (t1, e1))).
        destruct (DeviceMoveCmd.earliest (Some (t1, e1)) answers) as [[t e] |].
        -- destruct IH as (Hin & Hmin & Hbest). split; [| split].
           ++ right. destruct Hin as [[= <- <-] | Hin]; [now left | now right].
           ++ intros t' e' [[= <- <-] | Hin'];
                [exact (Hbest t1 e1 eq_refl) | eauto].
           ++ discriminate.
        -- destruct IH as [Hb _]. discriminate.
Qed.

Lemma values_of_ok {T : Type} (answers : list (Answer T)) :
  Forall isOk answers -> map Ok (DeviceMoveCmd.values answers) = answers.
Proof.
  induction 1 as [| a answers Ha _ IH]; simpl; [reflexivity |].
  destruct a as [v | t e]; [simpl; now rewrite IH | destruct Ha].
Qed.

(** [Promise.all] is fulfilled exactly when no answer is a rejection,
    with every value in order; otherwise it is rejected with a
    rejection among the answers than which none came earlier. *)
Lemma promiseAll_spec {T : Type} (answers : list (Answer T)) :
  match DeviceMoveCmd.promiseAll answers with
  | Fulfilled vs => map Ok vs = answers
  | Failed r =>
      exists t e,
        r = ThrownValue e /\ In (Rejects t e) answers
        /\ forall t' e', In (Rejects t' e') answers -> t <= t'
  end.
Proof.
  unfold DeviceMoveCmd.promiseAll.
  pose proof (earliest_spec answers None) as H.
  destruct (DeviceMoveCmd.earliest None answers) as [[t e] |].
  - destruct H as ([Hb | Hin] & Hmin & _); [discriminate |].
    exists t, e. repeat split; assumption.
  - destruct H as [_ Hall]. now apply values_of_ok.
Qed.

(** ** [device move]: the command *)

Lemma member_defined (b : JsValue) (k : string) :
  is_nullish b = false -> exists m, member b k = Resolved m.
Proof.
  destruct b; simpl; intros H; try discriminate; eexists; reflexivity.
Qed.

Section MoveFacts.

Variables Nav ArchSlug : Type.
Variable tryAsInteger : string -> DeviceMoveCmd.DeviceId.
Variable getExpandedProp : Nav -> string -> ArchSlug.
Variable isArchitectureCompatibleWith : ArchSlug -> ArchSlug -> bool.
Variable deprecationWarning : string.
Variable isTTY : bool.
Variable device_get : nat -> DeviceMoveCmd.DeviceId -> Answer (DeviceMoveCmd.Device Nav).
Variable device_move : nat -> DeviceMoveCmd.DeviceId -> Z -> option JsValue.
Variable getApplication : string -> Answer (DeviceMoveCmd.Application Nav).
Variable deviceType_getAll : list string -> Answer (list (DeviceMoveCmd.DeviceType Nav)).
Variable deviceType_getAllSupported : Answer (list (DeviceMoveCmd.DeviceType Nav)).
Variable selectApplication :
  (DeviceMoveCmd.Application Nav -> Outcome bool) -> Answer (DeviceMoveCmd.Application Nav).

Local Abbreviation run :=
  (DeviceMoveCmd.run Nav ArchSlug tryAsInteger getExpandedProp
     isArchitectureCompatibleWith deprecationWarning isTTY device_get
     device_move getApplication deviceType_getAll deviceType_getAllSupported
     selectApplication).
Local Abbreviation moveEach := (DeviceMoveCmd.moveEach Nav device_move).
Local Abbreviation select :=
  (DeviceMoveCmd.interactivelySelectApplication Nav ArchSlug getExpandedProp
     isArchitectureCompatibleWith deviceType_getAll deviceType_getAllSupported
     selectApplication).



Local Abbreviation getEach := (DeviceMoveCmd.getEach Nav device_get).
Local Abbreviation deviceIdsOf := (DeviceMoveCmd.deviceIdsOf tryAsInteger).

(** Whatever the moves do, the loop writes nothing to stderr and looks
    nothing up. *)
Lemma moveEach_frame (application : DeviceMoveCmd.Application Nav) :
  forall (deviceIds : list DeviceMoveCmd.DeviceId) (sh : DeviceMoveCmd.Shell),
    DeviceMoveCmd.stderrLines (snd (moveEach application deviceIds sh))
    = DeviceMoveCmd.stderrLines sh
    /\ DeviceMoveCmd.lookupCalls (snd (moveEach application deviceIds sh))
       = DeviceMoveCmd.lookupCalls sh
    /\ DeviceMoveCmd.selections (snd (moveEach application deviceIds sh))
       = DeviceMoveCmd.selections sh.
Proof.
  induction deviceIds as [| uuid rest IH]; intros sh; [repeat split |].
  cbn [DeviceMoveCmd.moveEach].
  destruct (device_move (length (DeviceMoveCmd.moveCalls sh)) uuid
              (DeviceMoveCmd.id Nav application)) as [err |].
  - destruct (member err "message") as [m | e]; [| repeat split].
    match goal with
    | |- context [DeviceMoveCmd.moveEach _ _ _ rest ?s] =>
        destruct (IH s) as (-> & -> & ->)
    end. repeat split.
  - match goal with
    | |- context [DeviceMoveCmd.moveEach _ _ _ rest ?s] =>
        destruct (IH s) as (-> & -> & ->)
    end. repeat split.
Qed.

(** The interactive selection moves nothing, prints nothing and looks
    nothing up by name. *)
Lemma select_frame (devices : list (DeviceMoveCmd.Device Nav))
      (sh : DeviceMoveCmd.Shell) :
  DeviceMoveCmd.stderrLines (snd (select devices sh)) = DeviceMoveCmd.stderrLines sh
  /\ DeviceMoveCmd.infoLines (snd (select devices sh)) = DeviceMoveCmd.infoLines sh
  /\ DeviceMoveCmd.moveCalls (snd (select devices sh)) = DeviceMoveCmd.moveCalls sh
  /\ DeviceMoveCmd.lookupCalls (snd (select devices sh)) = DeviceMoveCmd.lookupCalls sh
  /\ DeviceMoveCmd.exitCode (snd (select devices sh)) = DeviceMoveCmd.exitCode sh.
Proof.
  unfold DeviceMoveCmd.interactivelySelectApplication.
  destruct (DeviceMoveCmd.mapSlugs Nav devices) as [slugs | e]; [| repeat split].
  destruct (deviceType_getAll (uniq [] slugs)) as [ddts | t1 e1];
    destruct deviceType_getAllSupported as [dts | t2 e2];
    try (repeat split; reflexivity).
  destruct (selectApplication _) as [a | t err]; [repeat split |].
  destruct ddts; [repeat split |].
  destruct (member err "message"); repeat split.
Qed.

Lemma getEach_In (deviceIds : list DeviceMoveCmd.DeviceId) :
  forall (p t : nat) (e : JsValue),
    In (Rejects t e) (getEach p deviceIds)
    <-> exists k uuid,
        nth_error deviceIds k = Some uuid
        /\ device_get (p + k) uuid = Rejects t e.
Proof.
  induction deviceIds as [| u rest IH]; intros p t e; simpl.
  - split; [intros [] | intros (k & uuid & Hn & _); destruct k; discriminate].
  - rewrite IH. split.
    + intros [Hh | (k & uuid & Hn & Hg)].
      * exists 0, u. rewrite Nat.add_0_r. split; [reflexivity | exact Hh].
      * exists (S k), uuid. rewrite Nat.add_succ_r. split; assumption.
    + intros (k & uuid & Hn & Hg). destruct k as [| k].
      * injection Hn as ->. rewrite Nat.add_0_r in Hg. now left.
      * right. exists k, uuid. rewrite Nat.add_succ_r in Hg. split; assumption.
Qed.

Lemma getEach_ok (deviceIds : list DeviceMoveCmd.DeviceId) :
  forall p,
    (forall k uuid, nth_error deviceIds k = Some uuid ->
                    isOk (device_get (p + k) uuid)) ->
    Forall isOk (getEach p deviceIds).
Proof.
  induction deviceIds as [| u rest IH]; intros p H; simpl; constructor.
  - specialize (H 0 u eq_refl). now rewrite Nat.add_0_r in H.
  - apply IH. intros k uuid Hn. specialize (H (S k) uuid Hn).
    now rewrite Nat.add_succ_r in H.
Qed.

Lemma promiseAll_ok {T : Type} (answers : list (Answer T)) :
  Forall isOk answers ->
  exists vs, DeviceMoveCmd.promiseAll answers = Fulfilled vs.
Proof.
  intros Hall. pose proof (promiseAll_spec answers) as H.
  destruct (DeviceMoveCmd.promiseAll answers) as [vs | r]; [now exists vs |].
  destruct H as (t & e & _ & Hin & _).
  rewrite Forall_forall in Hall. destruct (Hall _ Hin).
Qed.



(** When fetching one of the devices is rejected, [run] is rejected
    with the rejection that came first, and nothing else happens: no
    fleet is looked up or selected, no device is moved, no line is
    printed. *)
Theorem nothing_moves_when_a_device_is_missing
        (uuid : string) (options : DeviceMoveCmd.FlagsDef)
        (sh : DeviceMoveCmd.Shell) (k : nat) (u : DeviceMoveCmd.DeviceId)
        (t : nat) (e : JsValue) :
  nth_error (deviceIdsOf uuid) k = Some u ->
  device_get k u = Rejects t e ->
  (exists k' u' t' e',
      fst (run uuid options sh) = Failed (ThrownValue e')
      /\ nth_error (deviceIdsOf uuid) k' = Some u'
      /\ device_get k' u' = Rejects t' e'
      /\ t' <= t)
  /\ DeviceMoveCmd.moveCalls (snd (run uuid options sh)) = DeviceMoveCmd.moveCalls sh
  /\ DeviceMoveCmd.lookupCalls (snd (run uuid options sh)) = DeviceMoveCmd.lookupCalls sh
  /\ DeviceMoveCmd.selections (snd (run uuid options sh)) = DeviceMoveCmd.selections sh
  /\ DeviceMoveCmd.infoLines (snd (run uuid options sh)) = DeviceMoveCmd.infoLines sh.
Proof.
  intros Hn Hg. unfold DeviceMoveCmd.run.
  pose proof (promiseAll_spec (getEach 0 (deviceIdsOf uuid))) as H.
  assert (Hin : In (Rejects t e) (getEach 0 (deviceIdsOf uuid)))
    by (apply getEach_In; now exists k, u).
  destruct (DeviceMoveCmd.promiseAll (getEach 0 (deviceIdsOf uuid))) as [vs | r].
  - exfalso. rewrite <- H in Hin. apply in_map_iff in Hin.
    destruct Hin as (v & Hv & _). discriminate.
  - destruct H as (t' & e' & -> & Hin' & Hmin).
    apply getEach_In in Hin'. destruct Hin' as (k' & u' & Hn' & Hg').
    split.
    + exists k', u', t', e'. split; [reflexivity |].
      split; [exact Hn' |]. split; [exact Hg' | exact (Hmin t e Hin)].
    + cbn [snd]. destruct ((_ || _) && _); repeat split.
Qed.

(** The warning about the old flags is written to stderr exactly when
    [--application] or [--app] was given a non-empty value and stderr is
    a terminal, whatever happens afterwards; [--fleet] alone never
    triggers it, and nothing else is ever written there. *)
Theorem old_flags_warning
        (uuid : string) (options : DeviceMoveCmd.FlagsDef)
        (sh : DeviceMoveCmd.Shell) :
  DeviceMoveCmd.stderrLines (snd (run uuid options sh))
  = if (truthy (DeviceMoveCmd.application options)
        || truthy (DeviceMoveCmd.app options)) && isTTY
    then deprecationWarning :: DeviceMoveCmd.stderrLines sh
    else DeviceMoveCmd.stderrLines sh.
Proof.
  unfold DeviceMoveCmd.run.
  set (sh1 := if (truthy (DeviceMoveCmd.application options)
                  || truthy (DeviceMoveCmd.app options)) && isTTY
              then DeviceMoveCmd.error deprecationWarning sh else sh).
  assert (H1 : DeviceMoveCmd.stderrLines sh1
               = if (truthy (DeviceMoveCmd.application options)
                     || truthy (DeviceMoveCmd.app options)) && isTTY
                 then deprecationWarning :: DeviceMoveCmd.stderrLines sh
                 else DeviceMoveCmd.stderrLines sh)
    by (subst sh1; destruct ((_ || _) && _); reflexivity).
  rewrite <- H1. clearbody sh1.
  destruct (DeviceMoveCmd.promiseAll _) as [vs | r]; [| reflexivity].
  destruct (DeviceMoveCmd.destination options) as [[| c name] |].
  - pose proof (select_frame (map (DeviceMoveCmd.withApplicationName Nav) vs) sh1)
      as (Hs & _).
    destruct (select _ sh1) as [[a | r] sh2]; cbn [snd] in *; [| exact Hs].
    destruct (moveEach_frame a (deviceIdsOf uuid) sh2) as (-> & _). exact Hs.
  - destruct (getApplication (String c name)) as [a | t e]; [| reflexivity].
    now destruct (moveEach_frame a (deviceIdsOf uuid)
                    (DeviceMoveCmd.recordLookup (String c name) sh1)) as (-> & _).
  - pose proof (select_frame (map (DeviceMoveCmd.withApplicationName Nav) vs) sh1)
      as (Hs & _).
    destruct (select _ sh1) as [[a | r] sh2]; cbn [snd] in *; [| exact Hs].
    destruct (moveEach_frame a (deviceIdsOf uuid) sh2) as (-> & _). exact Hs.
Qed.

(** Once the devices are fetched, the fleet is looked up under the first
    non-empty value among [--application], [--app] and [--fleet], in
    that order, and the interactive selection is not used; when none of
    the three has a non-empty value no fleet is looked up by name. *)
Theorem destination_flag_precedence
        (uuid : string) (options : DeviceMoveCmd.FlagsDef)
        (sh : DeviceMoveCmd.Shell) :
  (forall k u, nth_error (deviceIdsOf uuid) k = Some u -> isOk (device_get k u)) ->
  (forall c name,
      DeviceMoveCmd.application options = Some (String c name)
      \/ (truthy (DeviceMoveCmd.application options) = false
          /\ DeviceMoveCmd.app options = Some (String c name))
      \/ (truthy (DeviceMoveCmd.application options) = false
          /\ truthy (DeviceMoveCmd.app options) = false
          /\ DeviceMoveCmd.fleet options = Some (String c name)) ->
      DeviceMoveCmd.lookupCalls (snd (run uuid options sh))
      = String c name :: DeviceMoveCmd.lookupCalls sh
      /\ DeviceMoveCmd.selections (snd (run uuid options sh))
         = DeviceMoveCmd.selections sh)
  /\ (truthy (DeviceMoveCmd.application options) = false ->
      truthy (DeviceMoveCmd.app options) = false ->
      truthy (DeviceMoveCmd.fleet options) = false ->
      DeviceMoveCmd.lookupCalls (snd (run uuid options sh))
      = DeviceMoveCmd.lookupCalls sh).
Proof.
  intros Hget.
  destruct (promiseAll_ok (getEach 0 (deviceIdsOf uuid))) as [vs Hvs].
  { apply getEach_ok. exact Hget. }
  set (sh1 := if (truthy (DeviceMoveCmd.application options)
                  || truthy (DeviceMoveCmd.app options)) && isTTY
              then DeviceMoveCmd.error deprecationWarning sh else sh).
  assert (Hl1 : DeviceMoveCmd.lookupCalls sh1 = DeviceMoveCmd.lookupCalls sh)
    by (subst sh1; destruct ((_ || _) && _); reflexivity).
  assert (Hs1 : DeviceMoveCmd.selections sh1 = DeviceMoveCmd.selections sh)
    by (subst sh1; destruct ((_ || _) && _); reflexivity).
  split.
  - intros c name Hflag.
    assert (Hdest : DeviceMoveCmd.destination options = Some (String c name)).
    { unfold DeviceMoveCmd.destination, or_else.
      destruct Hflag as [Ha | [[Ha Hb] | (Ha & Hb & Hc)]].
      - now rewrite Ha.
      - now rewrite Ha, Hb.
      - now rewrite Ha, Hb. }
    unfold DeviceMoveCmd.run. fold sh1. rewrite Hvs, Hdest.
    destruct (getApplication (String c name)) as [a | t e].
    + destruct (moveEach_frame a (deviceIdsOf uuid)
                  (DeviceMoveCmd.recordLookup (String c name) sh1))
        as (_ & -> & ->).
      cbn. now rewrite Hl1, Hs1.
    + cbn. now rewrite Hl1, Hs1.
  - intros Ha Hb Hc.
    assert (Hdest : truthy (DeviceMoveCmd.destination options) = false).
    { unfold DeviceMoveCmd.destination, or_else. now rewrite Ha, Hb. }
    unfold DeviceMoveCmd.run. fold sh1. rewrite Hvs.
    pose proof (select_frame (map (DeviceMoveCmd.withApplicationName Nav) vs) sh1)
      as (_ & _ & _ & Hl & _).
    destruct (DeviceMoveCmd.destination options) as [[| c name] |];
      try discriminate Hdest;
      (destruct (select _ sh1) as [[a | r] sh2]; cbn [snd] in *;
       [destruct (moveEach_frame a (deviceIdsOf uuid) sh2) as (_ & -> & _) |];
       now rewrite Hl, Hl1).
Qed.

Lemma name_differs_iff (name : option string) (other : string) :
  DeviceMoveCmd.name_differs name other = true <-> name <> Some other.
Proof.
  destruct name as [n |]; simpl; [| split; [discriminate | reflexivity]].
  destruct (String.eqb_spec n other) as [-> | Hne]; simpl; split;
    try discriminate; try reflexivity; try congruence.
Qed.

Local Abbreviation compatibleWithAll :=
  (DeviceMoveCmd.compatibleWithAll Nav ArchSlug getExpandedProp
     isArchitectureCompatibleWith).

Lemma offered_iff (compat : list (DeviceMoveCmd.DeviceType Nav))
      (devices : list (DeviceMoveCmd.Device Nav))
      (app : DeviceMoveCmd.Application Nav) :
  DeviceMoveCmd.offered Nav compat devices app = Fulfilled true
  <-> exists appType others,
      DeviceMoveCmd.is_for__device_type Nav app = appType :: others
      /\ (exists dt,
             In dt compat
             /\ DeviceMoveCmd.deviceTypeSlug Nav dt
                = DeviceMoveCmd.deviceTypeSlug Nav appType)
      /\ (exists device,
             In device devices
             /\ DeviceMoveCmd.application_name Nav device
                <> Some (DeviceMoveCmd.app_name Nav app)).
Proof.
  assert (Hbody : forall appType,
             existsb (fun dt => String.eqb (DeviceMoveCmd.deviceTypeSlug Nav dt)
                                  (DeviceMoveCmd.deviceTypeSlug Nav appType)) compat
             && existsb (fun device =>
                           DeviceMoveCmd.name_differs
                             (DeviceMoveCmd.application_name Nav device)
                             (DeviceMoveCmd.app_name Nav app)) devices = true
             <-> (exists dt,
                     In dt compat
                     /\ DeviceMoveCmd.deviceTypeSlug Nav dt
                        = DeviceMoveCmd.deviceTypeSlug Nav appType)
                 /\ (exists device,
                        In device devices
                        /\ DeviceMoveCmd.application_name Nav device
                           <> Some (DeviceMoveCmd.app_name Nav app))).
  { intros appType. rewrite andb_true_iff, !existsb_exists. split.
    - intros [(dt & Hin & Heq) (d & Hd & Hn)]. split.
      + exists dt. split; [exact Hin | now apply String.eqb_eq].
      + exists d. split; [exact Hd | now apply name_differs_iff].
    - intros [(dt & Hin & Heq) (d & Hd & Hn)]. split.
      + exists dt. split; [exact Hin | now apply String.eqb_eq].
      + exists d. split; [exact Hd | now apply name_differs_iff]. }
  unfold DeviceMoveCmd.offered, DeviceMoveCmd.firstDeviceTypeSlug.
  destruct compat as [| dt0 compat'].
  - split; [discriminate |].
    intros (_ & _ & _ & (dt & [] & _) & _).
  - remember (dt0 :: compat') as cl eqn:Hcl.
    destruct (DeviceMoveCmd.is_for__device_type Nav app) as [| appType others].
    + split; [discriminate | intros (? & ? & Hq & _); discriminate].
    + split.
      * intros [= Hb]. apply Hbody in Hb. exists appType, others.
        split; [reflexivity | exact Hb].
      * intros (appType' & others' & [= <- <-] & H). apply Hbody in H.
        now rewrite H.
Qed.

(** The filter handed to the interactive selection lets a fleet through
    exactly when the fleet's first device type has the slug of a
    supported device type whose architecture is compatible with that of
    every device type of the devices, and at least one of the devices
    is not under that fleet's name already. *)
Theorem only_fitting_fleets_are_offered
        (deviceDeviceTypes deviceTypes : list (DeviceMoveCmd.DeviceType Nav))
        (devices : list (DeviceMoveCmd.Device Nav))
        (app : DeviceMoveCmd.Application Nav) :
  DeviceMoveCmd.offered Nav
    (filter (compatibleWithAll deviceDeviceTypes) deviceTypes) devices app
  = Fulfilled true
  <-> exists appType others,
      DeviceMoveCmd.is_for__device_type Nav app = appType :: others
      /\ (exists dt,
             In dt deviceTypes
             /\ DeviceMoveCmd.deviceTypeSlug Nav dt
                = DeviceMoveCmd.deviceTypeSlug Nav appType
             /\ forall deviceDeviceType,
                 In deviceDeviceType deviceDeviceTypes ->
                 isArchitectureCompatibleWith
                   (getExpandedProp
                      (DeviceMoveCmd.is_of__cpu_architecture Nav deviceDeviceType)
                      "slug")
                   (getExpandedProp
                      (DeviceMoveCmd.is_of__cpu_architecture Nav dt) "slug")
                 = true)
      /\ (exists device,
             In device devices
             /\ DeviceMoveCmd.application_name Nav device
                <> Some (DeviceMoveCmd.app_name Nav app)).
Proof.
  rewrite offered_iff.
  assert (Hcompat : forall dt,
             In dt (filter (compatibleWithAll deviceDeviceTypes) deviceTypes)
             <-> In dt deviceTypes
                 /\ forall ddt, In ddt deviceDeviceTypes ->
                      isArchitectureCompatibleWith
                        (getExpandedProp
                           (DeviceMoveCmd.is_of__cpu_architecture Nav ddt) "slug")
                        (getExpandedProp
                           (DeviceMoveCmd.is_of__cpu_architecture Nav dt) "slug")
                      = true).
  { intros dt. rewrite filter_In.
    unfold DeviceMoveCmd.compatibleWithAll. now rewrite forallb_forall. }
  split; intros (appType & others & Happ & (dt & Hin & Heq) & Hdev);
    exists appType, others; (split; [exact Happ |]); (split; [| exact Hdev]).
  - apply Hcompat in Hin. destruct Hin as [Hin Hall].
    exists dt. repeat split; assumption.
  - destruct Heq as [Heq Hall]. exists dt. split; [| exact Heq].
    apply Hcompat. split; assumption.
Qed.

(** A fleet under whose name every fetched device already is, as the
    first fleet it belongs to, is never let through by the filter that
    [run] hands to the interactive selection. *)
Theorem home_fleet_is_never_offered
        (compatibleDeviceTypes : list (DeviceMoveCmd.DeviceType Nav))
        (fetched : list (DeviceMoveCmd.Device Nav))
        (app : DeviceMoveCmd.Application Nav) :
  (forall device,
      In device fetched ->
      exists first others,
        DeviceMoveCmd.belongs_to__application Nav device = Some (first :: others)
        /\ DeviceMoveCmd.app_name Nav first = DeviceMoveCmd.app_name Nav app) ->
  DeviceMoveCmd.offered Nav compatibleDeviceTypes
    (map (DeviceMoveCmd.withApplicationName Nav) fetched) app
  <> Fulfilled true.
Proof.
  intros Hhome. unfold DeviceMoveCmd.offered.
  destruct compatibleDeviceTypes as [| dt0 rest]; [discriminate |].
  destruct (DeviceMoveCmd.firstDeviceTypeSlug Nav
              (DeviceMoveCmd.is_for__device_type Nav app)) as [appSlug | e];
    [| discriminate].
  assert (Hno : existsb (fun device =>
                           DeviceMoveCmd.name_differs
                             (DeviceMoveCmd.application_name Nav device)
                             (DeviceMoveCmd.app_name Nav app))
                        (map (DeviceMoveCmd.withApplicationName Nav) fetched)
                = false).
  { apply not_true_is_false. intros Hex. apply existsb_exists in Hex.
    destruct Hex as (d & Hin & Hd). apply in_map_iff in Hin.
    destruct Hin as (d0 & <- & Hin0).
    destruct (Hhome d0 Hin0) as (first & others & Hb & Hname).
    unfold DeviceMoveCmd.withApplicationName in Hd. cbn in Hd.
    rewrite Hb, Hname, String.eqb_refl in Hd. discriminate. }
  rewrite Hno, andb_false_r. discriminate.
Qed.

End MoveFacts.

Example move_two_devices :
  MoveDemo.run (fun _ _ => Ok MoveDemo.device) "7cf02a6,dc39e52"
    (MoveDemo.onlyFleet "MyNewFleet") DeviceMoveCmd.emptyShell
  = (Fulfilled tt,
     {| DeviceMoveCmd.stderrLines := [];
        DeviceMoveCmd.infoLines :=
          ["Device dc39e52 was moved to fleet myorg/mynewfleet"%string;
           "Device not found: dc39e52, uuid: 7cf02a6"%string];
        DeviceMoveCmd.exitCode := Some 1%Z;
        DeviceMoveCmd.moveCalls :=
          [(DeviceMoveCmd.IdText "dc39e52", 1833771%Z);
           (DeviceMoveCmd.IdText "7cf02a6", 1833771%Z)];
        DeviceMoveCmd.lookupCalls := ["MyNewFleet"%string];
        DeviceMoveCmd.selections := 0 |}).
Proof. reflexivity. Qed.


Lemma nothing_moves_when_a_device_is_missing_witness :
  DeviceMoveCmd.moveCalls
    (snd (MoveDemo.run MoveDemo.secondIsMissing "7cf02a6,dc39e52"
            (MoveDemo.onlyFleet "MyNewFleet") DeviceMoveCmd.emptyShell))
  = [].
Proof.
  exact (proj1 (proj2 (nothing_moves_when_a_device_is_missing unit unit
                   DeviceMoveCmd.IdText (fun _ _ => tt) (fun _ _ => true)
                   "[Warn] use --fleet" true MoveDemo.secondIsMissing
                   MoveDemo.firstMoveFails (fun _ => Ok MoveDemo.fleet)
                   (fun _ => Ok []) (Ok []) (fun _ => Rejects 0 JNull)
                   "7cf02a6,dc39e52" (MoveDemo.onlyFleet "MyNewFleet")
                   DeviceMoveCmd.emptyShell 1 (DeviceMoveCmd.IdText "dc39e52")
                   5 MoveDemo.notFound eq_refl eq_refl))).
Defined.

Lemma destination_flag_precedence_witness :
  DeviceMoveCmd.lookupCalls
    (snd (MoveDemo.run (fun _ _ => Ok MoveDemo.device) "7cf02a6"
            (MoveDemo.onlyFleet "MyNewFleet") DeviceMoveCmd.emptyShell))
  = ["MyNewFleet"%string].
Proof.
  refine (proj1 (proj1 (destination_flag_precedence unit unit
                   DeviceMoveCmd.IdText (fun _ _ => tt) (fun _ _ => true)
                   "[Warn] use --fleet" true (fun _ _ => Ok MoveDemo.device)
                   MoveDemo.firstMoveFails (fun _ => Ok MoveDemo.fleet)
                   (fun _ => Ok []) (Ok []) (fun _ => Rejects 0 JNull)
                   "7cf02a6" (MoveDemo.onlyFleet "MyNewFleet")
                   DeviceMoveCmd.emptyShell _)
                 "M"%char "yNewFleet" _)).
  - intros k u _. exact I.
  - right. right. repeat split; reflexivity.
Defined.

Lemma home_fleet_is_never_offered_witness :
  DeviceMoveCmd.offered unit
    (DeviceMoveCmd.is_for__device_type unit MoveDemo.fleet)
    (map (DeviceMoveCmd.withApplicationName unit) [MoveDemo.device])
    MoveDemo.fleet
  <> Fulfilled true.
Proof.
  apply (home_fleet_is_never_offered unit).
  intros d [<- | []]. exists MoveDemo.fleet, []. split; reflexivity.
Defined.


(** ** [fleet] *)

Lemma lookup_setField_same (k : string) (v : JsValue)
      (fields : list (string * JsValue)) :
  lookup_field k (setField k v fields) = v.
Proof.
  induction fields as [| [k' v'] rest IH]; simpl.
  - now rewrite String.eqb_refl.
  - destruct (String.eqb_spec k k') as [-> | Hne]; simpl.
    + now rewrite String.eqb_refl.
    + destruct (String.eqb_spec k k'); [contradiction | exact IH].
Qed.

Lemma lookup_setField_other (k k' : string) (v : JsValue)
      (fields : list (string * JsValue)) :
  k <> k' -> lookup_field k (setField k' v fields) = lookup_field k fields.
Proof.
  intros Hne. induction fields as [| [k0 v0] rest IH]; simpl.
  - destruct (String.eqb_spec k k'); [contradiction | reflexivity].
  - destruct (String.eqb_spec k' k0) as [-> | Hne0]; simpl.
    + destruct (String.eqb_spec k k0); [contradiction | reflexivity].
    + destruct (String.eqb_spec k k0); [reflexivity | exact IH].
Qed.

Lemma cons_neq_self {A : Type} (x : A) (l : list A) : x :: l <> l.
Proof.
  intros H. apply (f_equal (@length A)) in H. simpl in H. lia.
Qed.

Section FleetFacts.

Variable getApplication : string -> Answer JsValue.
Variable getDashboardUrl : JsValue -> string.
Variable open : string -> option JsValue.
Variable outputData : JsValue -> list string -> option JsValue.

Local Abbreviation run :=
  (FleetCmd.run getApplication getDashboardUrl open outputData).

(** With [--view] the command prints no data, and opens at most the
    dashboard page of the fleet's [id]; without it, it opens nothing. *)
Theorem fleet_view_opens_or_prints (fleet : string) (tr : FleetCmd.Trace) :
  FleetCmd.outputs (snd (run fleet true tr)) = FleetCmd.outputs tr
  /\ (FleetCmd.opened (snd (run fleet true tr)) = FleetCmd.opened tr
      \/ exists application id,
          getApplication fleet = Ok application
          /\ member application "id" = Resolved id
          /\ FleetCmd.opened (snd (run fleet true tr))
             = getDashboardUrl id :: FleetCmd.opened tr)
  /\ FleetCmd.opened (snd (run fleet false tr)) = FleetCmd.opened tr.
Proof.
  unfold FleetCmd.run, read.
  destruct (getApplication fleet) as [application | t e];
    [| repeat split; now left].
  split; [| split].
  - destruct (member application "id") as [id | e]; [| reflexivity].
    destruct (open (getDashboardUrl id)); reflexivity.
  - destruct (member application "id") as [id | e] eqn:Hid; [| now left].
    right. exists application, id. split; [reflexivity |].
    split; [exact Hid |]. destruct (open (getDashboardUrl id)); reflexivity.
  - repeat match goal with
           | |- context [match ?x with Fulfilled _ => _ | Failed _ => _ end] =>
               destruct x; [| reflexivity]
           | |- context [match member ?a ?b with _ => _ end] =>
               destruct (member a b); [| reflexivity]
           | |- context [match element0 ?a with _ => _ end] =>
               destruct (element0 a); [| reflexivity]
           end.
    destruct (outputData _ _); reflexivity.
Qed.

(** What the command hands to [outputData], when it gets that far, is
    the fleet's own fields, each reading as it did, with two written
    over or added: [device_type], the [slug] of the fleet's first device
    type, and [commit], the [commit] of its first running release or
    [undefined] when it has none.  The field names asked for are always
    the same five. *)
Theorem fleet_output_keeps_the_fleet_fields
        (fleet : string) (tr : FleetCmd.Trace)
        (obj : JsValue) (fields : list string) :
  FleetCmd.outputs (snd (run fleet false tr)) = (obj, fields) :: FleetCmd.outputs tr ->
  fields = ["app_name"; "id"; "device_type"; "slug"; "commit"]%string
  /\ exists application o,
      getApplication fleet = Ok application
      /\ obj = JObject o
      /\ (forall k, k <> "device_type"%string -> k <> "commit"%string ->
             lookup_field k o = lookup_field k (enumerable_fields application))
      /\ (exists types firstType,
             read application "is_for__device_type" = Fulfilled types
             /\ element0 types = Fulfilled firstType
             /\ read firstType "slug" = Fulfilled (lookup_field "device_type" o))
      /\ (exists releases release,
             read application "should_be_running__release" = Fulfilled releases
             /\ element0 releases = Fulfilled release
             /\ (if is_nullish release then Fulfilled JUndefined
                 else read release "commit")
                = Fulfilled (lookup_field "commit" o)).
Proof.
  unfold FleetCmd.run.
  destruct (getApplication fleet) as [application | t e];
    [| intros H; symmetry in H; now apply cons_neq_self in H].
  destruct (read application "is_for__device_type") as [types | e] eqn:Ht;
    [| intros H; symmetry in H; now apply cons_neq_self in H].
  destruct (element0 types) as [firstType | e] eqn:Hf;
    [| intros H; symmetry in H; now apply cons_neq_self in H].
  destruct (read firstType "slug") as [device_type | e] eqn:Hs;
    [| intros H; symmetry in H; now apply cons_neq_self in H].
  destruct (read application "should_be_running__release") as [releases | e] eqn:Hr;
    [| intros H; symmetry in H; now apply cons_neq_self in H].
  destruct (element0 releases) as [release | e] eqn:Hl;
    [| intros H; symmetry in H; now apply cons_neq_self in H].
  destruct (if is_nullish release then Fulfilled JUndefined
            else read release "commit") as [commit | e] eqn:Hc;
    [| intros H; symmetry in H; now apply cons_neq_self in H].
  intros H.
  assert (Hobj : (obj, fields)
                 = (JObject (setField "commit" commit
                               (setField "device_type" device_type
                                  (enumerable_fields application))),
                    ["app_name"; "id"; "device_type"; "slug"; "commit"]%string)).
  { destruct (outputData _ _); cbn in H; injection H as <- <-; reflexivity. }
  injection Hobj as -> ->. clear H.
  split; [reflexivity |].
  exists application, (setField "commit" commit
                         (setField "device_type" device_type
                            (enumerable_fields application))).
  split; [reflexivity |]. split; [reflexivity |]. split; [| split].
  - intros k Hd Hcm. now rewrite !lookup_setField_other.
  - exists types, firstType. split; [exact Ht |]. split; [exact Hf |].
    rewrite lookup_setField_other by discriminate.
    now rewrite lookup_setField_same.
  - exists releases, release. split; [exact Hr |]. split; [exact Hl |].
    now rewrite lookup_setField_same.
Qed.

(** A fleet object whose list of device types is empty makes the
    command fail with the TypeError of reading [slug] off [undefined],
    before anything is printed; one whose list of running releases is
    empty is printed all the same, with [commit] [undefined]. *)
Theorem fleet_without_device_type_or_release
        (fleet : string) (tr : FleetCmd.Trace)
        (own : list (string * JsValue)) :
  getApplication fleet = Ok (JObject own) ->
  (lookup_field "is_for__device_type" own = JArray [] ->
   fst (run fleet false tr) = Failed (ThrownTypeError JUndefined "slug")
   /\ FleetCmd.outputs (snd (run fleet false tr)) = FleetCmd.outputs tr)
  /\ (forall firstType others,
        lookup_field "is_for__device_type" own
          = JArray (JObject firstType :: others) ->
        lookup_field "should_be_running__release" own = JArray [] ->
        FleetCmd.outputs (snd (run fleet false tr))
        = (JObject (setField "commit" JUndefined
                      (setField "device_type" (lookup_field "slug" firstType) own)),
           ["app_name"; "id"; "device_type"; "slug"; "commit"]%string)
          :: FleetCmd.outputs tr).
Proof.
  intros Happ. unfold FleetCmd.run. rewrite Happ. unfold read.
  cbn [member]. split.
  - intros ->. cbn. split; reflexivity.
  - intros firstType others -> Hrel. rewrite Hrel.
    cbn [element0 nth member is_nullish enumerable_fields].
    destruct (outputData _ _); reflexivity.
Qed.

End FleetFacts.

Lemma fleet_output_keeps_the_fleet_fields_witness :
  exists application o,
    Ok FleetDemo.idle = Ok application
    /\ JObject [("id"%string, JNumber 1833771);
                ("app_name"%string, JString "MyFleet");
                ("slug"%string, JString "myorg/myfleet");
                ("is_for__device_type"%string,
                 JArray [JObject [("slug"%string, JString "raspberrypi4-64")]]);
                ("should_be_running__release"%string, JArray []);
                ("device_type"%string, JString "raspberrypi4-64");
                ("commit"%string, JUndefined)] = JObject o
    /\ (forall k, k <> "device_type"%string -> k <> "commit"%string ->
           lookup_field k o = lookup_field k (enumerable_fields application))
    /\ (exists types firstType,
           read application "is_for__device_type" = Fulfilled types
           /\ element0 types = Fulfilled firstType
           /\ read firstType "slug" = Fulfilled (lookup_field "device_type" o))
    /\ (exists releases release,
           read application "should_be_running__release" = Fulfilled releases
           /\ element0 releases = Fulfilled release
           /\ (if is_nullish release then Fulfilled JUndefined
               else read release "commit")
              = Fulfilled (lookup_field "commit" o)).
Proof.
  exact (proj2 (fleet_output_keeps_the_fleet_fields
                  (fun _ => Ok FleetDemo.idle)
                  (fun id => ("https://dashboard.balena-cloud.com/apps/"
                              ++ js_toString id)%string)
                  (fun _ => None) (fun _ _ => None)
                  "myorg/myfleet" FleetCmd.emptyTrace _ _ eq_refl)).
Defined.

Lemma fleet_without_device_type_or_release_witness :
  fst (FleetDemo.run
         (JObject [("id"%string, JNumber 7);
                   ("is_for__device_type"%string, JArray [])])
         "myorg/myfleet" false FleetCmd.emptyTrace)
  = Failed (ThrownTypeError JUndefined "slug").
Proof.
  exact (proj1 (proj1 (fleet_without_device_type_or_release
                         (fun _ => Ok (JObject [("id"%string, JNumber 7);
                                    ("is_for__device_type"%string, JArray [])]))
                         (fun id => ("https://dashboard.balena-cloud.com/apps/"
                                     ++ js_toString id)%string)
                         (fun _ => None) (fun _ _ => None)
                         "myorg/myfleet" FleetCmd.emptyTrace
                         [("id"%string, JNumber 7);
                          ("is_for__device_type"%string, JArray [])]
                         eq_refl)
                 eq_refl)).
Defined.


(** ** [instance init] *)

Lemma strict_eq_number_iff (v : JsValue) (n : Z) :
  strict_eq_number v n = true <-> v = JNumber n.
Proof.
  destruct v; simpl; try (split; [discriminate | intros H; discriminate H]).
  rewrite Z.eqb_eq. split; [now intros -> | now intros [= ->]].
Qed.

Section InitFacts.

Variable existsSync : string -> bool.
Variable readConfig : string -> Outcome JsValue.
Variable fetchJson : nat -> InstanceInitCmd.Request -> InstanceInitCmd.Fetched.
Variable randomName : string.
Variable stringify : JsValue -> string.
Variable options : InstanceInitCmd.FlagsDef.

Local Abbreviation listImages := (InstanceInitCmd.listImages fetchJson options).
Local Abbreviation awaitImage := (InstanceInitCmd.awaitImage fetchJson options).
Local Abbreviation awaitDroplet := (InstanceInitCmd.awaitDroplet fetchJson options).
Local Abbreviation uploadImage := (InstanceInitCmd.uploadImage fetchJson options).
Local Abbreviation createDroplet :=
  (InstanceInitCmd.createDroplet fetchJson randomName stringify options).
Local Abbreviation run :=
  (InstanceInitCmd.run existsSync readConfig fetchJson randomName stringify options).
Local Abbreviation get := (InstanceInitCmd.get options).
Local Abbreviation listing := (pageListing fetchJson options).

Lemma listing_shift (wanted : string) (n0 first p : nat) :
  S first <= p ->
  listing wanted (S n0) (S first) p = listing wanted n0 first p.
Proof.
  intros Hp. unfold pageListing.
  replace (S n0 + (p - S first)) with (n0 + (p - first)) by lia. reflexivity.
Qed.

(** One round of the listing, when the loop comes to an end. *)
Lemma listImages_round (rounds page : nat) (wanted : string) (skip : bool)
      (id : JsValue) (h : InstanceInitCmd.Host)
      (skip' : bool) (id' : JsValue) (h' : InstanceInitCmd.Host) :
  listImages (S rounds) page wanted skip id h = (InstanceInitCmd.Done (skip', id'), h') ->
  exists count found,
    listing wanted (length (InstanceInitCmd.requests h)) page page
      = Some (count, found)
    /\ let skip1 := match found with Some _ => true | None => skip end in
       let id1 := match found with Some i => i | None => id end in
       exists h1,
         InstanceInitCmd.requests h1
           = get (InstanceInitCmd.pageUrl page) :: InstanceInitCmd.requests h
         /\ if strict_eq_number count 200
            then listImages rounds (S page) wanted skip1 id1 h1
                 = (InstanceInitCmd.Done (skip', id'), h')
            else skip' = skip1 /\ id' = id1 /\ h' = h1.
Proof.
  cbn [InstanceInitCmd.listImages]. unfold pageListing.
  rewrite Nat.sub_diag, Nat.add_0_r.
  destruct (fetchJson (length (InstanceInitCmd.requests h))
              (get (InstanceInitCmd.pageUrl page))) as [e | e | body];
    try discriminate.
  destruct (read body "images") as [images | e]; [| discriminate].
  destruct (lengthOf images) as [count | e]; [| discriminate].
  destruct (iterate images) as [items | e]; [| discriminate].
  destruct (InstanceInitCmd.firstNamed wanted items) as [found | e];
    [| discriminate].
  intros H. exists count, found. split; [reflexivity |].
  destruct found as [i |]; cbn zeta.
  - eexists. split; [| destruct (strict_eq_number count 200);
                        [exact H | injection H as <- <- <-; repeat split]].
    reflexivity.
  - eexists. split; [| destruct (strict_eq_number count 200);
                        [exact H | injection H as <- <- <-; repeat split]].
    reflexivity.
Qed.

(** The whole listing, when it comes to an end. *)
Lemma listImages_spec (wanted : string) :
  forall (rounds page : nat) (skip : bool) (id : JsValue)
         (h : InstanceInitCmd.Host)
         (skip' : bool) (id' : JsValue) (h' : InstanceInitCmd.Host),
    listImages rounds page wanted skip id h
      = (InstanceInitCmd.Done (skip', id'), h') ->
    exists n,
      1 <= n <= rounds
      /\ InstanceInitCmd.requests h'
         = rev (map (fun p => get (InstanceInitCmd.pageUrl p)) (seq page n))
           ++ InstanceInitCmd.requests h
      /\ (forall p, page <= p < page + n - 1 ->
            exists found,
              listing wanted (length (InstanceInitCmd.requests h)) page p
              = Some (JNumber 200, found))
      /\ (exists count found,
            listing wanted (length (InstanceInitCmd.requests h)) page
                    (page + n - 1)
            = Some (count, found)
            /\ count <> JNumber 200)
      /\ ((skip' = skip /\ id' = id
           /\ forall p, page <= p < page + n ->
                exists count,
                  listing wanted (length (InstanceInitCmd.requests h)) page p
                  = Some (count, None))
          \/ (skip' = true
              /\ exists p,
                  page <= p < page + n
                  /\ (exists count,
                        listing wanted (length (InstanceInitCmd.requests h)) page p
                        = Some (count, Some id'))
                  /\ forall q, p < q < page + n ->
                       exists count,
                         listing wanted (length (InstanceInitCmd.requests h)) page q
                         = Some (count, None))).
Proof.
  induction rounds as [| rounds IH]; intros page skip id h skip' id' h' Hrun;
    [discriminate Hrun |].
  destruct (listImages_round _ _ _ _ _ _ _ _ _ Hrun)
    as (count & found & Hl & h1 & Hr1 & Hif).
  destruct (strict_eq_number count 200) eqn:Hc.
  - apply strict_eq_number_iff in Hc. subst count.
    destruct (IH _ _ _ _ _ _ _ Hif)
      as (n & Hn & Hreq & Hfull & (c & f & Hlast & Hshort) & Hmatch).
    rewrite Hr1 in Hreq, Hfull, Hlast, Hmatch. cbn [length] in *.
    exists (S n). split; [lia |]. split; [| split; [| split]].
    + rewrite Hreq. cbn [seq map rev]. now rewrite <- app_assoc.
    + intros p Hp. destruct (Nat.eq_dec p page) as [-> | Hne].
      * now exists found.
      * destruct (Hfull p) as [f' Hf']; [lia |]. exists f'.
        rewrite <- Hf'. symmetry. apply listing_shift. lia.
    + exists c, f. split; [| exact Hshort].
      rewrite <- Hlast. replace (page + S n - 1) with (S page + n - 1) by lia.
      symmetry. apply listing_shift. lia.
    + destruct Hmatch as [(-> & -> & Hnone) | (-> & p & Hp & (c' & Hfound) & Hlater)].
      * destruct found as [i |].
        -- right. split; [reflexivity |]. exists page. split; [lia |].
           split; [now exists (JNumber 200) |].
           intros q Hq. destruct (Hnone q) as [c' Hc']; [lia |]. exists c'.
           rewrite <- Hc'. symmetry. apply listing_shift. lia.
        -- left. split; [reflexivity |]. split; [reflexivity |].
           intros p Hp. destruct (Nat.eq_dec p page) as [-> | Hne].
           ++ now exists (JNumber 200).
           ++ destruct (Hnone p) as [c' Hc']; [lia |]. exists c'.
              rewrite <- Hc'. symmetry. apply listing_shift. lia.
      * right. split; [reflexivity |]. exists p. split; [lia |]. split.
        -- exists c'. rewrite <- Hfound. symmetry. apply listing_shift. lia.
        -- intros q Hq. destruct (Hlater q) as [c'' Hc'']; [lia |]. exists c''.
           rewrite <- Hc''. symmetry. apply listing_shift. lia.
  - destruct Hif as (-> & -> & ->).
    exists 1. split; [lia |]. split; [| split; [| split]].
    + rewrite Hr1. reflexivity.
    + intros p Hp. lia.
    + exists count, found. replace (page + 1 - 1) with page by lia.
      split; [exact Hl |]. intros ->. discriminate Hc.
    + destruct found as [i |].
      * right. split; [reflexivity |]. exists page. split; [lia |].
        split; [now exists count | intros q Hq; lia].
      * left. split; [reflexivity |]. split; [reflexivity |].
        intros p Hp. replace p with page by lia. now exists count.
Qed.

(** *** What each part of the run sends *)

Lemma adds_refl (h h' : InstanceInitCmd.Host) :
  InstanceInitCmd.requests h' = InstanceInitCmd.requests h -> adds options h h' [].
Proof.
  intros H. exists []. repeat split; [exact H | constructor].
Qed.

Lemma adds_get (h h1 h' : InstanceInitCmd.Host) (u : string) (posts : list string) :
  InstanceInitCmd.requests h1 = get u :: InstanceInitCmd.requests h ->
  adds options h1 h' posts -> adds options h h' posts.
Proof.
  intros H1 (new & Hreq & Hall & Hposts).
  exists (new ++ [get u]). rewrite Hreq, H1, <- app_assoc. split; [reflexivity |].
  split.
  - apply Forall_app. split; [exact Hall | now repeat constructor].
  - unfold postsOf in *. rewrite filter_app, map_app, Hposts. cbn.
    now rewrite app_nil_r.
Qed.

Lemma adds_post (h h1 h' : InstanceInitCmd.Host) (u : string) (payload : JsValue)
      (posts : list string) :
  InstanceInitCmd.requests h1
    = InstanceInitCmd.post options u payload :: InstanceInitCmd.requests h ->
  adds options h1 h' posts -> adds options h h' (posts ++ [u]).
Proof.
  intros H1 (new & Hreq & Hall & Hposts).
  exists (new ++ [InstanceInitCmd.post options u payload]).
  rewrite Hreq, H1, <- app_assoc. split; [reflexivity |]. split.
  - apply Forall_app. split; [exact Hall | now repeat constructor].
  - unfold postsOf in *. rewrite filter_app, map_app, Hposts. reflexivity.
Qed.

Lemma adds_trans (h h1 h' : InstanceInitCmd.Host) (posts1 posts2 : list string) :
  adds options h h1 posts1 -> adds options h1 h' posts2 -> adds options h h' (posts2 ++ posts1).
Proof.
  intros (new1 & Hreq1 & Hall1 & Hp1) (new2 & Hreq2 & Hall2 & Hp2).
  exists (new2 ++ new1). rewrite Hreq2, Hreq1, <- app_assoc.
  split; [reflexivity |]. split.
  - apply Forall_app. split; assumption.
  - unfold postsOf in *. now rewrite filter_app, map_app, Hp1, Hp2.
Qed.

Lemma listImages_adds (wanted : string) :
  forall (rounds page : nat) (skip : bool) (id : JsValue)
         (h : InstanceInitCmd.Host),
    adds options h (snd (listImages rounds page wanted skip id h)) [].
Proof.
  induction rounds as [| rounds IH]; intros page skip id h;
    [now apply adds_refl |].
  cbn [InstanceInitCmd.listImages].
  set (h1 := InstanceInitCmd.sent (get (InstanceInitCmd.pageUrl page)) h).
  assert (Hstop : forall h', InstanceInitCmd.requests h' = InstanceInitCmd.requests h1 ->
                             adds options h h' []).
  { intros h' Hh'. apply (adds_get h h1 h' (InstanceInitCmd.pageUrl page));
      [reflexivity | now apply adds_refl]. }
  destruct (fetchJson _ _) as [e | e | body]; try (now apply Hstop).
  destruct (read body "images") as [images | e]; [| now apply Hstop].
  destruct (lengthOf images) as [count | e]; [| now apply Hstop].
  destruct (iterate images) as [items | e]; [| now apply Hstop].
  destruct (InstanceInitCmd.firstNamed wanted items) as [[i |] | e];
    try (now apply Hstop);
    (destruct (strict_eq_number count 200); [| now apply Hstop]);
    (eapply adds_get; [| apply IH]); reflexivity.
Qed.

Lemma awaitImage_adds (imageID : JsValue) :
  forall (rounds : nat) (h : InstanceInitCmd.Host),
    adds options h (snd (awaitImage rounds imageID h)) [].
Proof.
  induction rounds as [| rounds IH]; intros h; [now apply adds_refl |].
  cbn [InstanceInitCmd.awaitImage].
  match goal with
  | |- context [InstanceInitCmd.sent ?r ?hh] => set (h2 := InstanceInitCmd.sent r hh)
  end.
  assert (Hstop : forall h', InstanceInitCmd.requests h' = InstanceInitCmd.requests h2 ->
                             adds options h h' []).
  { intros h' Hh'. eapply adds_get; [| apply adds_refl; exact Hh']. reflexivity. }
  destruct (fetchJson _ _) as [e | e | body]; try (now apply Hstop).
  destruct (read body "image") as [image | e]; [| now apply Hstop].
  destruct (read image "status") as [status | e]; [| now apply Hstop].
  destruct (strict_neq_string status "available"); [| now apply Hstop].
  eapply adds_get; [| apply IH]. reflexivity.
Qed.

Lemma awaitDroplet_adds (createURL : JsValue) :
  forall (rounds : nat) (h : InstanceInitCmd.Host),
    adds options h (snd (awaitDroplet rounds createURL h)) [].
Proof.
  induction rounds as [| rounds IH]; intros h; [now apply adds_refl |].
  cbn [InstanceInitCmd.awaitDroplet].
  destruct (read createURL "href") as [href | e]; [| now apply adds_refl].
  match goal with
  | |- context [InstanceInitCmd.sent ?r ?hh] => set (h2 := InstanceInitCmd.sent r hh)
  end.
  assert (Hstop : forall h', InstanceInitCmd.requests h' = InstanceInitCmd.requests h2 ->
                             adds options h h' []).
  { intros h' Hh'. eapply adds_get; [| apply adds_refl; exact Hh']. reflexivity. }
  destruct (fetchJson _ _) as [e | e | body]; try (now apply Hstop).
  destruct (read body "action") as [action | e]; [| now apply Hstop].
  destruct (read action "status") as [status | e]; [| now apply Hstop].
  destruct (strict_neq_string status "completed"); [| now apply Hstop].
  eapply adds_get; [| apply IH]. reflexivity.
Qed.

Lemma uploadImage_adds (rounds : nat) (wanted : string)
      (h : InstanceInitCmd.Host) :
  adds options h (snd (uploadImage rounds wanted h)) [InstanceInitCmd.imagesUrl].
Proof.
  unfold InstanceInitCmd.uploadImage.
  match goal with
  | |- context [InstanceInitCmd.sent ?r ?hh] => set (h4 := InstanceInitCmd.sent r hh)
  end.
  assert (Hstop : forall h', adds options h4 h' [] ->
                             adds options h h' [InstanceInitCmd.imagesUrl]).
  { intros h' Hh'. change [InstanceInitCmd.imagesUrl]
      with ([] ++ [InstanceInitCmd.imagesUrl]).
    eapply adds_post; [| exact Hh'].
    subst h4. cbn. destruct (truthy (InstanceInitCmd.apiKey options)); reflexivity. }
  destruct (fetchJson _ _) as [e | e | body];
    try (apply Hstop; now apply adds_refl).
  destruct (read body "image") as [image | e];
    [| apply Hstop; now apply adds_refl].
  destruct (read image "id") as [imageID | e];
    [| apply Hstop; now apply adds_refl].
  pose proof (awaitImage_adds imageID rounds
                (InstanceInitCmd.log (InstanceInitCmd.Line "Image sent.") h4)) as Hw.
  destruct (awaitImage rounds imageID _) as [[[] | e |] h6]; cbn [snd] in *;
    apply Hstop; destruct Hw as (new & Hreq & Hall & Hp);
    exists new; repeat split; assumption.
Qed.

Lemma createDroplet_adds (rounds : nat) (config imageID : JsValue)
      (h : InstanceInitCmd.Host) :
  exists posts,
    adds options h (snd (createDroplet rounds config imageID h)) posts
    /\ (posts = [] \/ posts = [dropletsUrl]).
Proof.
  unfold InstanceInitCmd.createDroplet.
  match goal with
  | |- context [InstanceInitCmd.sent ?r (InstanceInitCmd.log ?l h)] =>
      set (h2 := InstanceInitCmd.sent r (InstanceInitCmd.log l h))
  end.
  assert (Hearly : forall h', InstanceInitCmd.requests h' = InstanceInitCmd.requests h2 ->
                              exists posts, adds options h h' posts
                                            /\ (posts = [] \/ posts = [dropletsUrl])).
  { intros h' Hh'. exists []. split; [| now left].
    eapply adds_get; [| apply adds_refl; exact Hh']. reflexivity. }
  destruct (fetchJson _ _) as [e | e | keysBody]; try (now apply Hearly).
  destruct (read keysBody "ssh_keys") as [ssh_keys | e]; [| now apply Hearly].
  destruct (element0 ssh_keys) as [firstKey | e]; [| now apply Hearly].
  destruct (read firstKey "id") as [sshKeyID | e]; [| now apply Hearly].
  match goal with
  | |- context [InstanceInitCmd.sent ?r (InstanceInitCmd.log ?l h2)] =>
      set (h4 := InstanceInitCmd.sent r (InstanceInitCmd.log l h2))
  end.
  assert (Hlate : forall h', adds options h4 h' [] ->
                             exists posts, adds options h h' posts
                                           /\ (posts = [] \/ posts = [dropletsUrl])).
  { intros h' Hh'. exists [dropletsUrl]. split; [| now right].
    apply (adds_get h h2 h' "https://api.digitalocean.com/v2/account/keys");
      [reflexivity |].
    change [dropletsUrl] with ([] ++ [dropletsUrl]).
    eapply adds_post; [| exact Hh']. reflexivity. }
  destruct (fetchJson _ _) as [e | e | body];
    try (apply Hlate; now apply adds_refl).
  destruct (read body "links") as [links | e];
    [| apply Hlate; now apply adds_refl].
  destruct (read links "actions") as [actions | e];
    [| apply Hlate; now apply adds_refl].
  destruct (InstanceInitCmd.filterCreate actions) as [kept | e];
    [| apply Hlate; now apply adds_refl].
  destruct (js_truthy (nth 0 kept JUndefined));
    [| apply Hlate; now apply adds_refl].
  pose proof (awaitDroplet_adds (nth 0 kept JUndefined) rounds h4) as Hw.
  destruct (awaitDroplet rounds _ h4) as [[[] | e |] h5]; cbn [snd] in *;
    apply Hlate; destruct Hw as (new & Hreq & Hall & Hp);
    exists new; repeat split; assumption.
Qed.

Local Abbreviation wantedName :=
  (InstanceInitCmd.flagOr (InstanceInitCmd.imageName options) "balenaOS-qemux86-64").

Lemma run_adds (rounds : nat) (configFile : string) (h : InstanceInitCmd.Host) :
  exists posts,
    adds options h (snd (run rounds configFile h)) posts
    /\ (posts = [] \/ posts = [InstanceInitCmd.imagesUrl]
        \/ posts = [dropletsUrl]
        \/ posts = [dropletsUrl; InstanceInitCmd.imagesUrl])
    /\ (In InstanceInitCmd.imagesUrl posts ->
        exists id h2 h3,
          InstanceInitCmd.requests h2 = InstanceInitCmd.requests h
          /\ listImages rounds 1 wantedName false (JNumber 0) h2
             = (InstanceInitCmd.Done (false, id), h3)).
Proof.
  unfold InstanceInitCmd.run.
  destruct (existsSync configFile); cbn [negb];
    [| exists []; split; [now apply adds_refl | split; [now left | intros []]]].
  destruct (readConfig configFile) as [config | e];
    [| exists []; split; [now apply adds_refl | split; [now left | intros []]]].
  set (h2 := InstanceInitCmd.log _ (InstanceInitCmd.log _ h)).
  pose proof (listImages_adds wantedName rounds 1 false (JNumber 0) h2) as Hlist.
  destruct (listImages rounds 1 wantedName false (JNumber 0) h2)
    as [[[[] id] | e |] h3] eqn:Hrun; cbn [snd] in Hlist.
  - destruct (createDroplet_adds rounds config id h3) as (posts & Hc & Hp).
    exists posts. split; [| split].
    + rewrite <- (app_nil_r posts). eapply adds_trans; [exact Hlist | exact Hc].
    + destruct Hp as [-> | ->]; auto.
    + destruct Hp as [-> | ->]; [intros [] | intros [Hq | []]; discriminate Hq].
  - pose proof (uploadImage_adds rounds wantedName h3) as Hup.
    assert (Hfound : exists id0 h20 h30,
               InstanceInitCmd.requests h20 = InstanceInitCmd.requests h
               /\ listImages rounds 1 wantedName false (JNumber 0) h20
                  = (InstanceInitCmd.Done (false, id0), h30))
      by (exists id, h2, h3; split; [reflexivity | exact Hrun]).
    assert (Hup' : adds options h (snd (uploadImage rounds wantedName h3))
                        [InstanceInitCmd.imagesUrl]).
    { change [InstanceInitCmd.imagesUrl] with ([InstanceInitCmd.imagesUrl] ++ []).
      eapply adds_trans; [exact Hlist | exact Hup]. }
    destruct (uploadImage rounds wantedName h3) as [[imageID | e |] h4];
      cbn [snd] in *.
    + destruct (createDroplet_adds rounds config imageID h4) as (posts & Hc & Hp).
      exists (posts ++ [InstanceInitCmd.imagesUrl]). split; [| split].
      * eapply adds_trans; [exact Hup' | exact Hc].
      * destruct Hp as [-> | ->]; cbn; auto.
      * intros _. exact Hfound.
    + exists [InstanceInitCmd.imagesUrl]. split; [exact Hup' |].
      split; [auto | intros _; exact Hfound].
    + exists [InstanceInitCmd.imagesUrl]. split; [exact Hup' |].
      split; [auto | intros _; exact Hfound].
  - exists []. split; [exact Hlist | split; [now left | intros []]].
  - exists []. split; [exact Hlist | split; [now left | intros []]].
Qed.

(** Every request the run sends carries the bearer header made from
    [--apiKey]; among them there is at most one POST to create an image
    and at most one POST to create a droplet, the image first, and no
    POST to any other address. *)
Theorem init_sends_at_most_two_posts
        (rounds : nat) (configFile : string) (h : InstanceInitCmd.Host) :
  exists new,
    InstanceInitCmd.requests (snd (run rounds configFile h))
    = new ++ InstanceInitCmd.requests h
    /\ Forall (fun r => InstanceInitCmd.authorization r
                        = InstanceInitCmd.bearer options) new
    /\ (postsOf new = [] \/ postsOf new = [InstanceInitCmd.imagesUrl]
        \/ postsOf new = [dropletsUrl]
        \/ postsOf new = [dropletsUrl; InstanceInitCmd.imagesUrl]).
Proof.
  destruct (run_adds rounds configFile h)
    as (posts & (new & Hreq & Hall & Hposts) & Hp & _).
  exists new. rewrite Hposts. repeat split; assumption.
Qed.

(** The run asks for an image to be created only after the list of
    images came to its end with no image of the wanted name on any of
    its pages. *)
Theorem image_is_uploaded_only_when_none_is_listed
        (rounds : nat) (configFile : string) (h : InstanceInitCmd.Host)
        (new : list InstanceInitCmd.Request) :
  InstanceInitCmd.requests (snd (run rounds configFile h))
  = new ++ InstanceInitCmd.requests h ->
  In InstanceInitCmd.imagesUrl (postsOf new) ->
  exists n,
    1 <= n <= rounds
    /\ (forall p, 1 <= p <= n ->
          exists count,
            listing wantedName (length (InstanceInitCmd.requests h)) 1 p
            = Some (count, None))
    /\ exists count,
        listing wantedName (length (InstanceInitCmd.requests h)) 1 n
        = Some (count, None)
        /\ count <> JNumber 200.
Proof.
  intros Hreq Hin.
  destruct (run_adds rounds configFile h)
    as (posts & (new' & Hreq' & _ & Hposts) & _ & Hfound).
  rewrite Hreq in Hreq'. apply app_inv_tail in Hreq'. subst new'.
  rewrite Hposts in Hin.
  destruct (Hfound Hin) as (id & h2 & h3 & Hh2 & Hrun).
  destruct (listImages_spec wantedName _ _ _ _ _ _ _ _ Hrun)
    as (n & Hn & _ & _ & (c & f & Hlast & Hshort) & Hmatch).
  rewrite Hh2 in *.
  destruct Hmatch as [(_ & _ & Hnone) | (Habs & _)]; [| discriminate Habs].
  exists n. split; [exact Hn |]. split.
  - intros p Hp. apply Hnone. lia.
  - destruct (Hnone n) as [c' Hc']; [lia |].
    replace (1 + n - 1) with n in Hlast by lia.
    exists c'. split; [exact Hc' |]. congruence.
Qed.

(** *** The list of images *)

(** When the listing comes to an end it has asked for pages 1, 2, ... up
    to some page [n], one request each and in that order; every page
    before [n] showed exactly 200 images, and page [n] is the first that
    did not. *)
Theorem listing_stops_at_the_first_short_page
        (rounds : nat) (wanted : string) (skip : bool) (id : JsValue)
        (h : InstanceInitCmd.Host)
        (skip' : bool) (id' : JsValue) (h' : InstanceInitCmd.Host) :
  listImages rounds 1 wanted skip id h = (InstanceInitCmd.Done (skip', id'), h') ->
  exists n,
    1 <= n <= rounds
    /\ InstanceInitCmd.requests h'
       = rev (map (fun p => get (InstanceInitCmd.pageUrl p)) (seq 1 n))
         ++ InstanceInitCmd.requests h
    /\ (forall p, 1 <= p < n ->
          exists found,
            listing wanted (length (InstanceInitCmd.requests h)) 1 p
            = Some (JNumber 200, found))
    /\ exists count found,
        listing wanted (length (InstanceInitCmd.requests h)) 1 n
        = Some (count, found)
        /\ count <> JNumber 200.
Proof.
  intros Hrun.
  destruct (listImages_spec wanted _ _ _ _ _ _ _ _ Hrun)
    as (n & Hn & Hreq & Hfull & (c & f & Hlast & Hshort) & _).
  exists n. split; [exact Hn |]. split; [exact Hreq |]. split.
  - intros p Hp. apply Hfull. lia.
  - exists c, f. replace (1 + n - 1) with n in Hlast by lia.
    split; assumption.
Qed.

(** The listing does not stop at a page that shows the wanted name: it
    asks for pages 1 to [n], where page [n] is the first that does not
    show exactly 200 images, and the image the run goes on with is the
    one found on the last of these pages that showed an image of the
    wanted name; a later page with the name replaces what an earlier
    page gave.  When none of the pages showed the name, nothing is
    found. *)
Theorem last_page_with_the_name_wins
        (rounds : nat) (wanted : string) (h : InstanceInitCmd.Host)
        (skip' : bool) (id' : JsValue) (h' : InstanceInitCmd.Host) :
  listImages rounds 1 wanted false (JNumber 0) h
    = (InstanceInitCmd.Done (skip', id'), h') ->
  exists n,
    1 <= n <= rounds
    /\ InstanceInitCmd.requests h'
       = rev (map (fun p => get (InstanceInitCmd.pageUrl p)) (seq 1 n))
         ++ InstanceInitCmd.requests h
    /\ (forall p, 1 <= p < n ->
          exists found,
            listing wanted (length (InstanceInitCmd.requests h)) 1 p
            = Some (JNumber 200, found))
    /\ (exists count found,
          listing wanted (length (InstanceInitCmd.requests h)) 1 n
          = Some (count, found)
          /\ count <> JNumber 200)
    /\ ((skip' = false /\ id' = JNumber 0
         /\ forall p, 1 <= p <= n ->
              exists count,
                listing wanted (length (InstanceInitCmd.requests h)) 1 p
                = Some (count, None))
        \/ (skip' = true
            /\ exists p,
                1 <= p <= n
                /\ (exists count,
                      listing wanted (length (InstanceInitCmd.requests h)) 1 p
                      = Some (count, Some id'))
                /\ forall q, p < q <= n ->
                     exists count,
                       listing wanted (length (InstanceInitCmd.requests h)) 1 q
                       = Some (count, None))).
Proof.
  intros Hrun.
  destruct (listImages_spec wanted _ _ _ _ _ _ _ _ Hrun)
    as (n & Hn & Hreq & Hfull & (c & f & Hlast & Hshort) & Hmatch).
  exists n. split; [exact Hn |]. split; [exact Hreq |].
  split; [intros p Hp; apply Hfull; lia |].
  split.
  { exists c, f. replace (1 + n - 1) with n in Hlast by lia.
    split; assumption. }
  destruct Hmatch as [(-> & -> & Hnone) | (-> & p & Hp & Hfound & Hlater)].
  - left. repeat split. intros p Hp. apply Hnone. lia.
  - right. split; [reflexivity |]. exists p. split; [lia |].
    split; [exact Hfound |]. intros q Hq. apply Hlater. lia.
Qed.

Lemma strict_eq_string_iff (v : JsValue) (lit : string) :
  strict_eq_string v lit = true <-> v = JString lit.
Proof.
  unfold strict_eq_string.
  destruct v; simpl; try (split; [discriminate | intros H; discriminate H]).
  rewrite negb_involutive, String.eqb_eq.
  split; [now intros -> | now intros [= ->]].
Qed.

(** On one page, the image found is the first whose [name] is the
    wanted name: every entry before it had a [name] to read, and a
    different one. *)
Theorem first_image_of_the_name_is_found
        (wanted : string) (items : list JsValue) (id : JsValue) :
  InstanceInitCmd.firstNamed wanted items = Fulfilled (Some id)
  <-> exists before image after,
      items = before ++ image :: after
      /\ read image "name" = Fulfilled (JString wanted)
      /\ read image "id" = Fulfilled id
      /\ Forall (fun entry =>
                   exists name, read entry "name" = Fulfilled name
                                /\ name <> JString wanted) before.
Proof.
  induction items as [| x items IH]; cbn [InstanceInitCmd.firstNamed].
  - split; [discriminate |].
    intros (before & image & after & H & _). now destruct before.
  - destruct (read x "name") as [name | e] eqn:Hname.
    + destruct (strict_eq_string name wanted) eqn:Heq.
      * apply strict_eq_string_iff in Heq. subst name.
        assert (Hid : exists i, read x "id" = Fulfilled i).
        { unfold read in *. destruct (member x "name") eqn:Hm; [| discriminate].
          destruct (member_defined x "id" (member_resolved_not_nullish _ _ _ Hm))
            as [i ->]. now exists i. }
        destruct Hid as [i Hi]. rewrite Hi. split.
        -- intros [= <-]. exists [], x, items. repeat split; auto.
        -- intros (before & image & after & H & Hn & Hid' & Hall).
           destruct before as [| b before].
           ++ injection H as <- _. congruence.
           ++ injection H as <- _. inversion Hall as [| ? ? (nm & Hnm & Hne) _]; subst.
              congruence.
      * rewrite IH. split.
        -- intros (before & image & after & -> & Hn & Hid & Hall).
           exists (x :: before), image, after. repeat split; auto.
           constructor; [| exact Hall]. exists name. split; [exact Hname |].
           intros ->. rewrite (proj2 (strict_eq_string_iff _ _) eq_refl) in Heq.
           discriminate.
        -- intros (before & image & after & H & Hn & Hid & Hall).
           destruct before as [| b before].
           ++ injection H as <- _. rewrite Hname in Hn. injection Hn as ->.
              rewrite (proj2 (strict_eq_string_iff _ _) eq_refl) in Heq.
              discriminate.
           ++ injection H as <- ->. inversion Hall; subst.
              exists before, image, after. repeat split; auto.
    + split; [discriminate |].
      intros (before & image & after & H & Hn & _ & Hall).
      destruct before as [| b before].
      * injection H as <- _. congruence.
      * injection H as <- _. inversion Hall as [| ? ? (nm & Hnm & _) _]; subst.
        congruence.
Qed.

(** *** Waiting *)

Lemma strict_neq_string_iff (v : JsValue) (lit : string) :
  strict_neq_string v lit = true <-> v <> JString lit.
Proof.
  destruct v; simpl; try (split; [discriminate | reflexivity]).
  rewrite negb_true_iff, String.eqb_neq. split; [congruence |].
  intros H Heq. apply H. now rewrite Heq.
Qed.

Lemma strict_neq_string_false (v : JsValue) (lit : string) :
  strict_neq_string v lit = false -> v = JString lit.
Proof.
  destruct v; simpl; try discriminate.
  rewrite negb_false_iff, String.eqb_eq. now intros ->.
Qed.

Local Abbreviation polled := (polledStatus fetchJson options).

Lemma awaitImage_spec (imageID : JsValue) :
  forall (rounds : nat) (h h' : InstanceInitCmd.Host),
    awaitImage rounds imageID h = (InstanceInitCmd.Done tt, h') ->
    exists n,
      1 <= n <= rounds
      /\ InstanceInitCmd.requests h'
         = repeat (get (InstanceInitCmd.imagesUrl ++ "/" ++ js_toString imageID)%string) n
           ++ InstanceInitCmd.requests h
      /\ InstanceInitCmd.slept h' = repeat 2000%Z n ++ InstanceInitCmd.slept h
      /\ InstanceInitCmd.journal h'
         = concat (repeat (pollRound options imageID) n)
           ++ InstanceInitCmd.journal h
      /\ (forall i, i < n - 1 ->
            exists status,
              polled "image" (InstanceInitCmd.imagesUrl ++ "/" ++ js_toString imageID)%string
                     (length (InstanceInitCmd.requests h)) i = Some status
              /\ status <> JString "available")
      /\ polled "image" (InstanceInitCmd.imagesUrl ++ "/" ++ js_toString imageID)%string
                (length (InstanceInitCmd.requests h)) (n - 1)
         = Some (JString "available").
Proof.
  induction rounds as [| rounds IH]; intros h h' Hrun; [discriminate Hrun |].
  cbn [InstanceInitCmd.awaitImage] in Hrun.
  set (u := (InstanceInitCmd.imagesUrl ++ "/" ++ js_toString imageID)%string) in *.
  cbn [InstanceInitCmd.requests InstanceInitCmd.sleep InstanceInitCmd.log] in Hrun.
  destruct (fetchJson (length (InstanceInitCmd.requests h)) (get u))
    as [e | e | body] eqn:Hfetch; try discriminate Hrun.
  destruct (read body "image") as [image | e] eqn:Himage; [| discriminate Hrun].
  destruct (read image "status") as [status | e] eqn:Hstatus; [| discriminate Hrun].
  assert (Hp0 : polled "image" u (length (InstanceInitCmd.requests h)) 0
                = Some status).
  { unfold polledStatus. now rewrite Nat.add_0_r, Hfetch, Himage, Hstatus. }
  destruct (strict_neq_string status "available") eqn:Hneq.
  - destruct (IH _ _ Hrun) as (n & Hn & Hreq & Hsl & Hj & Hearly & Hlast).
    cbn [InstanceInitCmd.requests InstanceInitCmd.slept InstanceInitCmd.journal
         InstanceInitCmd.sent InstanceInitCmd.sleep InstanceInitCmd.log length]
      in *.
    exists (S n). split; [lia |]. split; [| split; [| split; [| split]]].
    + rewrite Hreq. cbn [repeat]. rewrite repeat_cons, <- app_assoc. reflexivity.
    + rewrite Hsl. cbn [repeat]. rewrite repeat_cons, <- app_assoc. reflexivity.
    + rewrite Hj. cbn [repeat]. rewrite repeat_cons, concat_app, <- app_assoc.
      reflexivity.
    + intros i Hi. destruct i as [| i].
      * exists status. split; [exact Hp0 |]. now apply strict_neq_string_iff.
      * destruct (Hearly i) as (s & Hs & Hne); [lia |]. exists s.
        split; [| exact Hne]. unfold polledStatus in *.
        now replace (length (InstanceInitCmd.requests h) + S i)
          with (S (length (InstanceInitCmd.requests h)) + i) by lia.
    + unfold polledStatus in *.
      replace (length (InstanceInitCmd.requests h) + (S n - 1))
        with (S (length (InstanceInitCmd.requests h)) + (n - 1)) by lia.
      exact Hlast.
  - injection Hrun as <-. apply strict_neq_string_false in Hneq. subst status.
    exists 1. split; [lia |]. repeat split.
    + intros i Hi. lia.
    + exact Hp0.
Qed.

(** When the wait for the image comes to an end, it has gone round [n]
    times and done nothing else: each round printed its line, then
    awaited a timer of 2000 ms, then asked for the image, in that order
    (the journal is latest first, and so is [pollRound]); the last
    answer was the first whose image status was [available]. *)
Theorem image_is_polled_until_available
        (rounds : nat) (imageID : JsValue) (h h' : InstanceInitCmd.Host) :
  awaitImage rounds imageID h = (InstanceInitCmd.Done tt, h') ->
  exists n,
    1 <= n <= rounds
    /\ InstanceInitCmd.requests h'
       = repeat (get (InstanceInitCmd.imagesUrl ++ "/" ++ js_toString imageID)%string) n
         ++ InstanceInitCmd.requests h
    /\ InstanceInitCmd.slept h' = repeat 2000%Z n ++ InstanceInitCmd.slept h
    /\ InstanceInitCmd.journal h'
       = concat (repeat (pollRound options imageID) n)
         ++ InstanceInitCmd.journal h
    /\ (forall i, i < n - 1 ->
          exists status,
            polled "image" (InstanceInitCmd.imagesUrl ++ "/" ++ js_toString imageID)%string
                   (length (InstanceInitCmd.requests h)) i = Some status
            /\ status <> JString "available")
    /\ polled "image" (InstanceInitCmd.imagesUrl ++ "/" ++ js_toString imageID)%string
              (length (InstanceInitCmd.requests h)) (n - 1)
       = Some (JString "available").
Proof.
  apply awaitImage_spec.
Qed.

End InitFacts.

Lemma image_is_uploaded_only_when_none_is_listed_witness :
  exists n,
    1 <= n <= 3
    /\ (forall p, 1 <= p <= n ->
          exists count,
            pageListing InitDemo.noImage InitDemo.options
                        "balenaOS-qemux86-64" 0 1 p
            = Some (count, None))
    /\ exists count,
        pageListing InitDemo.noImage InitDemo.options
                    "balenaOS-qemux86-64" 0 1 n
        = Some (count, None)
        /\ count <> JNumber 200.
Proof.
  exact (image_is_uploaded_only_when_none_is_listed
           (fun _ => true) (fun _ => Fulfilled (JObject []))
           InitDemo.noImage "quiet-sun" (fun _ => "{}"%string) InitDemo.options
           3 "config.json" InstanceInitCmd.emptyHost
           (InstanceInitCmd.requests (snd (InitDemo.run 3)))
           eq_refl (or_intror (or_introl eq_refl))).
Defined.

Lemma listing_stops_at_the_first_short_page_witness :
  exists n,
    1 <= n <= 5
    /\ InstanceInitCmd.requests
         (snd (InstanceInitCmd.listImages InitDemo.twoPages InitDemo.options
                 5 1 "balenaOS-qemux86-64" false (JNumber 0)
                 InstanceInitCmd.emptyHost))
       = rev (map (fun p => InstanceInitCmd.get InitDemo.options
                              (InstanceInitCmd.pageUrl p)) (seq 1 n))
         ++ []
    /\ (forall p, 1 <= p < n ->
          exists found,
            pageListing InitDemo.twoPages InitDemo.options
                        "balenaOS-qemux86-64" 0 1 p
            = Some (JNumber 200, found))
    /\ exists count found,
        pageListing InitDemo.twoPages InitDemo.options
                    "balenaOS-qemux86-64" 0 1 n
        = Some (count, found)
        /\ count <> JNumber 200.
Proof.
  exact (listing_stops_at_the_first_short_page
           InitDemo.twoPages InitDemo.options
           5 "balenaOS-qemux86-64" false (JNumber 0) InstanceInitCmd.emptyHost
           true (JNumber 9) _ eq_refl).
Defined.

Lemma last_page_with_the_name_wins_witness :
  exists n,
    1 <= n <= 5
    /\ InstanceInitCmd.requests
         (snd (InstanceInitCmd.listImages InitDemo.twoPages InitDemo.options
                 5 1 "balenaOS-qemux86-64" false (JNumber 0)
                 InstanceInitCmd.emptyHost))
       = rev (map (fun p => InstanceInitCmd.get InitDemo.options
                              (InstanceInitCmd.pageUrl p)) (seq 1 n))
         ++ []
    /\ (forall p, 1 <= p < n ->
          exists found,
            pageListing InitDemo.twoPages InitDemo.options
                        "balenaOS-qemux86-64" 0 1 p
            = Some (JNumber 200, found))
    /\ (exists count found,
          pageListing InitDemo.twoPages InitDemo.options
                      "balenaOS-qemux86-64" 0 1 n
          = Some (count, found)
          /\ count <> JNumber 200)
    /\ ((true = false /\ JNumber 9 = JNumber 0
         /\ forall p, 1 <= p <= n ->
              exists count,
                pageListing InitDemo.twoPages InitDemo.options
                            "balenaOS-qemux86-64" 0 1 p
                = Some (count, None))
        \/ (true = true
            /\ exists p,
                1 <= p <= n
                /\ (exists count,
                      pageListing InitDemo.twoPages InitDemo.options
                                  "balenaOS-qemux86-64" 0 1 p
                      = Some (count, Some (JNumber 9)))
                /\ forall q, p < q <= n ->
                     exists count,
                       pageListing InitDemo.twoPages InitDemo.options
                                   "balenaOS-qemux86-64" 0 1 q
                       = Some (count, None))).
Proof.
  exact (last_page_with_the_name_wins
           InitDemo.twoPages InitDemo.options
           5 "balenaOS-qemux86-64" InstanceInitCmd.emptyHost
           true (JNumber 9) _ eq_refl).
Defined.

Lemma image_is_polled_until_available_witness :
  exists n,
    1 <= n <= 4
    /\ InstanceInitCmd.requests
         (snd (InstanceInitCmd.awaitImage InitDemo.readyAtSecondPoll
                 InitDemo.options 4 (JNumber 5) InstanceInitCmd.emptyHost))
       = repeat (InstanceInitCmd.get InitDemo.options
                   (InstanceInitCmd.imagesUrl ++ "/" ++ "5")%string) n
         ++ []
    /\ InstanceInitCmd.slept
         (snd (InstanceInitCmd.awaitImage InitDemo.readyAtSecondPoll
                 InitDemo.options 4 (JNumber 5) InstanceInitCmd.emptyHost))
       = repeat 2000%Z n ++ []
    /\ InstanceInitCmd.journal
         (snd (InstanceInitCmd.awaitImage InitDemo.readyAtSecondPoll
                 InitDemo.options 4 (JNumber 5) InstanceInitCmd.emptyHost))
       = concat (repeat (pollRound InitDemo.options (JNumber 5)) n) ++ []
    /\ (forall i, i < n - 1 ->
          exists status,
            polledStatus InitDemo.readyAtSecondPoll InitDemo.options "image"
                         (InstanceInitCmd.imagesUrl ++ "/" ++ "5")%string 0 i
            = Some status
            /\ status <> JString "available")
    /\ polledStatus InitDemo.readyAtSecondPoll InitDemo.options "image"
                    (InstanceInitCmd.imagesUrl ++ "/" ++ "5")%string 0 (n - 1)
       = Some (JString "available").
Proof.
  exact (image_is_polled_until_available
           InitDemo.readyAtSecondPoll InitDemo.options
           4 (JNumber 5) InstanceInitCmd.emptyHost _ eq_refl).
Defined.
